(** * cloudmail.py: a client of the domain-mail HTTP API

    A shallow embedding of [src/jiaoben/cloudmail.py] and the properties
    of its specification.

    - Python values are the values [response.json()] builds: [None],
      booleans, integers, floats, strings, lists and string-keyed dicts.
      A float is a binary64 value; the decimal digits [float.__repr__]
      writes for one, and the float [float(text)] reads, are parameters.
    - A Python [str] is its sequence of code points.
    - A dict is an association list in insertion order; [Dict.set] is
      [d[k] = v].
    - The methods of [EmailAPI] run in a state-and-exception monad over the
      object's two fields and the log of the HTTP requests attempted so
      far; the remote service is a parameter.
    - [save_emails_to_json] writes through models of [json.dump] with
      [ensure_ascii=False, indent=2], chunk by chunk, and of the strict
      UTF-8 codec of a text file; which file a name denotes, and whether
      [open] accepts it, is a parameter, and so is where the interpreter's
      recursion limit stops [json.dump].  [json.load] is modelled to state
      the round trip. *)

From Stdlib Require Import List ZArith NArith Lia Bool String Ascii.
From Stdlib Require Import DecimalZ DecimalN DecimalPos DecimalFacts.
Import ListNotations.

Set Warnings "-register-all".
Local Open Scope Z_scope.

(* ===================================================================== *)
(** * Python strings                                                     *)
(* ===================================================================== *)

(** A [str] is a sequence of code points (0 .. 0x10FFFF). *)
Definition pystr := list N.

(** An ASCII literal of the source as a [pystr]. *)
Definition lit (a : string) : pystr :=
  List.map N_of_ascii (list_ascii_of_string a).
Arguments lit a%_string.

Module Str.

Fixpoint eqb (a b : pystr) : bool :=
  match a, b with
  | [], [] => true
  | x :: a', y :: b' => N.eqb x y && eqb a' b'
  | _, _ => false
  end.

(** [a.startswith(b)], read as "b is a prefix of a". *)
Fixpoint prefixb (b a : pystr) : bool :=
  match b, a with
  | [], _ => true
  | x :: b', y :: a' => N.eqb x y && prefixb b' a'
  | _ :: _, [] => false
  end.

(** [t in s] on two strings: [t] occurs in [s] as a contiguous run. *)
Fixpoint contains (t s : pystr) : bool :=
  prefixb t s ||
  match s with
  | [] => false
  | _ :: s' => contains t s'
  end.

(** [s.rstrip('/')]: drop every trailing slash. *)
Fixpoint rstrip_slash (s : pystr) : pystr :=
  match s with
  | [] => []
  | c :: s' =>
      match rstrip_slash s' with
      | [] => if N.eqb c 47 then [] else [c]
      | r => c :: r
      end
  end.

(** The decimal digits of [int.__repr__]. *)
Fixpoint uint_chars (d : Decimal.uint) : pystr :=
  match d with
  | Decimal.Nil => []
  | Decimal.D0 d' => 48%N :: uint_chars d'
  | Decimal.D1 d' => 49%N :: uint_chars d'
  | Decimal.D2 d' => 50%N :: uint_chars d'
  | Decimal.D3 d' => 51%N :: uint_chars d'
  | Decimal.D4 d' => 52%N :: uint_chars d'
  | Decimal.D5 d' => 53%N :: uint_chars d'
  | Decimal.D6 d' => 54%N :: uint_chars d'
  | Decimal.D7 d' => 55%N :: uint_chars d'
  | Decimal.D8 d' => 56%N :: uint_chars d'
  | Decimal.D9 d' => 57%N :: uint_chars d'
  end.

Definition int_repr (z : Z) : pystr :=
  match z with
  | Z0 => [48%N]
  | Zpos p => uint_chars (Pos.to_uint p)
  | Zneg p => 45%N :: uint_chars (Pos.to_uint p)
  end.

(** The number of decimal digits of an integer, its sign left out. *)
Definition digits (z : Z) : nat :=
  List.length (uint_chars (N.to_uint (Z.abs_N z))).

End Str.

(* ===================================================================== *)
(** * Python values                                                      *)
(* ===================================================================== *)

(** A Python float, an IEEE 754 binary64 value: not-a-number, an
    infinity, a zero, or [(-1)^negative * m * 2^e].  Binary64 bounds [m]
    and [e]; nothing here depends on the bounds. *)
Inductive pyfloat : Type :=
| FNan
| FInf (negative : bool)
| FZero (negative : bool)
| FFinite (negative : bool) (m : positive) (e : Z).

Module Float.

(** [f == n] for an integer [n]: the comparison is exact. *)
Definition eq_int (f : pyfloat) (n : Z) : bool :=
  match f with
  | FZero _ => n =? 0
  | FFinite negative m e =>
      let v := if negative then Zneg m else Zpos m in
      if 0 <=? e then v * 2 ^ e =? n else v =? n * 2 ^ (- e)
  | _ => false
  end.

(** [f == g]: not-a-number equals nothing, itself included, and the two
    zeros are equal. *)
Definition equal (f g : pyfloat) : bool :=
  match f, g with
  | FInf s, FInf s' => Bool.eqb s s'
  | FZero _, FZero _ => true
  | FFinite s m e, FFinite s' m' e' =>
      Bool.eqb s s' &&
      (if e <=? e' then Zpos m =? Zpos m' * 2 ^ (e' - e)
       else Zpos m * 2 ^ (e - e') =? Zpos m')
  | _, _ => false
  end.

(** The same float, sign of zero included; not-a-number is the same as
    itself. *)
Definition same (f g : pyfloat) : bool :=
  match f, g with
  | FNan, FNan => true
  | FInf s, FInf s' => Bool.eqb s s'
  | FZero s, FZero s' => Bool.eqb s s'
  | FFinite s m e, FFinite s' m' e' =>
      Bool.eqb s s' && Pos.eqb m m' && (e =? e')
  | _, _ => false
  end.

Definition is_finite (f : pyfloat) : bool :=
  match f with
  | FZero _ | FFinite _ _ _ => true
  | _ => false
  end.

End Float.

Inductive pyval : Type :=
| PNone
| PBool (b : bool)
| PInt (n : Z)
| PFloat (f : pyfloat)
| PStr (t : pystr)
| PList (l : list pyval)
| PDict (d : list (pystr * pyval)).

Definition pydict := list (pystr * pyval).

Module Dict.

(** [d.get(k)], [None] when the key is absent. *)
Fixpoint get (d : pydict) (k : pystr) : option pyval :=
  match d with
  | [] => None
  | (k', v) :: d' => if Str.eqb k' k then Some v else get d' k
  end.

(** [d[k] = v]: an existing key keeps its position, a new key goes last. *)
Fixpoint set (d : pydict) (k : pystr) (v : pyval) : pydict :=
  match d with
  | [] => [(k, v)]
  | (k', v') :: d' =>
      if Str.eqb k' k then (k', v) :: d' else (k', v') :: set d' k v
  end.

Definition keys (d : pydict) : list pystr := List.map fst d.

End Dict.

(** [bool(v)]. *)
Definition truthy (v : pyval) : bool :=
  match v with
  | PNone => false
  | PBool b => b
  | PInt n => negb (n =? 0)
  | PFloat f => match f with FZero _ => false | _ => true end
  | PStr t => match t with [] => false | _ => true end
  | PList l => match l with [] => false | _ => true end
  | PDict d => match d with [] => false | _ => true end
  end.

(** [v == n] for an integer literal [n]; [True] and [False] compare as 1
    and 0, a float by its value. *)
Definition eq_int (v : pyval) (n : Z) : bool :=
  match v with
  | PInt z => z =? n
  | PBool b => (if b then 1 else 0) =? n
  | PFloat f => Float.eq_int f n
  | _ => false
  end.

(** [type(v).__name__]. *)
Definition type_name (v : pyval) : pystr :=
  match v with
  | PNone => lit "NoneType"
  | PBool _ => lit "bool"
  | PInt _ => lit "int"
  | PFloat _ => lit "float"
  | PStr _ => lit "str"
  | PList _ => lit "list"
  | PDict _ => lit "dict"
  end.

(* ===================================================================== *)
(** * Exceptions and results                                             *)
(* ===================================================================== *)

(** The classes the source tells apart: [requests.exceptions.RequestException]
    (caught by [get_mail_list]) and every other [Exception]. *)
Inductive exn_class : Type :=
| RequestException
| AttributeError
| TypeError
| KeyError
| UnicodeEncodeError
| ValueError
| FileNotFoundError
| RecursionError
| OtherException.

Record exn : Type := mkExn { exn_kind : exn_class; exn_text : pystr }.

Inductive pyresult (A : Type) : Type :=
| Ok (a : A)
| Raise (e : exn).
Arguments Ok {A} a.
Arguments Raise {A} e.

Definition is_request_exception (e : exn) : bool :=
  match exn_kind e with RequestException => true | _ => false end.

(** The text of the [AttributeError] of [v.attr]. *)
Definition no_attribute (v : pyval) (attr : pystr) : exn :=
  mkExn AttributeError
    (lit "'" ++ type_name v ++ lit "' object has no attribute '" ++ attr
     ++ lit "'").

(** [o.get(k, default)]: only a dict has the method. *)
Definition py_get (o : pyval) (k : pystr) (default : pyval) : pyresult pyval :=
  match o with
  | PDict d => Ok (match Dict.get d k with Some v => v | None => default end)
  | _ => Raise (no_attribute o (lit "get"))
  end.

(* ===================================================================== *)
(** * The HTTP library, as far as the client uses it                     *)
(* ===================================================================== *)

(** A call [requests.post(url, json=payload, headers=headers)]. *)
Record http_request : Type := mkRequest {
  req_url : pystr;
  req_json : pyval;
  req_headers : pydict
}.

(** A [requests.Response]: the transport status, the reason phrase, the
    final URL, and what [response.json()] does (the decoded body, or the
    exception of a body that is not JSON). *)
Record http_response : Type := mkResponse {
  status_code : Z;
  reason : pystr;
  resp_url : pystr;
  json_body : pyresult pyval
}.

Inductive post_outcome : Type :=
| PostRaises (e : exn)
| PostReturns (r : http_response).

(** The remote service and the transport below it: what a POST does, given
    the requests attempted before it. *)
Definition network := list http_request -> http_request -> post_outcome.

(** [Response.raise_for_status()]: an [HTTPError], which is a
    [RequestException], for a 4xx or 5xx status. *)
Definition raise_for_status (r : http_response) : pyresult unit :=
  if (400 <=? status_code r) && (status_code r <? 500) then
    Raise (mkExn RequestException
             (Str.int_repr (status_code r) ++ lit " Client Error: "
              ++ reason r ++ lit " for url: " ++ resp_url r))
  else if (500 <=? status_code r) && (status_code r <? 600) then
    Raise (mkExn RequestException
             (Str.int_repr (status_code r) ++ lit " Server Error: "
              ++ reason r ++ lit " for url: " ++ resp_url r))
  else Ok tt.

(* ===================================================================== *)
(** * The client object and its monad                                    *)
(* ===================================================================== *)

(** The two fields of an [EmailAPI] instance.  [token] holds whatever
    [data["data"]["token"]] was, or [None]. *)
Record EmailAPI : Type := mkEmailAPI {
  base_url : pystr;
  token : pyval
}.

(** What a method call can read and change: the object, and the log of
    the POSTs attempted so far, oldest first. *)
Record world : Type := mkWorld {
  self : EmailAPI;
  sent : list http_request
}.

Definition M (A : Type) : Type := world -> pyresult A * world.

Definition ret {A} (a : A) : M A := fun w => (Ok a, w).

Definition bind {A B} (m : M A) (k : A -> M B) : M B :=
  fun w => match m w with
           | (Ok a, w') => k a w'
           | (Raise e, w') => (Raise e, w')
           end.

Notation "x <- m ;; k" := (bind m (fun x => k))
  (at level 61, m at next level, right associativity).
Notation "m ;;; k" := (bind m (fun _ => k))
  (at level 61, right associativity).

(** A pure computation that may raise. *)
Definition lift {A} (r : pyresult A) : M A := fun w => (r, w).

(** [try: body except <class> as e: handler e]; the state changes the body
    made before it raised are kept. *)
Definition try_except {A} (body : M A) (catches : exn -> bool)
    (handler : exn -> M A) : M A :=
  fun w => match body w with
           | (Ok a, w') => (Ok a, w')
           | (Raise e, w') => if catches e then handler e w' else (Raise e, w')
           end.

Definition get_self : M EmailAPI := fun w => (Ok (self w), w).

(** [self.token = v]. *)
Definition set_token (v : pyval) : M unit :=
  fun w => (Ok tt, mkWorld (mkEmailAPI (base_url (self w)) v) (sent w)).

(** Module-level configuration of the source. *)
Definition API_BASE_URL : pystr := lit "https://mail.faiz.us.kg".
Definition EMAIL : pystr := [].
Definition PASSWORD : pystr := [].
Definition JWT_SECRET : pystr := [].
Definition TO_EMAIL : pystr := [].
Definition SEND_EMAIL : pystr := lit "account@nvidia.com".
Definition SUBJECT : pystr :=
  [0x9a8c; 0x8bc1; 0x60a8; 0x7684; 0x7535; 0x5b50; 0x90ae; 0x7bb1; 0x5730;
   0x5740]%N.
Definition LOCAL_FILTER : bool := true.

(** [EmailAPI.__init__]: [(base_url or API_BASE_URL).rstrip('/')]. *)
Definition __init__ (url : option pystr) : EmailAPI :=
  let chosen := match url with
                | Some (c :: u) => c :: u
                | _ => API_BASE_URL
                end in
  mkEmailAPI (Str.rstrip_slash chosen) PNone.

(** The result every failed call returns: [{"code": -1, "message": text}]. *)
Definition error_result (text : pystr) : pyval :=
  PDict [(lit "code", PInt (-1)); (lit "message", PStr text)].

(** The message of the unauthenticated guard of [get_mail_list]. *)
Definition need_token_message : pystr :=
  [0x8bf7; 0x5148; 0x8c03; 0x7528; 0x20]%N ++ lit "get_token()"
  ++ [0x20; 0x751f; 0x6210]%N ++ lit "token".

Section Client.

Variable net : network.

(** [requests.post]: the attempt is logged, then the network answers. *)
Definition requests_post (rq : http_request) : M http_response :=
  fun w =>
    let w' := mkWorld (self w) (sent w ++ [rq]) in
    match net (sent w) rq with
    | PostRaises e => (Raise e, w')
    | PostReturns r => (Ok r, w')
    end.

(** [EmailAPI.get_token]. *)
Definition get_token (email password jwt_secret : pystr) : M pyval :=
  me <- get_self ;;
  let url := base_url me ++ lit "/api/public/genToken" in
  let headers := [(lit "Authorization", PStr jwt_secret)] in
  let payload :=
    PDict [(lit "email", PStr email); (lit "password", PStr password)] in
  try_except
    (response <- requests_post (mkRequest url payload headers) ;;
     data <- lift (json_body response) ;;
     code <- lift (py_get data (lit "code") PNone) ;;
     (if eq_int code 200 then
        inner <- lift (py_get data (lit "data") (PDict [])) ;;
        tok <- lift (py_get inner (lit "token") PNone) ;;
        set_token tok
      else ret tt) ;;;
     ret data)
    (fun _ => true)
    (fun e => ret (error_result (exn_text e))).

(** The payload of the mail-list request: the five required fields, then
    each optional filter whose argument is truthy. *)
Definition optional_field (d : pydict) (key : pystr) (arg : option pystr)
    : pydict :=
  match arg with
  | Some (c :: v) => Dict.set d key (PStr (c :: v))
  | _ => d
  end.

Definition mail_list_payload (hd_email : pystr)
    (send_name send_email subject content : option pystr)
    (send_sort : pystr) (mail_type num size : Z) : pydict :=
  let payload :=
    [(lit "toEmail", PStr hd_email);
     (lit "timeSort", PStr send_sort);
     (lit "type", PInt mail_type);
     (lit "num", PInt num);
     (lit "size", PInt (Z.min size 20))] in
  let payload := optional_field payload (lit "sendName") send_name in
  let payload := optional_field payload (lit "sendEmail") send_email in
  let payload := optional_field payload (lit "subject") subject in
  let payload := optional_field payload (lit "content") content in
  payload.

(** [EmailAPI.get_mail_list]. *)
Definition get_mail_list (hd_email : pystr)
    (send_name send_email subject content : option pystr)
    (send_sort : pystr) (mail_type num size : Z) : M pyval :=
  me <- get_self ;;
  if negb (truthy (token me)) then
    ret (error_result need_token_message)
  else
    let url := base_url me ++ lit "/api/public/emailList" in
    let headers := [(lit "Authorization", token me)] in
    let payload :=
      mail_list_payload hd_email send_name send_email subject content
        send_sort mail_type num size in
    try_except
      (response <- requests_post (mkRequest url (PDict payload) headers) ;;
       lift (raise_for_status response) ;;;
       data <- lift (json_body response) ;;
       ret data)
      is_request_exception
      (fun e => ret (error_result (exn_text e))).

End Client.

(* ===================================================================== *)
(** * Handling the mail-list result ([test_mail_functions])              *)
(* ===================================================================== *)

(** Sequencing of pure computations that may raise. *)
Definition and_then {A B} (r : pyresult A) (k : A -> pyresult B)
    : pyresult B :=
  match r with
  | Ok a => k a
  | Raise e => Raise e
  end.

Notation "x <~ r ;; k" := (and_then r (fun x => k))
  (at level 61, r at next level, right associativity).

(** [isinstance(v, list)]. *)
Definition is_list (v : pyval) : bool :=
  match v with PList _ => true | _ => false end.

(** [data_content = mail_result.get("data", [])] and
    [data_content if isinstance(data_content, list)
     else data_content.get("list", [])]. *)
Definition extract_mail_list (mail_result : pyval) : pyresult pyval :=
  data_content <~ py_get mail_result (lit "data") (PList []) ;;
  if is_list data_content then Ok data_content
  else py_get data_content (lit "list") (PList []).

(** What [for mail in v] runs over. *)
Definition py_iter (v : pyval) : pyresult (list pyval) :=
  match v with
  | PList l => Ok l
  | PDict d => Ok (List.map PStr (Dict.keys d))
  | PStr t => Ok (List.map (fun c => PStr [c]) t)
  | _ => Raise (mkExn TypeError
                  (lit "'" ++ type_name v ++ lit "' object is not iterable"))
  end.

(** [[x for x in l if keep x]]: the first exception ends the evaluation. *)
Fixpoint comprehension (keep : pyval -> pyresult bool) (l : list pyval)
    : pyresult (list pyval) :=
  match l with
  | [] => Ok []
  | x :: l' =>
      b <~ keep x ;;
      rest <~ comprehension keep l' ;;
      Ok (if b then x :: rest else rest)
  end.

(** [v[0]]. *)
Definition first_item (v : pyval) : pyresult pyval :=
  match v with
  | PList (x :: _) => Ok x
  | PList [] => Raise (mkExn OtherException (lit "list index out of range"))
  | PStr (c :: _) => Ok (PStr [c])
  | PStr [] => Raise (mkExn OtherException (lit "string index out of range"))
  | PDict _ => Raise (mkExn KeyError (lit "0"))
  | _ => Raise (mkExn TypeError
                  (lit "'" ++ type_name v ++ lit "' object is not subscriptable"))
  end.

(** The outcomes of [test_mail_functions]: which message it prints, and
    the one-element list it hands to [save_emails_to_json]. *)
Inductive outcome : Type :=
| TokenFailed (message : pyval)
| QueryFailed (message : pyval)
| NotFound
| Latest (latest_mail : list pyval).

Section Workflow.

(** [str.lower]; its Unicode case tables belong to the interpreter. *)
Variable lower : pystr -> pystr.

(** [v.lower()]: only a string has the method. *)
Definition py_lower (v : pyval) : pyresult pystr :=
  match v with
  | PStr t => Ok (lower t)
  | _ => Raise (no_attribute v (lit "lower"))
  end.

(** [target.lower() in mail.get('subject', '').lower()]. *)
Definition subject_matches (target : pystr) (mail : pyval) : pyresult bool :=
  subj <~ py_get mail (lit "subject") (PStr []) ;;
  low <~ py_lower subj ;;
  Ok (Str.contains (lower target) low).

(** [if LOCAL_FILTER and SUBJECT and mail_list:
       mail_list = [mail for mail in mail_list if ...]]. *)
Definition local_filter (use_local : bool) (target : pystr)
    (mail_list : pyval) : pyresult pyval :=
  if use_local && truthy (PStr target) && truthy mail_list then
    mails <~ py_iter mail_list ;;
    kept <~ comprehension (subject_matches target) mails ;;
    Ok (PList kept)
  else Ok mail_list.

(** Step 3 of [test_mail_functions], from [mail_result] on. *)
Definition handle_mail_result (use_local : bool) (target : pystr)
    (mail_result : pyval) : pyresult outcome :=
  code <~ py_get mail_result (lit "code") PNone ;;
  if eq_int code 200 then
    mail_list <~ extract_mail_list mail_result ;;
    mail_list <~ local_filter use_local target mail_list ;;
    if truthy mail_list then
      newest <~ first_item mail_list ;;
      Ok (Latest [newest])
    else Ok NotFound
  else
    message <~ py_get mail_result (lit "message") PNone ;;
    Ok (QueryFailed message).

Variable net : network.

Definition nonempty (t : pystr) : option pystr :=
  match t with [] => None | _ => Some t end.

(** [test_mail_functions], with the module's configuration. *)
Definition test_mail_functions : M outcome :=
  token_result <- get_token net EMAIL PASSWORD JWT_SECRET ;;
  code <- lift (py_get token_result (lit "code") PNone) ;;
  if negb (eq_int code 200) then
    message <- lift (py_get token_result (lit "message") PNone) ;;
    ret (TokenFailed message)
  else
    let target_email :=
      match TO_EMAIL with [] => EMAIL | _ => TO_EMAIL end in
    mail_result <-
      (if LOCAL_FILTER && truthy (PStr SUBJECT) then
         get_mail_list net target_email None (nonempty SEND_EMAIL) None None
           (lit "desc") 0 1 20
       else
         get_mail_list net target_email None (nonempty SEND_EMAIL)
           (nonempty SUBJECT) None (lit "desc") 0 1 10) ;;
    lift (handle_mail_result LOCAL_FILTER SUBJECT mail_result).

End Workflow.

(* ===================================================================== *)
(** * The UTF-8 codec of text files                                      *)
(* ===================================================================== *)

Module Utf8.

Local Open Scope N_scope.

(** A surrogate code point, U+D800 .. U+DFFF. *)
Definition is_surrogate (c : N) : bool := (0xD800 <=? c) && (c <=? 0xDFFF).

(** The bytes of one code point; [None] is the [UnicodeEncodeError] of the
    strict error handler ("surrogates not allowed"). *)
Definition encode_char (c : N) : option (list N) :=
  if c <? 0x80 then Some [c]
  else if c <? 0x800 then Some [0xC0 + c / 64; 0x80 + c mod 64]
  else if c <? 0x10000 then
    if is_surrogate c then None
    else Some [0xE0 + c / 4096; 0x80 + (c / 64) mod 64; 0x80 + c mod 64]
  else if c <? 0x110000 then
    Some [0xF0 + c / 262144; 0x80 + (c / 4096) mod 64;
          0x80 + (c / 64) mod 64; 0x80 + c mod 64]
  else None.

(** [t.encode('utf-8')]. *)
Fixpoint encode (t : pystr) : option (list N) :=
  match t with
  | [] => Some []
  | c :: t' =>
      match encode_char c, encode t' with
      | Some b, Some bs => Some (b ++ bs)
      | _, _ => None
      end
  end.

Definition is_continuation (b : N) : bool := (0x80 <=? b) && (b <? 0xC0).

Definition push (c : N) (r : option pystr) : option pystr :=
  match r with
  | Some t => Some (c :: t)
  | None => None
  end.

(** [b.decode('utf-8')]; [None] is the [UnicodeDecodeError] of a stray or
    missing continuation byte, an overlong form, a surrogate or a value
    above U+10FFFF. *)
Fixpoint decode (b : list N) : option pystr :=
  match b with
  | [] => Some []
  | b0 :: r =>
      if b0 <? 0x80 then push b0 (decode r)
      else if b0 <? 0xC2 then None
      else if b0 <? 0xE0 then
        match r with
        | b1 :: r' =>
            if is_continuation b1
            then push ((b0 - 0xC0) * 64 + (b1 - 0x80)) (decode r')
            else None
        | _ => None
        end
      else if b0 <? 0xF0 then
        match r with
        | b1 :: b2 :: r' =>
            let c := (b0 - 0xE0) * 4096 + (b1 - 0x80) * 64 + (b2 - 0x80) in
            if is_continuation b1 && is_continuation b2
               && (0x800 <=? c) && negb (is_surrogate c)
            then push c (decode r')
            else None
        | _ => None
        end
      else if b0 <? 0xF5 then
        match r with
        | b1 :: b2 :: b3 :: r' =>
            let c := (b0 - 0xF0) * 262144 + (b1 - 0x80) * 4096
                     + (b2 - 0x80) * 64 + (b3 - 0x80) in
            if is_continuation b1 && is_continuation b2 && is_continuation b3
               && (0x10000 <=? c) && (c <? 0x110000)
            then push c (decode r')
            else None
        | _ => None
        end
      else None
  end.

(** The code points a text file takes: Unicode scalar values. *)
Definition scalar (c : N) : bool := (c <? 0x110000) && negb (is_surrogate c).

End Utf8.

(* ===================================================================== *)
(** * The JSON encoder: [json.dump(obj, f, ensure_ascii=False, indent=2)] *)
(* ===================================================================== *)

(** The encoder is [_make_iterencode] of CPython 3.11, which [json.dump]
    runs when an indent is given. *)

Module Json.

Local Open Scope N_scope.

Definition hex_digit (d : N) : N := if d <? 10 then 48 + d else 87 + d.

(** [ESCAPE_DCT] over the characters the pattern [ESCAPE] matches: the
    quote, the backslash and the controls below U+0020.  Every other
    character, non-ASCII ones included, is written as it is. *)
Definition escape_char (c : N) : pystr :=
  if c =? 34 then [92; 34]
  else if c =? 92 then [92; 92]
  else if c =? 10 then [92; 110]
  else if c =? 13 then [92; 114]
  else if c =? 9 then [92; 116]
  else if c =? 12 then [92; 102]
  else if c =? 8 then [92; 98]
  else if c <? 32 then [92; 117; 48; 48; hex_digit (c / 16); hex_digit (c mod 16)]
  else [c].

(** [py_encode_basestring]. *)
Definition encode_basestring (t : pystr) : pystr :=
  34 :: List.flat_map escape_char t ++ [34].

(** ['\n' + ' ' * (2 * level)]. *)
Definition newline_indent (level : nat) : pystr :=
  10 :: List.repeat 32 (2 * level).

(** [sys.get_int_max_str_digits()] as the interpreter starts: the longest
    integer, in decimal digits, that [int.__repr__] writes and [int(text)]
    reads. *)
Definition int_max_str_digits : nat := 4300.

Definition digits_error : exn :=
  mkExn ValueError
    (lit "Exceeds the limit (4300 digits) for integer string conversion; use sys.set_int_max_str_digits() to increase the limit").

(** [int.__repr__]. *)
Definition intstr (n : Z) : pyresult pystr :=
  if (int_max_str_digits <? Str.digits n)%nat then Raise digits_error
  else Ok (Str.int_repr n).

(** The [RecursionError] of the interpreter, with its message. *)
Definition recursion_error (message : pystr) : exn :=
  mkExn RecursionError message.

(** What a generator of text chunks does: the chunks it yields, in order,
    and the exception that ends it, when one does. *)
Record stream : Type := mkStream {
  chunks : list pystr;
  failure : option exn
}.

Definition done : stream := mkStream [] None.

Definition yield (chunk : pystr) : stream := mkStream [chunk] None.

Definition stop (e : exn) : stream := mkStream [] (Some e).

(** One generator, then the next unless the first one raised. *)
Definition and_next (a b : stream) : stream :=
  match failure a with
  | Some _ => a
  | None => mkStream (chunks a ++ chunks b) (failure b)
  end.

Notation "a +++ b" := (and_next a b) (at level 60, right associativity).

Section Encoder.

(** [float.__repr__] on a finite float: the shortest decimal text that
    reads back as the float. *)
Variable float_repr : pyfloat -> pystr.

(** The recursion limit.  The encoder runs one generator inside another
    for every list and dict it descends into, and calls [floatstr] for
    every float; the interpreter counts these calls and the ones they
    make, and raises [RecursionError] where the count passes
    [sys.getrecursionlimit()].  Where that is depends on the depth of the
    caller and on how far the interpreter has specialised the code
    of the encoder, so it is left to a parameter: [overflow level o] is
    the message of the error raised on coming to [o], a list, a dict or a
    float inside [level] lists and dicts, and [None] when the limit is not
    reached there; at level 0 it stands for the calls [json.dump] makes
    before the first chunk as well.  A string, an integer, [None], [True]
    or [False] inside a list or a dict needs no call deeper than the first
    one its generator made. *)
Variable overflow : nat -> pyval -> option pystr.

(** [floatstr], with [allow_nan] at its default. *)
Definition floatstr (o : pyfloat) : pystr :=
  match o with
  | FNan => lit "NaN"
  | FInf false => lit "Infinity"
  | FInf true => lit "-Infinity"
  | _ => float_repr o
  end.

(** The text of a value that is written in one piece, [level] lists and
    dicts deep, or the exception of writing it; a list and a dict have
    none. *)
Definition atom (level : nat) (o : pyval) : option (pyresult pystr) :=
  match o with
  | PStr t => Some (Ok (encode_basestring t))
  | PNone => Some (Ok (lit "null"))
  | PBool true => Some (Ok (lit "true"))
  | PBool false => Some (Ok (lit "false"))
  | PInt n => Some (intstr n)
  | PFloat f =>
      Some (match overflow level o with
            | Some message => Raise (recursion_error message)
            | None => Ok (floatstr f)
            end)
  | PList _ | PDict _ => None
  end.

Section Items.

Variable iterencode : pyval -> stream.
Variable level : nat.

(** The loop of [_iterencode_list].  [buf] is the bracket, newline and
    indent before the first item, and the comma, newline and indent before
    every other one; it is yielded with the item, or alone before the
    chunks of a list or a dict. *)
Fixpoint list_items (buf : pystr) (l : list pyval) : stream :=
  match l with
  | [] => done
  | value :: l' =>
      match atom level value with
      | Some (Ok text) => yield (buf ++ text)
      | Some (Raise e) => stop e
      | None => yield buf +++ iterencode value
      end
      +++ list_items (44 :: newline_indent level) l'
  end.

(** The loop of [_iterencode_dict], with the key separator [": "]. *)
Fixpoint dict_items (first : bool) (d : pydict) : stream :=
  match d with
  | [] => done
  | (key, value) :: d' =>
      (if first then done else yield (44 :: newline_indent level))
      +++ yield (encode_basestring key)
      +++ yield [58; 32]
      +++ match atom level value with
          | Some (Ok text) => yield text
          | Some (Raise e) => stop e
          | None => iterencode value
          end
      +++ dict_items false d'
  end.

End Items.

(** [_iterencode(o, level)].  A list or a dict is come to before any of
    its chunks is made. *)
Fixpoint iterencode (level : nat) (o : pyval) {struct o} : stream :=
  match o with
  | PList l =>
      match overflow level o with
      | Some message => stop (recursion_error message)
      | None =>
          match l with
          | [] => yield (lit "[]")
          | _ =>
              list_items (iterencode (S level)) (S level)
                (91 :: newline_indent (S level)) l
              +++ yield (newline_indent level)
              +++ yield [93]
          end
      end
  | PDict d =>
      match overflow level o with
      | Some message => stop (recursion_error message)
      | None =>
          match d with
          | [] => yield (lit "{}")
          | _ =>
              yield [123]
              +++ yield (newline_indent (S level))
              +++ dict_items (iterencode (S level)) (S level) true d
              +++ yield (newline_indent level)
              +++ yield [125]
          end
      end
  | _ =>
      match atom level o with
      | Some (Ok text) => yield text
      | Some (Raise e) => stop e
      | None => done
      end
  end.

End Encoder.

(* --------------------------------------------------------------------- *)
(** ** The decoder: [json.load]                                          *)
(* --------------------------------------------------------------------- *)

(** The decoder is the scanner of the C accelerator, which [json.load]
    uses.  It returns [None] where Python raises: [JSONDecodeError], the
    [ValueError] of an integer beyond the digit limit, and the
    [RecursionError] of a text nested deeper than the recursion limit
    allows. *)

Definition is_ws (c : N) : bool :=
  (c =? 32) || (c =? 9) || (c =? 10) || (c =? 13).

(** [WHITESPACE.match(s, idx).end()]. *)
Fixpoint skip_ws (t : pystr) : pystr :=
  match t with
  | c :: t' => if is_ws c then skip_ws t' else t
  | [] => []
  end.

Definition is_digit (c : N) : bool := (48 <=? c) && (c <=? 57).

Definition hex_value (c : N) : option N :=
  if (48 <=? c) && (c <=? 57) then Some (c - 48)
  else if (97 <=? c) && (c <=? 102) then Some (c - 87)
  else if (65 <=? c) && (c <=? 70) then Some (c - 55)
  else None.

(** [_decode_uXXXX]: four hexadecimal digits. *)
Definition hex4 (a b c d : N) : option N :=
  match hex_value a, hex_value b, hex_value c, hex_value d with
  | Some x, Some y, Some z, Some w => Some (((x * 16 + y) * 16 + z) * 16 + w)
  | _, _, _, _ => None
  end.

(** [BACKSLASH]: the one-letter escapes. *)
Definition backslash (e : N) : option N :=
  if e =? 34 then Some 34
  else if e =? 92 then Some 92
  else if e =? 47 then Some 47
  else if e =? 98 then Some 8
  else if e =? 102 then Some 12
  else if e =? 110 then Some 10
  else if e =? 114 then Some 13
  else if e =? 116 then Some 9
  else None.

Definition push_char (c : N) (r : option (pystr * pystr))
    : option (pystr * pystr) :=
  match r with
  | Some (t, rest) => Some (c :: t, rest)
  | None => None
  end.

(** [py_scanstring] in strict mode, from the character after the opening
    quote: the string and the text after its closing quote. *)
Fixpoint scanstring (t : pystr) : option (pystr * pystr) :=
  match t with
  | [] => None
  | c :: r =>
      if c =? 34 then Some ([], r)
      else if c =? 92 then
        match r with
        | [] => None
        | e :: r1 =>
            if e =? 117 then
              match r1 with
              | h1 :: h2 :: h3 :: h4 :: r2 =>
                  match hex4 h1 h2 h3 h4 with
                  | None => None
                  | Some uni =>
                      if (0xD800 <=? uni) && (uni <=? 0xDBFF) then
                        match r2 with
                        | b :: u :: l1 :: l2 :: l3 :: l4 :: r3 =>
                            if (b =? 92) && (u =? 117) then
                              match hex4 l1 l2 l3 l4 with
                              | None => None
                              | Some uni2 =>
                                  if (0xDC00 <=? uni2) && (uni2 <=? 0xDFFF)
                                  then
                                    push_char
                                      (0x10000 + (uni - 0xD800) * 1024
                                       + (uni2 - 0xDC00))
                                      (scanstring r3)
                                  else push_char uni (scanstring r2)
                              end
                            else push_char uni (scanstring r2)
                        | _ => push_char uni (scanstring r2)
                        end
                      else push_char uni (scanstring r2)
                  end
              | _ => None
              end
            else
              match backslash e with
              | Some ch => push_char ch (scanstring r1)
              | None => None
              end
        end
      else if c <? 32 then None
      else push_char c (scanstring r)
  end.

(** The digits of the integer part, most significant first. *)
Fixpoint scan_digits (acc : N) (t : pystr) : N * pystr :=
  match t with
  | c :: t' => if is_digit c then scan_digits (acc * 10 + (c - 48)) t'
               else (acc, t)
  | [] => (acc, [])
  end.

(** The integer part of [NUMBER_RE], [0|[1-9][0-9]*], read as a natural
    number. *)
Definition scan_natural (t : pystr) : option (N * pystr) :=
  match t with
  | c :: t' =>
      if c =? 48 then Some (0, t')
      else if is_digit c then Some (scan_digits 0 t)
      else None
  | [] => None
  end.

(** The text after the digits [t] starts with. *)
Fixpoint skip_digits (t : pystr) : pystr :=
  match t with
  | c :: t' => if is_digit c then skip_digits t' else t
  | [] => []
  end.

(** The fraction group of [NUMBER_RE], a point and digits: the text after
    it, when it matches. *)
Definition scan_fraction (t : pystr) : option pystr :=
  match t with
  | c :: d :: t' =>
      if (c =? 46) && is_digit d then Some (skip_digits t') else None
  | _ => None
  end.

(** The exponent group of [NUMBER_RE], [e] or [E], a sign or none, and
    digits: the text after it, when it matches. *)
Definition scan_exponent (t : pystr) : option pystr :=
  match t with
  | c :: d :: t' =>
      if (c =? 101) || (c =? 69) then
        if is_digit d then Some (skip_digits t')
        else if (d =? 43) || (d =? 45) then
          match t' with
          | x :: t'' => if is_digit x then Some (skip_digits t'') else None
          | [] => None
          end
        else None
      else None
  | _ => None
  end.

(** A match of [NUMBER_RE]: the sign, the integer part as a natural
    number and its number of digits, whether a fraction or an exponent
    was matched, and the text after the match. *)
Record number_match : Type := mkMatch {
  negative : bool;
  magnitude : N;
  int_digits : nat;
  is_float : bool;
  after : pystr
}.

(** The optional minus sign of [NUMBER_RE]: whether it is there, and the
    text after it. *)
Definition split_sign (t : pystr) : bool * pystr :=
  match t with
  | c :: t' => if c =? 45 then (true, t') else (false, t)
  | [] => (false, [])
  end.

Definition match_number (t : pystr) : option number_match :=
  let signed := split_sign t in
  match scan_natural (snd signed) with
  | None => None
  | Some (n, rest) =>
      let frac := scan_fraction rest in
      let rest1 := match frac with Some r => r | None => rest end in
      let exp := scan_exponent rest1 in
      let rest2 := match exp with Some r => r | None => rest1 end in
      Some (mkMatch (fst signed) n
              (List.length (snd signed) - List.length rest)
              (match frac, exp with None, None => false | _, _ => true end)
              rest2)
  end.

(** [dict(pairs)]: a repeated key keeps its first place and its last
    value. *)
Definition dict_of_pairs (pairs : pydict) : pydict :=
  List.fold_left (fun d kv => Dict.set d (fst kv) (snd kv)) pairs [].

Section Decoder.

(** [float(text)] on a text [NUMBER_RE] matched with a fraction or an
    exponent: the nearest float. *)
Variable float_of_text : pystr -> pyfloat.

(** The number at the start of the text: [float] of the matched text when
    a fraction or an exponent was matched, and [int] of the integer part
    otherwise. *)
Definition scan_number (t : pystr) : option (pyval * pystr) :=
  match match_number t with
  | None => None
  | Some m =>
      if is_float m then
        Some (PFloat (float_of_text
                        (List.firstn (List.length t - List.length (after m)) t)),
              after m)
      else if (int_max_str_digits <? int_digits m)%nat then None
      else
        Some (PInt (if negative m then - Z.of_N (magnitude m)
                    else Z.of_N (magnitude m)),
              after m)
  end.

(** The constants [NaN], [Infinity] and [-Infinity]. *)
Definition scan_constant (t : pystr) : option (pyval * pystr) :=
  if Str.prefixb (lit "NaN") t then Some (PFloat FNan, List.skipn 3 t)
  else if Str.prefixb (lit "Infinity") t then
    Some (PFloat (FInf false), List.skipn 8 t)
  else if Str.prefixb (lit "-Infinity") t then
    Some (PFloat (FInf true), List.skipn 9 t)
  else None.

(** [scan_once], [JSONArray] and [JSONObject].  [fuel] bounds the number
    of nested calls; [loads] passes one more than the length of the text.
    [room] is the number of calls the recursion limit still allows: the
    scanner enters one for every array and object it descends into,
    before it looks inside, and one to look up a constant. *)
Fixpoint scan_once (fuel room : nat) (t : pystr) {struct fuel}
    : option (pyval * pystr) :=
  match fuel with
  | O => None
  | S fuel' =>
      match t with
      | [] => None
      | c :: r =>
          if c =? 34 then
            match scanstring r with
            | Some (str, rest) => Some (PStr str, rest)
            | None => None
            end
          else if c =? 123 then
            match room with
            | O => None
            | S room' =>
                match skip_ws r with
                | q :: r1 =>
                    if q =? 125 then Some (PDict [], r1)
                    else if q =? 34 then
                      match object_pairs fuel' room' r1 with
                      | Some (pairs, rest) =>
                          Some (PDict (dict_of_pairs pairs), rest)
                      | None => None
                      end
                    else None
                | [] => None
                end
            end
          else if c =? 91 then
            match room with
            | O => None
            | S room' =>
                match skip_ws r with
                | q :: r1 =>
                    if q =? 93 then Some (PList [], r1)
                    else
                      match array_values fuel' room' (q :: r1) with
                      | Some (values, rest) => Some (PList values, rest)
                      | None => None
                      end
                | [] => None
                end
            end
          else if Str.prefixb (lit "null") t then
            Some (PNone, List.skipn 4 t)
          else if Str.prefixb (lit "true") t then
            Some (PBool true, List.skipn 4 t)
          else if Str.prefixb (lit "false") t then
            Some (PBool false, List.skipn 5 t)
          else
            match match_number t with
            | Some _ => scan_number t
            | None =>
                match room with
                | O => None
                | S _ => scan_constant t
                end
            end
      end
  end

(** The loop of [JSONArray], from the start of a value. *)
with array_values (fuel room : nat) (t : pystr) {struct fuel}
    : option (list pyval * pystr) :=
  match fuel with
  | O => None
  | S fuel' =>
      match scan_once fuel' room t with
      | None => None
      | Some (value, r) =>
          match skip_ws r with
          | c :: r1 =>
              if c =? 93 then Some ([value], r1)
              else if c =? 44 then
                match array_values fuel' room (skip_ws r1) with
                | Some (values, rest) => Some (value :: values, rest)
                | None => None
                end
              else None
          | [] => None
          end
      end
  end

(** The loop of [JSONObject], from the character after the opening quote
    of a key. *)
with object_pairs (fuel room : nat) (t : pystr) {struct fuel}
    : option (pydict * pystr) :=
  match fuel with
  | O => None
  | S fuel' =>
      match scanstring t with
      | None => None
      | Some (key, r) =>
          match skip_ws r with
          | c :: r1 =>
              if c =? 58 then
                match scan_once fuel' room (skip_ws r1) with
                | None => None
                | Some (value, r2) =>
                    match skip_ws r2 with
                    | e :: r3 =>
                        if e =? 125 then Some ([(key, value)], r3)
                        else if e =? 44 then
                          match skip_ws r3 with
                          | q :: r4 =>
                              if q =? 34 then
                                match object_pairs fuel' room r4 with
                                | Some (pairs, rest) =>
                                    Some ((key, value) :: pairs, rest)
                                | None => None
                                end
                              else None
                          | [] => None
                          end
                        else None
                    | [] => None
                    end
                end
              else None
          | [] => None
          end
      end
  end.

(** [json.loads] where the recursion limit leaves the scanner [room]
    calls: no byte order mark, then one value, white space around it,
    nothing else. *)
Definition loads (room : nat) (t : pystr) : option pyval :=
  if Str.prefixb [0xFEFF] t then None
  else
    match scan_once (S (List.length t)) room (skip_ws t) with
    | Some (v, rest) =>
        match skip_ws rest with
        | [] => Some v
        | _ => None
        end
    | None => None
    end.

End Decoder.

End Json.

(* ===================================================================== *)
(** * Text files and the file system                                     *)
(* ===================================================================== *)

Module TextFile.

Local Open Scope N_scope.

(** The number of characters before the first one the codec refuses. *)
Fixpoint error_start (t : pystr) : nat :=
  match t with
  | c :: t' =>
      match Utf8.encode_char c with
      | Some _ => S (error_start t')
      | None => O
      end
  | [] => O
  end.

(** The number of surrogates [t] starts with. *)
Fixpoint surrogate_run (t : pystr) : nat :=
  match t with
  | c :: t' => if Utf8.is_surrogate c then S (surrogate_run t') else O
  | [] => O
  end.

(** A surrogate as the message of the error shows it, a backslash, [u]
    and four hexadecimal digits. *)
Definition escaped (c : N) : pystr :=
  [92; 117; Json.hex_digit ((c / 4096) mod 16); Json.hex_digit ((c / 256) mod 16);
   Json.hex_digit ((c / 16) mod 16); Json.hex_digit (c mod 16)].

(** The [UnicodeEncodeError] of [chunk.encode('utf-8')]: it names the first
    surrogate, or the run of surrogates there. *)
Definition encode_error (chunk : pystr) : exn :=
  let start := error_start chunk in
  let bad := List.skipn start chunk in
  mkExn UnicodeEncodeError
    (match bad with
     | c :: rest =>
         match surrogate_run rest with
         | O =>
             lit "'utf-8' codec can't encode character '" ++ escaped c
             ++ lit "' in position " ++ Str.int_repr (Z.of_nat start)
             ++ lit ": surrogates not allowed"
         | S n =>
             lit "'utf-8' codec can't encode characters in position "
             ++ Str.int_repr (Z.of_nat start) ++ lit "-"
             ++ Str.int_repr (Z.of_nat (start + S n))
             ++ lit ": surrogates not allowed"
         end
     | [] => []
     end).

(** [for chunk in chunks: fp.write(chunk)] on a text file opened with
    [encoding='utf-8']: the bytes that reach the file, and the exception
    of the first chunk the codec refuses, none of which is written. *)
Fixpoint write_chunks (chunks : list pystr) : list N * option exn :=
  match chunks with
  | [] => ([], None)
  | chunk :: chunks' =>
      match Utf8.encode chunk with
      | Some bytes =>
          let written := write_chunks chunks' in
          (bytes ++ fst written, snd written)
      | None => ([], Some (encode_error chunk))
      end
  end.

(** [json.dump(o, fp, ensure_ascii=False, indent=2)]: each chunk is written
    before the next one is made, so the first chunk that cannot be made or
    written ends the call, and the file keeps what was written before. *)
Definition json_dump (float_repr : pyfloat -> pystr)
    (overflow : nat -> pyval -> option pystr) (o : pyval)
    : list N * option exn :=
  let made := Json.iterencode float_repr overflow 0 o in
  let written := write_chunks (Json.chunks made) in
  (fst written,
   match snd written with
   | Some e => Some e
   | None => Json.failure made
   end).

End TextFile.

(** A file, whatever its names are. *)
Definition file_id := nat.

(** The bytes of the files that exist. *)
Definition filesystem := list (file_id * list N).

Fixpoint fs_read (fs : filesystem) (file : file_id) : option (list N) :=
  match fs with
  | [] => None
  | (f, bytes) :: fs' => if Nat.eqb f file then Some bytes else fs_read fs' file
  end.

(** The file is created, or replaced, with these bytes. *)
Fixpoint fs_write (fs : filesystem) (file : file_id) (bytes : list N)
    : filesystem :=
  match fs with
  | [] => [(file, bytes)]
  | (f, old) :: fs' =>
      if Nat.eqb f file then (f, bytes) :: fs'
      else (f, old) :: fs_write fs' file bytes
  end.

(* ===================================================================== *)
(** * The persistence helper                                             *)
(* ===================================================================== *)

Section Persistence.

Variable float_repr : pyfloat -> pystr.

(** Where the recursion limit stops [json.dump], as in [Json.iterencode]. *)
Variable overflow : nat -> pyval -> option pystr.

(** The file a name denotes, or the exception of [open] for a name it
    cannot open: a missing directory, a permission.  Two names can denote
    one file. *)
Variable locate : pystr -> pyresult file_id.

(** [open(name, ...)]: a name with a null character and the empty name
    are refused whatever the file system. *)
Definition py_open (name : pystr) : pyresult file_id :=
  if existsb (N.eqb 0) name then
    Raise (mkExn ValueError (lit "embedded null byte"))
  else
    match name with
    | [] =>
        Raise (mkExn FileNotFoundError
                 (lit "[Errno 2] No such file or directory: ''"))
    | _ => locate name
    end.

(** [save_emails_to_json]: the returned name or the exception, and the
    file system afterwards.  [timestamp] is what
    [datetime.datetime.now().strftime("%Y%m%d_%H%M%S")] gives at the call.
    [open] creates or empties the file; when [json.dump] raises, the file
    is closed with what was written before.  Line ends are written as they
    are, as on a POSIX platform, and writing to the opened file does not
    fail. *)
Definition save_emails_to_json (mail_list : list pyval)
    (filename : option pystr) (timestamp : pystr) (fs : filesystem)
    : pyresult pystr * filesystem :=
  let filename :=
    match filename with
    | None => lit "emails_" ++ timestamp ++ lit ".json"
    | Some name => name
    end in
  match py_open filename with
  | Raise e => (Raise e, fs)
  | Ok f =>
      let dumped := TextFile.json_dump float_repr overflow (PList mail_list) in
      (match snd dumped with
       | Some e => Raise e
       | None => Ok filename
       end,
       fs_write fs f (fst dumped))
  end.

End Persistence.

(** [json.load(open(name, encoding='utf-8'))]: the reader the round trip
    is stated against, where the recursion limit leaves the scanner
    [room] calls.  A name denotes the same file for reading as for
    writing. *)
Definition load_json (float_of_text : pystr -> pyfloat)
    (locate : pystr -> pyresult file_id) (room : nat) (fs : filesystem)
    (name : pystr) : option pyval :=
  match py_open locate name with
  | Ok f =>
      match fs_read fs f with
      | Some bytes =>
          match Utf8.decode bytes with
          | Some text => Json.loads float_of_text room text
          | None => None
          end
      | None => None
      end
  | Raise _ => None
  end.

(* ===================================================================== *)
(** * Vocabulary of the specification                                    *)
(* ===================================================================== *)

(** An optional argument counts as supplied when it is a non-empty
    string. *)
Definition supplied (arg : option pystr) : Prop :=
  exists c v, arg = Some (c :: v).

(** The request [get_mail_list] builds for a client holding a token. *)
Definition mail_list_request (me : EmailAPI) (hd_email : pystr)
    (send_name send_email subject content : option pystr)
    (send_sort : pystr) (mail_type num size : Z) : http_request :=
  mkRequest (base_url me ++ lit "/api/public/emailList")
    (PDict (mail_list_payload hd_email send_name send_email subject content
              send_sort mail_type num size))
    [(lit "Authorization", token me)].

(** The request [get_token] builds. *)
Definition token_request (me : EmailAPI) (email password jwt_secret : pystr)
    : http_request :=
  mkRequest (base_url me ++ lit "/api/public/genToken")
    (PDict [(lit "email", PStr email); (lit "password", PStr password)])
    [(lit "Authorization", PStr jwt_secret)].

(** A key is omitted from, or present in, a payload with these values. *)
Definition field_follows (p : pydict) (key : pystr) (arg : option pystr)
    : Prop :=
  (In key (Dict.keys p) <-> supplied arg) /\
  (forall v, arg = Some v -> v <> [] -> Dict.get p key = Some (PStr v)).

(** Sample networks: a service that issues the token "T", one that
    rejects the credentials, and a transport that fails. *)
Definition issuing_body : pydict :=
  [(lit "code", PInt 200); (lit "data", PDict [(lit "token", PStr (lit "T"))])].

Definition rejecting_body : pydict :=
  [(lit "code", PInt 401); (lit "message", PStr (lit "bad credentials"))].

Definition net_issuing : network :=
  fun _ rq => PostReturns (mkResponse 500 (lit "Oops") (req_url rq)
                             (Ok (PDict issuing_body))).

Definition net_rejecting : network :=
  fun _ rq => PostReturns (mkResponse 200 (lit "OK") (req_url rq)
                             (Ok (PDict rejecting_body))).

Definition net_down : network :=
  fun _ _ => PostRaises (mkExn RequestException (lit "connection refused")).

(** A client that has not called [get_token], and one that has. *)
Definition fresh_world : world := mkWorld (__init__ None) [].

Definition ready_world : world :=
  mkWorld (mkEmailAPI API_BASE_URL (PStr (lit "T"))) [].

(** What [mail.get('subject', '')] is for a message whose subject, when it
    has one, is a string. *)
Definition subject_of (mail : pyval) : pystr :=
  match mail with
  | PDict d =>
      match Dict.get d (lit "subject") with
      | Some (PStr t) => t
      | _ => []
      end
  | _ => []
  end.

(** A message as the data model has it: a dict whose subject, when
    present, is a string. *)
Definition well_formed_message (mail : pyval) : bool :=
  match mail with
  | PDict d =>
      match Dict.get d (lit "subject") with
      | None | Some (PStr _) => true
      | Some _ => false
      end
  | _ => false
  end.

(** [t] occurs in [u]. *)
Definition substring (t u : pystr) : Prop :=
  exists pre post, u = pre ++ t ++ post.

(** [kept_by P l k]: [k] is [l] without the elements that fail [P], in the
    order and with the multiplicity of [l]. *)
Inductive kept_by (P : pyval -> Prop) : list pyval -> list pyval -> Prop :=
| kept_nil : kept_by P [] []
| kept_yes m l k : P m -> kept_by P l k -> kept_by P (m :: l) (m :: k)
| kept_no m l k : ~ P m -> kept_by P l k -> kept_by P (m :: l) k.

(** [str.lower] on ASCII text: the letters A to Z become a to z, every
    other character stays. *)
Definition ascii_lower (t : pystr) : pystr :=
  List.map (fun c => if (65 <=? c)%N && (c <=? 90)%N then (c + 32)%N else c) t.

Definition is_ascii (c : N) : bool := (c <? 128)%N.

(** The same character, or the capital and the small form of one ASCII
    letter. *)
Definition same_letter (a b : N) : Prop :=
  a = b \/
  ((65 <= a <= 90)%N /\ b = (a + 32)%N) \/
  ((65 <= b <= 90)%N /\ a = (b + 32)%N).

(** [t] occurs in [u] as a contiguous run when the case of ASCII letters
    is ignored. *)
Definition occurs_ignoring_case (t u : pystr) : Prop :=
  exists pre mid post, u = pre ++ mid ++ post /\ Forall2 same_letter mid t.

Definition with_subject (t : pystr) : pyval :=
  PDict [(lit "subject", PStr t)].

(** A message whose subject is null, and the body of a response,
    [[{"subject": "Verify"}, {"subject": null}]], that decodes to a
    message that matches followed by it. *)
Definition null_subject_message : pyval := PDict [(lit "subject", PNone)].

Definition null_subject_body : pystr :=
  lit "[{" ++ [34%N] ++ lit "subject" ++ [34%N] ++ lit ": " ++ [34%N]
  ++ lit "Verify" ++ [34%N] ++ lit "}, {" ++ [34%N] ++ lit "subject" ++ [34%N]
  ++ lit ": null}]".

(** The messages of the specification's local-filter example. *)
Definition sample_messages : list pyval :=
  [with_subject (lit "Verify Your Email");
   with_subject (lit "VERIFY your email now");
   with_subject (lit "Unrelated")].

(* ===================================================================== *)
(** * Vocabulary of the round trip                                       *)
(* ===================================================================== *)

(** The text [json.dump] writes when nothing stops it: the chunks of
    [Json.iterencode], joined. *)
Module JsonText.

Section Text.

Variable float_repr : pyfloat -> pystr.

Section Items.

Variable encode_value : pyval -> pystr.
Variable level : nat.

Fixpoint list_items (first : bool) (l : list pyval) : pystr :=
  match l with
  | [] => []
  | x :: l' =>
      (if first then Json.newline_indent level
       else 44%N :: Json.newline_indent level)
      ++ encode_value x ++ list_items false l'
  end.

Fixpoint dict_items (first : bool) (d : pydict) : pystr :=
  match d with
  | [] => []
  | (k, v) :: d' =>
      (if first then Json.newline_indent level
       else 44%N :: Json.newline_indent level)
      ++ Json.encode_basestring k ++ [58%N; 32%N] ++ encode_value v
      ++ dict_items false d'
  end.

End Items.

Fixpoint of_value (level : nat) (o : pyval) {struct o} : pystr :=
  match o with
  | PNone => lit "null"
  | PBool true => lit "true"
  | PBool false => lit "false"
  | PInt n => Str.int_repr n
  | PFloat f => Json.floatstr float_repr f
  | PStr t => Json.encode_basestring t
  | PList [] => lit "[]"
  | PList l =>
      [91%N] ++ list_items (of_value (S level)) (S level) true l
      ++ Json.newline_indent level ++ [93%N]
  | PDict [] => lit "{}"
  | PDict d =>
      [123%N] ++ dict_items (of_value (S level)) (S level) true d
      ++ Json.newline_indent level ++ [125%N]
  end.

Definition dumps (o : pyval) : pystr := of_value 0 o.

End Text.

End JsonText.

(** A generator that ended without an exception, and the text of its
    chunks. *)
Definition yields (s : Json.stream) (text : pystr) : Prop :=
  Json.failure s = None /\ List.concat (Json.chunks s) = text.

(** A generator that a limit of the interpreter ended: the digit limit of
    an integer, or the recursion limit. *)
Definition refused (s : Json.stream) : Prop :=
  exists e,
    Json.failure s = Some e /\
    (e = Json.digits_error \/ exn_kind e = RecursionError).

(** No key occurs twice: every Python dict is like this. *)
Fixpoint distinct (ks : list pystr) : bool :=
  match ks with
  | [] => true
  | k :: ks' => negb (existsb (Str.eqb k) ks') && distinct ks'
  end.

(** A value whose dicts, at every depth, have distinct keys. *)
Fixpoint well_formed (v : pyval) : bool :=
  match v with
  | PList l => forallb well_formed l
  | PDict d =>
      distinct (Dict.keys d)
      && forallb (fun kv => let '(_, x) := kv in well_formed x) d
  | _ => true
  end.

(** A value whose strings and keys, at every depth, are sequences of
    Unicode scalar values: no surrogate code point. *)
Fixpoint valid_text (v : pyval) : bool :=
  match v with
  | PStr t => forallb Utf8.scalar t
  | PList l => forallb valid_text l
  | PDict d =>
      forallb (fun kv => let '(k, x) := kv in
                         forallb Utf8.scalar k && valid_text x) d
  | _ => true
  end.

(** A value whose integers, at every depth, have no more digits than the
    limit of the conversion between integers and text. *)
Fixpoint ints_within_limit (v : pyval) : bool :=
  match v with
  | PInt n => (Str.digits n <=? Json.int_max_str_digits)%nat
  | PList l => forallb ints_within_limit l
  | PDict d => forallb (fun kv => let '(_, x) := kv in ints_within_limit x) d
  | _ => true
  end.

Definition none {A : Type} (o : option A) : bool :=
  match o with
  | None => true
  | Some _ => false
  end.

Section Depth.

Variable overflow : nat -> pyval -> option pystr.

(** The recursion limit is reached nowhere in a value that is inside
    [level] lists and dicts: not on coming to it, and not inside it. *)
Fixpoint no_overflow (level : nat) (v : pyval) : bool :=
  match v with
  | PFloat _ => none (overflow level v)
  | PList l => none (overflow level v) && forallb (no_overflow (S level)) l
  | PDict d =>
      none (overflow level v)
      && forallb (fun kv => let '(_, x) := kv in no_overflow (S level) x) d
  | _ => true
  end.

(** Neither limit is in the way. *)
Definition writable (level : nat) (v : pyval) : bool :=
  ints_within_limit v && no_overflow level v.

(** What a generator did for a value: all of its text, or the refusal of
    a limit. *)
Definition encoded (level : nat) (v : pyval) (s : Json.stream)
    (text : pystr) : Prop :=
  if writable level v then yields s text else refused s.

End Depth.

(** A value the scanner can read where the recursion limit leaves it
    [room] calls: every list and dict takes one while it is read, and so
    does a float that is not finite, which is written as a constant. *)
Fixpoint nests_within (room : nat) (v : pyval) : bool :=
  match v with
  | PFloat f => Float.is_finite f || negb (Nat.eqb room 0)
  | PList l =>
      match room with
      | O => false
      | S room' => forallb (nests_within room') l
      end
  | PDict d =>
      match room with
      | O => false
      | S room' =>
          forallb (fun kv => let '(_, x) := kv in nests_within room' x) d
      end
  | _ => true
  end.


(** A text that [NUMBER_RE] matches to its end, with a fraction or an
    exponent: the literal of a float. *)
Definition float_literal (t : pystr) : bool :=
  match Json.match_number t with
  | Some m =>
      Json.is_float m && match Json.after m with [] => true | _ => false end
  | None => false
  end.

Section FloatText.

Variable float_repr : pyfloat -> pystr.
Variable float_of_text : pystr -> pyfloat.

(** What [float.__repr__] promises for a finite float: a literal with a
    point or an exponent, which [float] reads back as the same float. *)
Definition float_reads_back (f : pyfloat) : bool :=
  negb (Float.is_finite f)
  || (float_literal (float_repr f)
      && Float.same (float_of_text (float_repr f)) f).

(** A value whose finite floats, at every depth, are like that. *)
Fixpoint floats_read_back (v : pyval) : bool :=
  match v with
  | PFloat f => float_reads_back f
  | PList l => forallb floats_read_back l
  | PDict d => forallb (fun kv => let '(_, x) := kv in floats_read_back x) d
  | _ => true
  end.

(** The three together: distinct keys, integers within the limit, floats
    that read back. *)
Fixpoint readable (v : pyval) : bool :=
  match v with
  | PInt n => (Str.digits n <=? Json.int_max_str_digits)%nat
  | PFloat f => float_reads_back f
  | PList l => forallb readable l
  | PDict d =>
      distinct (Dict.keys d)
      && forallb (fun kv => let '(_, x) := kv in readable x) d
  | _ => true
  end.

End FloatText.

(** [a == b] on two numbers, each an integer or a float. *)
Definition number_eq (a b : Z + pyfloat) : bool :=
  match a, b with
  | inl x, inl y => x =? y
  | inl x, inr f | inr f, inl x => Float.eq_int f x
  | inr f, inr g => Float.equal f g
  end.

Definition as_number (v : pyval) : option (Z + pyfloat) :=
  match v with
  | PBool b => Some (inl (if b then 1 else 0))
  | PInt n => Some (inl n)
  | PFloat f => Some (inr f)
  | _ => None
  end.

(** [a == b] on two values that are not one object: numbers by value,
    strings and lists item by item, dicts key by key whatever the order
    of the keys. *)
Fixpoint py_eq (a b : pyval) {struct a} : bool :=
  match a with
  | PNone => match b with PNone => true | _ => false end
  | PStr s => match b with PStr t => Str.eqb s t | _ => false end
  | PList l =>
      match b with
      | PList l' =>
          (fix items (l l' : list pyval) {struct l} : bool :=
             match l, l' with
             | [], [] => true
             | x :: l, y :: l' => py_eq x y && items l l'
             | _, _ => false
             end) l l'
      | _ => false
      end
  | PDict d =>
      match b with
      | PDict d' =>
          Nat.eqb (List.length d) (List.length d')
          && (fix items (d : pydict) {struct d} : bool :=
                match d with
                | [] => true
                | (k, x) :: d =>
                    match Dict.get d' k with
                    | Some y => py_eq x y
                    | None => false
                    end && items d
                end) d
      | _ => false
      end
  | _ =>
      match as_number a, as_number b with
      | Some x, Some y => number_eq x y
      | _, _ => false
      end
  end.

(** The number of values in a value, which bounds the nested calls the
    decoder needs for its text. *)
Fixpoint size (v : pyval) : nat :=
  match v with
  | PList l => S (fold_right (fun x n => S (size x + n)) O l)
  | PDict d => S (fold_right (fun kv n => let '(_, x) := kv in S (size x + n)) O d)
  | _ => 1%nat
  end.

(** The value of a digit string read after [acc]. *)
Fixpoint uint_value (d : Decimal.uint) (acc : N) : N :=
  match d with
  | Decimal.Nil => acc
  | Decimal.D0 d' => uint_value d' (acc * 10)
  | Decimal.D1 d' => uint_value d' (acc * 10 + 1)
  | Decimal.D2 d' => uint_value d' (acc * 10 + 2)
  | Decimal.D3 d' => uint_value d' (acc * 10 + 3)
  | Decimal.D4 d' => uint_value d' (acc * 10 + 4)
  | Decimal.D5 d' => uint_value d' (acc * 10 + 5)
  | Decimal.D6 d' => uint_value d' (acc * 10 + 6)
  | Decimal.D7 d' => uint_value d' (acc * 10 + 7)
  | Decimal.D8 d' => uint_value d' (acc * 10 + 8)
  | Decimal.D9 d' => uint_value d' (acc * 10 + 9)
  end.

(** What may follow a number for it to be read back as that number: no
    digit, and nothing that continues a fraction or an exponent. *)
Definition number_end (r : pystr) : bool :=
  match r with
  | [] => true
  | c :: _ => (negb (Json.is_digit c) && negb (c =? 46) && negb (c =? 101)
               && negb (c =? 69) && negb (c =? 43) && negb (c =? 45))%N
  end.



(** A text that starts with an ASCII character that is neither white
    space nor a closing bracket. *)
Definition opens (t : pystr) : Prop :=
  exists c body,
    t = c :: body /\ (c < 128)%N /\ Json.is_ws c = false /\ c <> 93%N.

(** A value is read back from its text, at any indentation level, before
    any text a number may end at, with fuel for its size and room for its
    nesting. *)
Definition reads_back (float_repr : pyfloat -> pystr)
    (float_of_text : pystr -> pyfloat) (v : pyval) : Prop :=
  forall level fuel room rest,
    readable float_repr float_of_text v = true ->
    nests_within room v = true ->
    number_end rest = true -> (size v <= fuel)%nat ->
    Json.scan_once float_of_text fuel room
      (JsonText.of_value float_repr level v ++ rest) = Some (v, rest).

(** The name [save_emails_to_json] writes to. *)
Definition chosen_name (filename : option pystr) (timestamp : pystr) : pystr :=
  match filename with
  | None => lit "emails_" ++ timestamp ++ lit ".json"
  | Some name => name
  end.

(** [float.__repr__] and [float] on the floats 1.5, 0.0 and -0.0, for the
    examples. *)
Definition sample_repr (f : pyfloat) : pystr :=
  match f with
  | FFinite false 3%positive (-1) => lit "1.5"
  | FZero true => lit "-0.0"
  | _ => lit "0.0"
  end.

Definition sample_float (t : pystr) : pyfloat :=
  if Str.eqb t (lit "1.5") then FFinite false 3%positive (-1)
  else if Str.eqb t (lit "-0.0") then FZero true
  else FZero false.

(** Room for sixty-four nested lists and dicts, for the examples. *)
Definition sample_room : nat := 64.

(** A recursion limit that [json.dump] reaches on coming to anything
    inside [depth] lists and dicts, with the messages CPython 3.11 gives
    where a float is compared and where a function is called. *)
Definition limit_at (depth level : nat) (o : pyval) : option pystr :=
  if (level <? depth)%nat then None
  else
    Some (lit "maximum recursion depth exceeded"
          ++ match o with
             | PFloat _ => lit " in comparison"
             | _ => lit " while calling a Python object"
             end).

(** A directory where [./name] and [name] are one file. *)
Definition sample_locate (name : pystr) : pyresult file_id :=
  let name := if Str.prefixb (lit "./") name then List.skipn 2 name else name in
  Ok (N.to_nat (List.fold_right N.add 0%N name)).

(** The file a name denotes in that directory. *)
Definition sample_file (name : pystr) : file_id :=
  match sample_locate name with
  | Ok f => f
  | Raise _ => O
  end.

(** The time of the examples, as [strftime] formats it. *)
Definition sample_time : pystr := lit "20260101_093000".

(** A message whose subject is a lone high surrogate, and the body of a
    response, [[{"subject": "\ud800"}]], that decodes to it. *)
Definition surrogate_message : pyval :=
  PDict [(lit "subject", PStr [0xD800%N])].





(** A message with a list of lists of labels. *)
Definition nested_message : pyval :=
  PDict [(lit "subject", PStr (lit "hi"));
         (lit "labels", PList [PList [PStr (lit "a")]])].


(* ===================================================================== *)
(** * The rest of the script: saving the outcome, and [main]'s report    *)
(* ===================================================================== *)

(** The end of [test_mail_functions]: the one-element list of the latest
    message goes to [save_emails_to_json], under the default file name,
    when [save_to_file] is set; nothing is written otherwise. *)
Definition save_outcome (float_repr : pyfloat -> pystr)
    (overflow : nat -> pyval -> option pystr)
    (locate : pystr -> pyresult file_id) (save_to_file : bool) (o : outcome)
    (timestamp : pystr) (fs : filesystem)
    : pyresult (option pystr) * filesystem :=
  match o with
  | Latest latest_mail =>
      if save_to_file then
        match save_emails_to_json float_repr overflow locate latest_mail None
                timestamp fs with
        | (Ok filename, fs') => (Ok (Some filename), fs')
        | (Raise e, fs') => (Raise e, fs')
        end
      else (Ok None, fs)
  | _ => (Ok None, fs)
  end.

(** [secret[:shown] + '*' * (len(secret) - shown)], the way [main] prints
    the password and the JWT secret; a count below one gives no star. *)
Definition masked (shown : nat) (secret : pystr) : pystr :=
  List.firstn shown secret ++ List.repeat 42%N (List.length secret - shown).

Definition password_label : pystr := [0x20; 0x20; 0x5bc6; 0x7801; 0x3a; 0x20]%N.

Definition secret_label : pystr :=
  [0x20; 0x20; 0x4a; 0x57; 0x54; 0x79d8; 0x94a5; 0x3a; 0x20]%N.

(** What [main] prints before it runs the query, one string for each
    [print], for a configuration. *)
Definition main_report (api_url email password jwt_secret to_email
    send_email subject : pystr) : list pystr :=
  [10%N :: List.repeat 61%N 60;
   [0x57df; 0x540d; 0x90ae; 0x7bb1; 0x41; 0x50; 0x49; 0x20; 0x2d; 0x20;
    0x90ae; 0x4ef6; 0x67e5; 0x8be2]%N;
   List.repeat 61%N 60;
   [0xa; 0x41; 0x50; 0x49; 0x914d; 0x7f6e; 0x3a]%N;
   [0x20; 0x20; 0x41; 0x50; 0x49; 0x5730; 0x5740; 0x3a; 0x20]%N ++ api_url;
   [0x20; 0x20; 0x90ae; 0x7bb1; 0x5730; 0x5740; 0x3a; 0x20]%N ++ email;
   password_label ++ masked 4 password;
   secret_label ++ masked 8 jwt_secret;
   [0xa; 0x67e5; 0x8be2; 0x6761; 0x4ef6; 0x3a]%N;
   [0x20; 0x20; 0x6536; 0x4ef6; 0x4eba; 0x3a; 0x20]%N
   ++ match to_email with
      | [] => email ++ [0x20; 0x28; 0x9ed8; 0x8ba4; 0x29]%N
      | _ => to_email
      end]
  ++ match send_email with
     | [] => []
     | _ => [[0x20; 0x20; 0x53d1; 0x4ef6; 0x4eba; 0x3a; 0x20]%N ++ send_email]
     end
  ++ match subject with
     | [] => []
     | _ => [[0x20; 0x20; 0x4e3b; 0x9898; 0x3a; 0x20]%N ++ subject]
     end
  ++ [[]].

(** A message matches a target when its lowered subject contains the
    lowered target. *)
Definition matches (lower : pystr -> pystr) (target : pystr) (m : pyval)
    : Prop :=
  substring (lower target) (lower (subject_of m)).

(** The text of the [HTTPError] of [raise_for_status] starts with the
    status. *)
Definition http_error_text (kind : pystr) (r : http_response) : pystr :=
  Str.int_repr (status_code r) ++ kind ++ reason r ++ lit " for url: "
  ++ resp_url r.

(** Sample data of the further properties. *)
Definition net_query (reply : http_response) : network :=
  fun _ rq =>
    if Str.eqb (req_url rq) (API_BASE_URL ++ lit "/api/public/genToken")
    then PostReturns (mkResponse 200 (lit "OK") (req_url rq)
                        (Ok (PDict issuing_body)))
    else PostReturns reply.

Definition sample_reply : http_response :=
  mkResponse 200 (lit "OK") (API_BASE_URL ++ lit "/api/public/emailList")
    (Ok (PDict [(lit "code", PInt 200);
                (lit "data", PList [with_subject (lit "hello");
                                    with_subject SUBJECT])])).


(** Whether an optional argument is a non-empty string. *)
Definition given (arg : option pystr) : bool :=
  match arg with
  | Some (_ :: _) => true
  | _ => false
  end.

(** The URL [__init__] is given, or the default one. *)
Definition chosen_url (url : option pystr) : pystr :=
  match url with
  | Some (c :: u) => c :: u
  | _ => API_BASE_URL
  end.


(** A network that answers every request with the same response, and a
    response with a status and a body. *)
Definition net_reply (reply : http_response) : network :=
  fun _ _ => PostReturns reply.

Definition reply_with (status : Z) (body : pyresult pyval) : http_response :=
  mkResponse status (lit "status") [] body.

(** A successful mail-list result with the sample messages. *)
Definition sample_result : pydict :=
  [(lit "code", PInt 200); (lit "data", PList sample_messages)].

(* ********************************************************************* *)
(** * Properties                                                         *)
(* ********************************************************************* *)

(* ===================================================================== *)
(** * Strings and dicts                                                  *)
(* ===================================================================== *)

Lemma str_eqb_eq (a b : pystr) : Str.eqb a b = true <-> a = b.
Proof.
  revert b; induction a as [|x a IH]; intros [|y b]; simpl;
    try (split; [discriminate | discriminate]); try tauto.
  rewrite andb_true_iff, N.eqb_eq, IH.
  split; [intros [-> ->]; reflexivity | intros E; inversion E; auto].
Qed.

Lemma str_eqb_refl (a : pystr) : Str.eqb a a = true.
Proof. apply str_eqb_eq; reflexivity. Qed.

Lemma str_eqb_neq (a b : pystr) : Str.eqb a b = false <-> a <> b.
Proof.
  rewrite <- str_eqb_eq. destruct (Str.eqb a b); split; congruence.
Qed.

Lemma dict_get_None (d : pydict) (k : pystr) :
  Dict.get d k = None <-> ~ In k (Dict.keys d).
Proof.
  induction d as [|[k' v] d IH]; simpl.
  - tauto.
  - destruct (Str.eqb k' k) eqn:E.
    + apply str_eqb_eq in E. split; [discriminate | intros H; tauto].
    + apply str_eqb_neq in E. rewrite IH. tauto.
Qed.

Lemma dict_get_In (d : pydict) (k : pystr) :
  In k (Dict.keys d) <-> Dict.get d k <> None.
Proof.
  destruct (Dict.get d k) eqn:E.
  - split; [discriminate | intros _].
    destruct (in_dec (list_eq_dec N.eq_dec) k (Dict.keys d)) as [I|I]; auto.
    apply dict_get_None in I. congruence.
  - apply dict_get_None in E. tauto.
Qed.

Lemma dict_get_set_same (d : pydict) (k : pystr) (v : pyval) :
  Dict.get (Dict.set d k v) k = Some v.
Proof.
  induction d as [|[k' v'] d IH]; simpl.
  - rewrite str_eqb_refl; reflexivity.
  - destruct (Str.eqb k' k) eqn:E; simpl; rewrite E; auto.
Qed.

Lemma dict_get_set_other (d : pydict) (k k' : pystr) (v : pyval) :
  Str.eqb k k' = false -> Dict.get (Dict.set d k v) k' = Dict.get d k'.
Proof.
  intros N. induction d as [|[k0 v0] d IH]; simpl.
  - rewrite N; reflexivity.
  - destruct (Str.eqb k0 k) eqn:E; simpl.
    + apply str_eqb_eq in E; subst k0. rewrite N; reflexivity.
    + destruct (Str.eqb k0 k'); auto.
Qed.

Lemma optional_field_other (d : pydict) (k k' : pystr) (a : option pystr) :
  Str.eqb k k' = false ->
  Dict.get (optional_field d k a) k' = Dict.get d k'.
Proof.
  intros N. destruct a as [[|c v]|]; simpl; auto using dict_get_set_other.
Qed.

Lemma optional_field_same (d : pydict) (k : pystr) (a : option pystr) :
  Dict.get d k = None ->
  (Dict.get (optional_field d k a) k <> None <-> supplied a) /\
  (forall v, a = Some v -> v <> [] ->
     Dict.get (optional_field d k a) k = Some (PStr v)).
Proof.
  intros G. destruct a as [[|c v]|]; simpl.
  - rewrite G. split.
    + split; [congruence | intros (c & v & E); discriminate].
    + intros v E; inversion E; congruence.
  - rewrite dict_get_set_same. split.
    + split; [intros _; exists c, v; reflexivity | discriminate].
    + intros v' E; inversion E; reflexivity.
  - rewrite G. split.
    + split; [congruence | intros (c & v & E); discriminate].
    + discriminate.
Qed.

(* ===================================================================== *)
(** * The mail-list query                                                *)
(* ===================================================================== *)

Section ClientFacts.

Variable net : network.

Lemma get_mail_list_guard w hd sn se su co sort ty num size :
  truthy (token (self w)) = false ->
  get_mail_list net hd sn se su co sort ty num size w
  = (Ok (error_result need_token_message), w).
Proof.
  intros T. unfold get_mail_list, bind, get_self. rewrite T. reflexivity.
Qed.

Lemma get_mail_list_world w hd sn se su co sort ty num size :
  truthy (token (self w)) = true ->
  snd (get_mail_list net hd sn se su co sort ty num size w)
  = mkWorld (self w)
      (sent w ++ [mail_list_request (self w) hd sn se su co sort ty num size]).
Proof.
  intros T.
  unfold get_mail_list, bind, get_self, try_except, requests_post, lift, ret.
  rewrite T; simpl. unfold mail_list_request.
  destruct (net _ _) as [e|r]; simpl.
  - destruct (is_request_exception e); reflexivity.
  - destruct (raise_for_status r) as [[]|e]; simpl.
    + destruct (json_body r) as [v|e]; simpl;
        [|destruct (is_request_exception e)]; reflexivity.
    + destruct (is_request_exception e); reflexivity.
Qed.

Lemma get_mail_list_self w hd sn se su co sort ty num size :
  self (snd (get_mail_list net hd sn se su co sort ty num size w)) = self w.
Proof.
  destruct (truthy (token (self w))) eqn:T.
  - rewrite get_mail_list_world by assumption. reflexivity.
  - rewrite get_mail_list_guard by assumption. reflexivity.
Qed.

End ClientFacts.

Section ClientClaims.

Variable net : network.

(** C1.  A client whose token is unset ([None], the empty string, or any
    other falsy value) gets the error result of the guard, code -1 with the
    message asking for [get_token()] first, whatever the filter arguments;
    the request log is unchanged, so no HTTP request was attempted. *)
Theorem unauthenticated_query_fails_fast
    w hd sn se su co sort ty num size :
  truthy (token (self w)) = false ->
  let out := get_mail_list net hd sn se su co sort ty num size w in
  fst out = Ok (PDict [(lit "code", PInt (-1));
                       (lit "message", PStr need_token_message)]) /\
  sent (snd out) = sent w /\
  snd out = w.
Proof.
  intros T out. subst out. rewrite get_mail_list_guard by assumption.
  simpl. auto.
Qed.

(** C2.  The request a client with a token transmits carries
    [size = min(size, 20)]: never more than 20, 20 for a requested 50, and
    the requested size itself when that is 20 or less. *)
Theorem transmitted_size_is_clamped
    w hd sn se su co sort ty num size :
  truthy (token (self w)) = true ->
  exists rq p,
    sent (snd (get_mail_list net hd sn se su co sort ty num size w))
    = sent w ++ [rq] /\
    req_json rq = PDict p /\
    Dict.get p (lit "size") = Some (PInt (Z.min size 20)) /\
    Z.min size 20 <= 20 /\
    (size = 50 -> Dict.get p (lit "size") = Some (PInt 20)) /\
    (size <= 20 -> Dict.get p (lit "size") = Some (PInt size)).
Proof.
  intros T. rewrite get_mail_list_world by assumption.
  eexists; eexists; split; [reflexivity|]. split; [reflexivity|].
  assert (G : Dict.get (mail_list_payload hd sn se su co sort ty num size)
                (lit "size") = Some (PInt (Z.min size 20))).
  { unfold mail_list_payload.
    rewrite !optional_field_other by reflexivity. reflexivity. }
  rewrite G. repeat split.
  - lia.
  - intros ->. reflexivity.
  - intros L. rewrite Z.min_l by assumption. reflexivity.
Qed.

(** C7.  In the payload a client with a token transmits, each of
    sendName, sendEmail, subject and content is a key exactly when the
    caller supplied a non-empty value for it, and then carries that value;
    toEmail, timeSort, type, num and size are always there. *)
Theorem optional_filters_follow_arguments
    w hd sn se su co sort ty num size :
  truthy (token (self w)) = true ->
  exists rq p,
    sent (snd (get_mail_list net hd sn se su co sort ty num size w))
    = sent w ++ [rq] /\
    req_json rq = PDict p /\
    field_follows p (lit "sendName") sn /\
    field_follows p (lit "sendEmail") se /\
    field_follows p (lit "subject") su /\
    field_follows p (lit "content") co /\
    Dict.get p (lit "toEmail") = Some (PStr hd) /\
    Dict.get p (lit "timeSort") = Some (PStr sort) /\
    Dict.get p (lit "type") = Some (PInt ty) /\
    Dict.get p (lit "num") = Some (PInt num) /\
    Dict.get p (lit "size") = Some (PInt (Z.min size 20)).
Proof.
  intros T. rewrite get_mail_list_world by assumption.
  eexists; eexists; split; [reflexivity|]. split; [reflexivity|].
  unfold field_follows, mail_list_payload.
  repeat rewrite dict_get_In.
  repeat match goal with
  | |- _ /\ _ => split
  | |- Dict.get _ _ = Some _ =>
      rewrite !optional_field_other by reflexivity; reflexivity
  | |- forall v, _ = Some v -> _ =>
      rewrite ?optional_field_other by reflexivity;
      apply optional_field_same;
      rewrite ?optional_field_other by reflexivity; reflexivity
  | |- _ <-> _ =>
      rewrite ?optional_field_other by reflexivity;
      apply optional_field_same;
      rewrite ?optional_field_other by reflexivity; reflexivity
  end.
Qed.

End ClientClaims.

(* ===================================================================== *)
(** * Token acquisition                                                  *)
(* ===================================================================== *)

Section TokenFacts.

Variable net : network.

(** Every path of [get_token] attempts exactly one POST and leaves
    [base_url] alone. *)
Lemma get_token_world w email password jwt :
  let w' := snd (get_token net email password jwt w) in
  sent w' = sent w ++ [token_request (self w) email password jwt] /\
  base_url (self w') = base_url (self w).
Proof.
  unfold get_token, bind, get_self, try_except, requests_post, lift, ret,
    set_token, token_request; simpl.
  destruct (net _ _) as [e|r]; simpl; auto.
  destruct (json_body r) as [data|e]; simpl; auto.
  destruct (py_get data (lit "code") PNone) as [code|e]; simpl; auto.
  destruct (eq_int code 200); simpl; auto.
  destruct (py_get data (lit "data") (PDict [])) as [inner|e]; simpl; auto.
  destruct (py_get inner (lit "token") PNone) as [tok|e]; simpl; auto.
Qed.

(** The transport raised: the exception text comes back, the token stays. *)
Lemma get_token_transport_failure w email password jwt e :
  net (sent w) (token_request (self w) email password jwt) = PostRaises e ->
  get_token net email password jwt w
  = (Ok (error_result (exn_text e)),
     mkWorld (self w)
       (sent w ++ [token_request (self w) email password jwt])).
Proof.
  intros H.
  unfold get_token, bind, get_self, try_except, requests_post, lift, ret.
  simpl. unfold token_request in H. rewrite H. reflexivity.
Qed.

(** The body is a dict whose code is not 200: the body itself comes back,
    the token stays. *)
Lemma get_token_rejected w email password jwt r body :
  net (sent w) (token_request (self w) email password jwt) = PostReturns r ->
  json_body r = Ok (PDict body) ->
  (forall c, Dict.get body (lit "code") = Some c -> eq_int c 200 = false) ->
  get_token net email password jwt w
  = (Ok (PDict body),
     mkWorld (self w)
       (sent w ++ [token_request (self w) email password jwt])).
Proof.
  intros H J C.
  unfold get_token, bind, get_self, try_except, requests_post, lift, ret.
  simpl. unfold token_request in H. rewrite H. simpl. rewrite J. simpl.
  destruct (Dict.get body (lit "code")) as [c|] eqn:G.
  - rewrite (C c eq_refl). reflexivity.
  - reflexivity.
Qed.

(** The body is a dict with code 200 and a dict under "data": the token
    is whatever is under "token" there, or [None]. *)
Lemma get_token_accepted w email password jwt r body c inner :
  net (sent w) (token_request (self w) email password jwt) = PostReturns r ->
  json_body r = Ok (PDict body) ->
  Dict.get body (lit "code") = Some c -> eq_int c 200 = true ->
  Dict.get body (lit "data") = Some (PDict inner) ->
  get_token net email password jwt w
  = (Ok (PDict body),
     mkWorld (mkEmailAPI (base_url (self w))
                (match Dict.get inner (lit "token") with
                 | Some tok => tok
                 | None => PNone
                 end))
       (sent w ++ [token_request (self w) email password jwt])).
Proof.
  intros H J C E D.
  unfold get_token, bind, get_self, try_except, requests_post, lift, ret,
    set_token.
  simpl. unfold token_request in H. rewrite H. simpl. rewrite J. simpl.
  rewrite C, E. simpl. rewrite D. reflexivity.
Qed.

(** The token changes only on a response whose body is a dict with a code
    equal to 200. *)
Lemma get_token_writes_only_on_200 w email password jwt :
  token (self (snd (get_token net email password jwt w))) <> token (self w) ->
  exists r body c,
    net (sent w) (token_request (self w) email password jwt) = PostReturns r /\
    json_body r = Ok (PDict body) /\
    Dict.get body (lit "code") = Some c /\ eq_int c 200 = true.
Proof.
  unfold get_token, bind, get_self, try_except, requests_post, lift, ret,
    set_token, token_request; simpl.
  destruct (net _ _) as [e|r]; simpl; [congruence|].
  destruct (json_body r) as [data|e] eqn:J; simpl; [|congruence].
  destruct data as [| | | | | |body]; simpl; try congruence.
  destruct (Dict.get body (lit "code")) as [c|] eqn:G; simpl;
    [|congruence].
  destruct (eq_int c 200) eqn:E; simpl; [|congruence].
  intros _. exists r, body, c. auto.
Qed.

End TokenFacts.

Section TokenClaims.

Variable net : network.

(** C5.  When the token-issuance response decodes to a dict whose code is
    200 and whose data.token is the string T, [get_token] returns that
    dict and the client's token is exactly T afterwards.  The transport
    status of the response is not consulted: it is arbitrary here. *)
Theorem acquire_stores_issued_token
    w email password jwt r body inner T :
  net (sent w) (token_request (self w) email password jwt) = PostReturns r ->
  json_body r = Ok (PDict body) ->
  Dict.get body (lit "code") = Some (PInt 200) ->
  Dict.get body (lit "data") = Some (PDict inner) ->
  Dict.get inner (lit "token") = Some (PStr T) ->
  let out := get_token net email password jwt w in
  fst out = Ok (PDict body) /\
  token (self (snd out)) = PStr T.
Proof.
  intros H J C D K out. subst out.
  rewrite (get_token_accepted net w email password jwt r body (PInt 200) inner)
    by (assumption || reflexivity).
  rewrite K. simpl. auto.
Qed.

(** C6.  A response that decodes to a dict whose code is not 200 comes
    back as it is, so with the message the server put in it; a transport
    exception comes back as code -1 with the exception text.  Either way
    the client keeps the token it had (none, for a fresh client) and the
    log grew by the one request: nothing was retried. *)
Theorem acquire_failure_reports_and_keeps_token
    w email password jwt :
  let rq := token_request (self w) email password jwt in
  let out := get_token net email password jwt w in
  (forall r body,
      net (sent w) rq = PostReturns r ->
      json_body r = Ok (PDict body) ->
      (forall c, Dict.get body (lit "code") = Some c -> eq_int c 200 = false) ->
      fst out = Ok (PDict body) /\
      py_get (PDict body) (lit "message") PNone
      = match Dict.get body (lit "message") with
        | Some m => Ok m
        | None => Ok PNone
        end /\
      self (snd out) = self w /\
      sent (snd out) = sent w ++ [rq]) /\
  (forall e,
      net (sent w) rq = PostRaises e ->
      fst out = Ok (PDict [(lit "code", PInt (-1));
                           (lit "message", PStr (exn_text e))]) /\
      self (snd out) = self w /\
      sent (snd out) = sent w ++ [rq]).
Proof.
  intros rq out. subst rq out. split.
  - intros r body H J C.
    rewrite (get_token_rejected net w email password jwt r body) by assumption.
    simpl. destruct (Dict.get body (lit "message")); auto.
  - intros e H.
    rewrite (get_token_transport_failure net w email password jwt e)
      by assumption.
    simpl. auto.
Qed.

(** C9.  [get_mail_list] leaves the client as it was, token and base_url,
    on every path.  [get_token] never touches base_url, and the token
    differs after it only if the response decoded to a dict whose code
    equals 200. *)
Theorem query_preserves_client_state
    w hd sn se su co sort ty num size :
  let out := get_mail_list net hd sn se su co sort ty num size w in
  token (self (snd out)) = token (self w) /\
  base_url (self (snd out)) = base_url (self w) /\
  (forall email password jwt,
      let w' := snd (get_token net email password jwt w) in
      base_url (self w') = base_url (self w) /\
      (token (self w') <> token (self w) ->
       exists r body c,
         net (sent w) (token_request (self w) email password jwt)
         = PostReturns r /\
         json_body r = Ok (PDict body) /\
         Dict.get body (lit "code") = Some c /\ eq_int c 200 = true)).
Proof.
  intros out. subst out. rewrite get_mail_list_self.
  split; [reflexivity|]. split; [reflexivity|].
  intros email password jwt w'. subst w'. split.
  - apply get_token_world.
  - apply get_token_writes_only_on_200.
Qed.

End TokenClaims.

(** C1 at a fresh client, whose token is [None]. *)
Lemma unauthenticated_query_fails_fast_witness :
  truthy (token (self fresh_world)) = false /\
  let out := get_mail_list net_issuing (lit "me@example.com") None
               (Some (lit "account@nvidia.com")) None None (lit "desc")
               0 1 20 fresh_world in
  fst out = Ok (PDict [(lit "code", PInt (-1));
                       (lit "message", PStr need_token_message)]) /\
  sent (snd out) = sent fresh_world /\
  snd out = fresh_world.
Proof.
  split; [reflexivity|].
  apply (unauthenticated_query_fails_fast net_issuing fresh_world).
  reflexivity.
Defined.

(** C2 at a requested size of 50. *)
Lemma transmitted_size_is_clamped_witness :
  truthy (token (self ready_world)) = true /\
  exists rq p,
    sent (snd (get_mail_list net_down (lit "me@example.com") None None None
                 None (lit "desc") 0 1 50 ready_world))
    = sent ready_world ++ [rq] /\
    req_json rq = PDict p /\
    Dict.get p (lit "size") = Some (PInt (Z.min 50 20)) /\
    Z.min 50 20 <= 20 /\
    (50 = 50 -> Dict.get p (lit "size") = Some (PInt 20)) /\
    (50 <= 20 -> Dict.get p (lit "size") = Some (PInt 50)).
Proof.
  split; [reflexivity|].
  apply (transmitted_size_is_clamped net_down ready_world).
  reflexivity.
Defined.

(** C7 with a sender filter, an empty subject and no other filter. *)
Lemma optional_filters_follow_arguments_witness :
  truthy (token (self ready_world)) = true /\
  exists rq p,
    sent (snd (get_mail_list net_down (lit "me@example.com") None
                 (Some (lit "account@nvidia.com")) (Some []) None
                 (lit "desc") 0 1 20 ready_world))
    = sent ready_world ++ [rq] /\
    req_json rq = PDict p /\
    field_follows p (lit "sendName") None /\
    field_follows p (lit "sendEmail") (Some (lit "account@nvidia.com")) /\
    field_follows p (lit "subject") (Some []) /\
    field_follows p (lit "content") None /\
    Dict.get p (lit "toEmail") = Some (PStr (lit "me@example.com")) /\
    Dict.get p (lit "timeSort") = Some (PStr (lit "desc")) /\
    Dict.get p (lit "type") = Some (PInt 0) /\
    Dict.get p (lit "num") = Some (PInt 1) /\
    Dict.get p (lit "size") = Some (PInt (Z.min 20 20)).
Proof.
  split; [reflexivity|].
  apply (optional_filters_follow_arguments net_down ready_world).
  reflexivity.
Defined.

(** C5 at a service that issues "T" under a transport status of 500. *)
Lemma acquire_stores_issued_token_witness :
  let out := get_token net_issuing EMAIL PASSWORD JWT_SECRET fresh_world in
  fst out = Ok (PDict issuing_body) /\
  token (self (snd out)) = PStr (lit "T").
Proof.
  apply (acquire_stores_issued_token net_issuing fresh_world EMAIL PASSWORD
           JWT_SECRET
           (mkResponse 500 (lit "Oops")
              (base_url (self fresh_world) ++ lit "/api/public/genToken")
              (Ok (PDict issuing_body)))
           issuing_body [(lit "token", PStr (lit "T"))] (lit "T"));
    reflexivity.
Defined.

(** C6 at code 401 with "bad credentials", and at a failing transport. *)
Lemma acquire_failure_reports_and_keeps_token_witness :
  (let out := get_token net_rejecting EMAIL PASSWORD JWT_SECRET fresh_world in
   fst out = Ok (PDict rejecting_body) /\
   py_get (PDict rejecting_body) (lit "message") PNone
   = Ok (PStr (lit "bad credentials")) /\
   self (snd out) = self fresh_world /\
   sent (snd out)
   = [token_request (self fresh_world) EMAIL PASSWORD JWT_SECRET]) /\
  (let out := get_token net_down EMAIL PASSWORD JWT_SECRET fresh_world in
   fst out = Ok (PDict [(lit "code", PInt (-1));
                        (lit "message", PStr (lit "connection refused"))]) /\
   self (snd out) = self fresh_world /\
   sent (snd out)
   = [token_request (self fresh_world) EMAIL PASSWORD JWT_SECRET]).
Proof.
  split.
  - apply (proj1 (acquire_failure_reports_and_keeps_token net_rejecting
                    fresh_world EMAIL PASSWORD JWT_SECRET)
             (mkResponse 200 (lit "OK")
                (base_url (self fresh_world) ++ lit "/api/public/genToken")
                (Ok (PDict rejecting_body)))
             rejecting_body); try reflexivity.
    intros c G. inversion G. reflexivity.
  - apply (proj2 (acquire_failure_reports_and_keeps_token net_down
                    fresh_world EMAIL PASSWORD JWT_SECRET)
             (mkExn RequestException (lit "connection refused"))).
    reflexivity.
Defined.

(** C9 at a fresh client and a service that issues a token: the token
    changed, and the response had code 200. *)
Lemma query_preserves_client_state_witness :
  token (self (snd (get_token net_issuing EMAIL PASSWORD JWT_SECRET
                      fresh_world)))
  <> token (self fresh_world) /\
  exists r body c,
    net_issuing (sent fresh_world)
      (token_request (self fresh_world) EMAIL PASSWORD JWT_SECRET)
    = PostReturns r /\
    json_body r = Ok (PDict body) /\
    Dict.get body (lit "code") = Some c /\ eq_int c 200 = true.
Proof.
  assert (D : token (self (snd (get_token net_issuing EMAIL PASSWORD
                                  JWT_SECRET fresh_world)))
              <> token (self fresh_world)) by (simpl; discriminate).
  split; [exact D|].
  exact (proj2 (proj2 (proj2 (query_preserves_client_state net_issuing
                                fresh_world [] None None None None [] 0 1 20))
                  EMAIL PASSWORD JWT_SECRET) D).
Defined.

(* ===================================================================== *)
(** * Handling the result: shapes and the local filter                   *)
(* ===================================================================== *)

Lemma prefixb_spec (t u : pystr) :
  Str.prefixb t u = true <-> exists post, u = t ++ post.
Proof.
  revert u; induction t as [|x t IH]; intros u; simpl.
  - split; [intros _; exists u; reflexivity | reflexivity].
  - destruct u as [|y u].
    + split; [discriminate | intros [post E]; discriminate].
    + rewrite andb_true_iff, N.eqb_eq, IH. split.
      * intros [-> [post ->]]. exists post; reflexivity.
      * intros [post E]. inversion E; subst. split; [reflexivity|].
        exists post; reflexivity.
Qed.

Lemma contains_spec (t u : pystr) :
  Str.contains t u = true <-> substring t u.
Proof.
  unfold substring. induction u as [|c u IH]; simpl.
  - rewrite orb_false_r, prefixb_spec. split.
    + intros [post E]. exists [], post. exact E.
    + intros (pre & post & E). destruct pre; [|discriminate].
      exists post. exact E.
  - rewrite orb_true_iff, prefixb_spec, IH. split.
    + intros [[post E] | (pre & post & E)].
      * exists [], post. exact E.
      * exists (c :: pre), post. simpl. rewrite E. reflexivity.
    + intros (pre & post & E). destruct pre as [|c' pre].
      * left. exists post. exact E.
      * right. inversion E; subst. exists pre, post. reflexivity.
Qed.

Lemma kept_by_In (P : pyval -> Prop) (l k : list pyval) :
  kept_by P l k -> forall m, In m k <-> In m l /\ P m.
Proof.
  induction 1 as [|m0 l k Pm _ IH|m0 l k Pm _ IH]; intros m; simpl.
  - tauto.
  - rewrite IH. split.
    + intros [->|[I Q]]; auto.
    + intros [[->|I] Q]; auto.
  - rewrite IH. split.
    + intros [I Q]; auto.
    + intros [[->|I] Q]; [contradiction | auto].
Qed.

Section WorkflowFacts.

Variable lower : pystr -> pystr.

Lemma subject_matches_well_formed (target : pystr) (m : pyval) :
  well_formed_message m = true ->
  subject_matches lower target m
  = Ok (Str.contains (lower target) (lower (subject_of m))).
Proof.
  unfold well_formed_message, subject_matches, subject_of.
  destruct m as [| | | | | |d]; try discriminate. simpl.
  destruct (Dict.get d (lit "subject")) as [[| | | |t| |]|]; try discriminate;
    reflexivity.
Qed.

Lemma comprehension_well_formed (target : pystr) (msgs : list pyval) :
  forallb well_formed_message msgs = true ->
  exists kept,
    comprehension (subject_matches lower target) msgs = Ok kept /\
    kept_by (fun m => substring (lower target) (lower (subject_of m)))
      msgs kept.
Proof.
  induction msgs as [|m msgs IH]; simpl.
  - intros _. exists []. split; [reflexivity | constructor].
  - rewrite andb_true_iff. intros [W Ws].
    destruct (IH Ws) as (kept & E & K).
    rewrite (subject_matches_well_formed target m W). simpl. rewrite E. simpl.
    destruct (Str.contains (lower target) (lower (subject_of m))) eqn:C.
    + exists (m :: kept). split; [reflexivity|].
      apply kept_yes; [apply contains_spec; exact C | exact K].
    + exists kept. split; [reflexivity|].
      apply kept_no; [|exact K].
      rewrite <- contains_spec. congruence.
Qed.

Lemma comprehension_kept (keep : pyval -> pyresult bool) (l k : list pyval) :
  comprehension keep l = Ok k -> forall m, In m k -> keep m = Ok true.
Proof.
  revert k; induction l as [|x l IH]; simpl; intros k E m I.
  - inversion E; subst. contradiction.
  - destruct (keep x) as [b|e] eqn:Kx; simpl in E; [|discriminate].
    destruct (comprehension keep l) as [rest|e]; simpl in E; [|discriminate].
    inversion E; subst; clear E.
    destruct b.
    + destruct I as [->|I]; [exact Kx | exact (IH rest eq_refl m I)].
    + exact (IH rest eq_refl m I).
Qed.

End WorkflowFacts.

Lemma kept_by_ext (P Q : pyval -> Prop) (l k : list pyval) :
  (forall m, In m l -> (P m <-> Q m)) -> kept_by P l k -> kept_by Q l k.
Proof.
  intros H K. induction K as [|m l k Pm K IH|m l k Pm K IH].
  - constructor.
  - apply kept_yes.
    + apply (H m); [left; reflexivity | exact Pm].
    + apply IH. intros x I. apply H. right. exact I.
  - apply kept_no.
    + intros Qm. apply Pm. apply (H m); [left; reflexivity | exact Qm].
    + apply IH. intros x I. apply H. right. exact I.
Qed.

Section LetterCase.
Local Open Scope N_scope.

(** Two characters have the same small form exactly when they are the
    same letter. *)
Lemma same_letter_lower (a b : N) :
  same_letter a b <->
  (if (65 <=? a) && (a <=? 90) then a + 32 else a)
  = (if (65 <=? b) && (b <=? 90) then b + 32 else b).
Proof.
  unfold same_letter.
  destruct (N.leb_spec 65 a); destruct (N.leb_spec a 90);
    destruct (N.leb_spec 65 b); destruct (N.leb_spec b 90); cbn [andb]; lia.
Qed.

Lemma same_letters_lower (t u : pystr) :
  Forall2 same_letter t u <-> ascii_lower t = ascii_lower u.
Proof.
  unfold ascii_lower. split.
  - induction 1 as [|a b t u H _ IH]; [reflexivity|].
    cbn [List.map]. apply same_letter_lower in H. rewrite H, IH. reflexivity.
  - revert u. induction t as [|a t IH]; intros [|b u] E; cbn [List.map] in E;
      try discriminate; constructor.
    + apply same_letter_lower. congruence.
    + apply IH. congruence.
Qed.

(** Containment of the small forms is containment up to the case of
    ASCII letters. *)
Lemma substring_ascii_lower (t u : pystr) :
  substring (ascii_lower t) (ascii_lower u) <-> occurs_ignoring_case t u.
Proof.
  unfold substring, occurs_ignoring_case. split.
  - intros (pre' & post' & E). unfold ascii_lower in E at 1.
    apply map_eq_app in E. destruct E as (pre & rest & -> & _ & E).
    apply map_eq_app in E. destruct E as (mid & post & -> & E & _).
    exists pre, mid, post. split; [reflexivity|].
    apply same_letters_lower. exact E.
  - intros (pre & mid & post & -> & H). apply same_letters_lower in H.
    exists (ascii_lower pre), (ascii_lower post).
    rewrite <- H. unfold ascii_lower. rewrite !map_app. reflexivity.
Qed.

End LetterCase.

Section WorkflowClaims.

Variable lower : pystr -> pystr.

(** C3.  Two successful responses, one with the messages directly under
    "data" and one with them under "data" then "list", yield the same
    sequence of messages, in the same order, and so the same outcome of the
    rest of the handling. *)
Theorem both_shapes_give_same_messages
    use_local target bare wrapped inner msgs :
  Dict.get bare (lit "code") = Some (PInt 200) ->
  Dict.get wrapped (lit "code") = Some (PInt 200) ->
  Dict.get bare (lit "data") = Some (PList msgs) ->
  Dict.get wrapped (lit "data") = Some (PDict inner) ->
  Dict.get inner (lit "list") = Some (PList msgs) ->
  extract_mail_list (PDict bare) = Ok (PList msgs) /\
  extract_mail_list (PDict wrapped) = Ok (PList msgs) /\
  handle_mail_result lower use_local target (PDict wrapped)
  = handle_mail_result lower use_local target (PDict bare).
Proof.
  intros Cb Cw Db Dw L.
  assert (Eb : extract_mail_list (PDict bare) = Ok (PList msgs)).
  { unfold extract_mail_list; simpl. rewrite Db. reflexivity. }
  assert (Ew : extract_mail_list (PDict wrapped) = Ok (PList msgs)).
  { unfold extract_mail_list; simpl. rewrite Dw. simpl. rewrite L.
    reflexivity. }
  repeat split; auto.
  unfold handle_mail_result. rewrite Eb, Ew. simpl. rewrite Cb, Cw.
  reflexivity.
Qed.

(** For messages as the data model has them the filter returns, and what
    it returns is the sequence without the messages that do not match. *)
Lemma local_filter_well_formed target msgs :
  target <> [] ->
  forallb well_formed_message msgs = true ->
  exists kept,
    local_filter lower true target (PList msgs) = Ok (PList kept) /\
    kept_by (fun m => substring (lower target) (lower (subject_of m)))
      msgs kept.
Proof.
  intros T W.
  destruct (comprehension_well_formed lower target msgs W) as (kept & E & K).
  exists kept. split; [|exact K].
  unfold local_filter. destruct target as [|c target]; [congruence|].
  destruct msgs as [|m msgs].
  - simpl in E. inversion E. reflexivity.
  - cbn [truthy andb py_iter and_then]. rewrite E. reflexivity.
Qed.

(** C4, as the code has it.  For a non-empty target and messages that are
    dicts whose subject, when present, is a string, the local filter
    returns the messages whose lowered subject contains the lowered target
    as a contiguous run, a missing subject counting as the empty string:
    each such message is kept, every other one is dropped, and the order
    and multiplicity of the sequence are kept.  [str.lower] turns the
    letters A to Z of ASCII text into a to z and nothing else, so for an
    ASCII target and ASCII subjects the messages kept are those whose
    subject contains the target up to the case of the letters. *)
Theorem local_filter_keeps_matching_subjects target msgs :
  (forall t, forallb is_ascii t = true -> lower t = ascii_lower t) ->
  target <> [] ->
  forallb well_formed_message msgs = true ->
  exists kept,
    local_filter lower true target (PList msgs) = Ok (PList kept) /\
    kept_by (fun m => substring (lower target) (lower (subject_of m)))
      msgs kept /\
    (forall m, In m kept <->
               In m msgs /\ substring (lower target) (lower (subject_of m))) /\
    (forallb is_ascii target = true ->
     forallb (fun m => forallb is_ascii (subject_of m)) msgs = true ->
     kept_by (fun m => occurs_ignoring_case target (subject_of m)) msgs kept /\
     (forall m, In m kept <->
                In m msgs /\ occurs_ignoring_case target (subject_of m))).
Proof.
  intros L T W.
  destruct (local_filter_well_formed target msgs T W) as (kept & E & K).
  exists kept. split; [exact E|]. split; [exact K|].
  split; [exact (kept_by_In _ _ _ K)|].
  intros At As.
  assert (K' : kept_by (fun m => occurs_ignoring_case target (subject_of m))
                 msgs kept).
  { apply (kept_by_ext (fun m => substring (lower target)
                                    (lower (subject_of m)))); [|exact K].
    intros m I. rewrite forallb_forall in As.
    rewrite (L target At), (L (subject_of m) (As m I)).
    apply substring_ascii_lower. }
  split; [exact K' | exact (kept_by_In _ _ _ K')].
Qed.

(** C10.  With a non-empty target, no message without a 'subject' key is
    in the filtered sequence: its subject reads as the empty string, and
    the lowered target, which is not empty, does not occur in it.  [lower]
    maps the empty string to itself and no other string to it, as
    [str.lower] does. *)
Theorem message_without_subject_is_dropped target msgs :
  lower [] = [] ->
  (forall t, t <> [] -> lower t <> []) ->
  target <> [] ->
  (forallb well_formed_message msgs = true ->
   exists kept, local_filter lower true target (PList msgs) = Ok (PList kept)) /\
  (forall kept d,
      local_filter lower true target (PList msgs) = Ok (PList kept) ->
      Dict.get d (lit "subject") = None ->
      ~ In (PDict d) kept).
Proof.
  intros L0 L1 T. split.
  - intros W.
    destruct (local_filter_well_formed target msgs T W) as (kept & E & _).
    exists kept; exact E.
  - intros kept d E G I.
    unfold local_filter in E. destruct target as [|c target]; [congruence|].
    destruct msgs as [|m msgs].
    + simpl in E. inversion E; subst. contradiction.
    + cbn [truthy andb py_iter and_then] in E.
      destruct (comprehension (subject_matches lower (c :: target)) (m :: msgs))
        as [k|e] eqn:C; [|discriminate].
      simpl in E. inversion E; subst k; clear E.
      pose proof (comprehension_kept _ _ _ C _ I) as K.
      unfold subject_matches in K. simpl in K. rewrite G in K. simpl in K.
      rewrite L0 in K.
      destruct (lower (c :: target)) as [|x low] eqn:Lt.
      * apply (L1 (c :: target)); [discriminate | exact Lt].
      * simpl in K. discriminate.
Qed.

End WorkflowClaims.

Lemma ascii_lower_nil : ascii_lower [] = [].
Proof. reflexivity. Qed.

Lemma ascii_lower_nonempty (t : pystr) : t <> [] -> ascii_lower t <> [].
Proof. destruct t; [congruence | discriminate]. Qed.

(** C3 at the responses of the specification's example. *)
Lemma both_shapes_give_same_messages_witness :
  let msgs := [with_subject (lit "A")] in
  let bare := [(lit "code", PInt 200); (lit "data", PList msgs)] in
  let wrapped :=
    [(lit "code", PInt 200);
     (lit "data", PDict [(lit "list", PList msgs)])] in
  extract_mail_list (PDict bare) = Ok (PList msgs) /\
  extract_mail_list (PDict wrapped) = Ok (PList msgs) /\
  handle_mail_result ascii_lower true SUBJECT (PDict wrapped)
  = handle_mail_result ascii_lower true SUBJECT (PDict bare).
Proof.
  intros msgs bare wrapped.
  apply (both_shapes_give_same_messages ascii_lower true SUBJECT bare wrapped
           [(lit "list", PList msgs)] msgs); reflexivity.
Defined.

(** C4 at the specification's example: three subjects and the target
    "verify your email". *)
Lemma local_filter_keeps_matching_subjects_witness :
  exists kept,
    local_filter ascii_lower true (lit "verify your email")
      (PList sample_messages) = Ok (PList kept) /\
    kept_by (fun m => substring (ascii_lower (lit "verify your email"))
                        (ascii_lower (subject_of m)))
      sample_messages kept /\
    (forall m, In m kept <->
               In m sample_messages /\
               substring (ascii_lower (lit "verify your email"))
                 (ascii_lower (subject_of m))) /\
    (forallb is_ascii (lit "verify your email") = true ->
     forallb (fun m => forallb is_ascii (subject_of m)) sample_messages
     = true ->
     kept_by (fun m => occurs_ignoring_case (lit "verify your email")
                         (subject_of m))
       sample_messages kept /\
     (forall m, In m kept <->
                In m sample_messages /\
                occurs_ignoring_case (lit "verify your email")
                  (subject_of m))).
Proof.
  apply (local_filter_keeps_matching_subjects ascii_lower
           (lit "verify your email") sample_messages);
    [intros t _; reflexivity | discriminate | reflexivity].
Defined.

(** C4 as stated fails: in the sequence [response.json()] builds from
    that body the second message has a null subject, and the filter
    raises [AttributeError] instead of returning the first message,
    which matches. *)
Lemma null_subject_raises_in_the_filter :
  Json.loads sample_float sample_room null_subject_body
  = Some (PList [with_subject (lit "Verify"); null_subject_message]) /\
  local_filter ascii_lower true (lit "verify")
    (PList [with_subject (lit "Verify"); null_subject_message])
  = Raise (no_attribute PNone (lit "lower")) /\
  ~ (forall (lower : pystr -> pystr) target msgs,
        (forall t, forallb is_ascii t = true -> lower t = ascii_lower t) ->
        target <> [] ->
        exists kept,
          local_filter lower true target (PList msgs) = Ok (PList kept) /\
          kept_by (fun m => substring (lower target) (lower (subject_of m)))
            msgs kept).
Proof.
  split; [reflexivity|]. split; [reflexivity|].
  intros H.
  destruct (H ascii_lower (lit "verify")
              [with_subject (lit "Verify"); null_subject_message]
              (fun t _ => eq_refl)) as (kept & E & _).
  - discriminate.
  - discriminate.
Qed.

(** The filter on the example, evaluated: the first two messages. *)
Example local_filter_sample :
  local_filter ascii_lower true (lit "verify your email")
    (PList sample_messages)
  = Ok (PList [with_subject (lit "Verify Your Email");
               with_subject (lit "VERIFY your email now")]).
Proof. reflexivity. Qed.

(** C10 at a message that has only a sender. *)
Lemma message_without_subject_is_dropped_witness :
  let msgs := [PDict [(lit "sender", PStr (lit "a@b.c"))];
               with_subject (lit "Verify Your Email")] in
  (forallb well_formed_message msgs = true ->
   exists kept,
     local_filter ascii_lower true (lit "verify") (PList msgs)
     = Ok (PList kept)) /\
  (forall kept d,
      local_filter ascii_lower true (lit "verify") (PList msgs)
      = Ok (PList kept) ->
      Dict.get d (lit "subject") = None ->
      ~ In (PDict d) kept).
Proof.
  intros msgs.
  apply (message_without_subject_is_dropped ascii_lower (lit "verify") msgs
           ascii_lower_nil ascii_lower_nonempty).
  discriminate.
Defined.

(* ===================================================================== *)
(** * The UTF-8 codec                                                    *)
(* ===================================================================== *)

Section Utf8Facts.
Local Open Scope N_scope.

Ltac euclid := zify; Z.to_euclidean_division_equations; lia.

Ltac decide_tests :=
  repeat match goal with
  | |- context [N.ltb ?a ?b] => destruct (N.ltb_spec a b); try lia
  | |- context [N.leb ?a ?b] => destruct (N.leb_spec a b); try lia
  end.

Lemma utf8_decode_1 b0 r :
  b0 < 0x80 -> Utf8.decode (b0 :: r) = Utf8.push b0 (Utf8.decode r).
Proof. intros. cbn [Utf8.decode]. decide_tests. reflexivity. Qed.

Lemma utf8_decode_2 b0 b1 r :
  0xC2 <= b0 < 0xE0 -> 0x80 <= b1 < 0xC0 ->
  Utf8.decode (b0 :: b1 :: r)
  = Utf8.push ((b0 - 0xC0) * 64 + (b1 - 0x80)) (Utf8.decode r).
Proof.
  intros. cbn [Utf8.decode]. unfold Utf8.is_continuation.
  decide_tests. reflexivity.
Qed.

Lemma utf8_decode_3 b0 b1 b2 r :
  0xE0 <= b0 < 0xF0 -> 0x80 <= b1 < 0xC0 -> 0x80 <= b2 < 0xC0 ->
  let c := (b0 - 0xE0) * 4096 + (b1 - 0x80) * 64 + (b2 - 0x80) in
  0x800 <= c -> Utf8.is_surrogate c = false ->
  Utf8.decode (b0 :: b1 :: b2 :: r) = Utf8.push c (Utf8.decode r).
Proof.
  intros B0 B1 B2 c L S. cbn [Utf8.decode]. fold c. rewrite S.
  unfold Utf8.is_continuation. decide_tests. reflexivity.
Qed.

Lemma utf8_decode_4 b0 b1 b2 b3 r :
  0xF0 <= b0 < 0xF5 -> 0x80 <= b1 < 0xC0 -> 0x80 <= b2 < 0xC0 ->
  0x80 <= b3 < 0xC0 ->
  let c := (b0 - 0xF0) * 262144 + (b1 - 0x80) * 4096 + (b2 - 0x80) * 64
           + (b3 - 0x80) in
  0x10000 <= c < 0x110000 ->
  Utf8.decode (b0 :: b1 :: b2 :: b3 :: r) = Utf8.push c (Utf8.decode r).
Proof.
  intros B0 B1 B2 B3 c L. cbn [Utf8.decode]. fold c.
  unfold Utf8.is_continuation. decide_tests. reflexivity.
Qed.

Lemma utf8_decode_encode_char c rest :
  match Utf8.encode_char c with
  | Some b => Utf8.decode (b ++ rest) = Utf8.push c (Utf8.decode rest)
  | None => True
  end.
Proof.
  unfold Utf8.encode_char.
  destruct (N.ltb_spec c 0x80).
  { apply utf8_decode_1; assumption. }
  destruct (N.ltb_spec c 0x800).
  { cbn [app]. rewrite utf8_decode_2 by euclid. f_equal. euclid. }
  destruct (N.ltb_spec c 0x10000).
  { destruct (Utf8.is_surrogate c) eqn:S; [exact I|]. cbn [app].
    assert (V : (0xE0 + c / 4096 - 0xE0) * 4096
                + (0x80 + (c / 64) mod 64 - 0x80) * 64
                + (0x80 + c mod 64 - 0x80) = c) by euclid.
    rewrite utf8_decode_3; rewrite ?V; try assumption; try euclid.
    reflexivity. }
  destruct (N.ltb_spec c 0x110000); [|exact I]. cbn [app].
  assert (V : (0xF0 + c / 262144 - 0xF0) * 262144
              + (0x80 + (c / 4096) mod 64 - 0x80) * 4096
              + (0x80 + (c / 64) mod 64 - 0x80) * 64
              + (0x80 + c mod 64 - 0x80) = c) by euclid.
  rewrite utf8_decode_4; rewrite ?V; try euclid. reflexivity.
Qed.

Lemma utf8_decode_encode t b :
  Utf8.encode t = Some b -> Utf8.decode b = Some t.
Proof.
  revert b; induction t as [|c t IH]; intros b; cbn [Utf8.encode].
  - intros E; injection E as <-. reflexivity.
  - destruct (Utf8.encode_char c) as [bc|] eqn:C; [|discriminate].
    destruct (Utf8.encode t) as [bs|]; [|discriminate].
    intros E; injection E as <-.
    pose proof (utf8_decode_encode_char c bs) as D. rewrite C in D.
    rewrite D, (IH bs eq_refl). reflexivity.
Qed.

Lemma utf8_encode_scalar t :
  forallb Utf8.scalar t = true <-> exists b, Utf8.encode t = Some b.
Proof.
  induction t as [|c t IH]; cbn [forallb Utf8.encode].
  - split; [intros _; exists []; reflexivity | reflexivity].
  - rewrite andb_true_iff, IH.
    assert (C : Utf8.scalar c = true <-> exists bc, Utf8.encode_char c = Some bc).
    { unfold Utf8.scalar, Utf8.encode_char, Utf8.is_surrogate.
      decide_tests; cbn [andb negb];
        (split; [intros _; eexists; reflexivity | reflexivity])
        || (split; [discriminate | intros [bc E]; discriminate]). }
    rewrite C. split.
    + intros [[bc ->] [bs ->]]. eexists; reflexivity.
    + destruct (Utf8.encode_char c); [|intros [b E]; discriminate].
      destruct (Utf8.encode t); [|intros [b E]; discriminate].
      intros _. split; eexists; reflexivity.
Qed.

End Utf8Facts.

(* ===================================================================== *)
(** * Numbers in JSON text                                               *)
(* ===================================================================== *)

Section NumberFacts.
Local Open Scope N_scope.

Lemma scan_digits_uint d acc r :
  match r with [] => true | c :: _ => negb (Json.is_digit c) end = true ->
  Json.scan_digits acc (Str.uint_chars d ++ r) = (uint_value d acc, r).
Proof.
  intros R. revert acc.
  induction d; intros acc; cbn [Str.uint_chars uint_value app Json.scan_digits];
    try (change (Json.is_digit _) with true; cbv iota;
         rewrite IHd; f_equal; f_equal; lia).
  destruct r as [|c r]; cbn [Json.scan_digits]; [reflexivity|].
  apply negb_true_iff in R. rewrite R. reflexivity.
Qed.

Lemma uint_value_pos d p :
  uint_value d (N.pos p) = N.pos (Pos.of_uint_acc d p).
Proof.
  revert p; induction d; intros p; cbn [uint_value Pos.of_uint_acc];
    try reflexivity; rewrite <- IHd; f_equal; lia.
Qed.

Lemma uint_value_zero d : uint_value d 0 = Pos.of_uint d.
Proof.
  induction d; cbn [uint_value Pos.of_uint];
    [reflexivity | exact IHd | apply (uint_value_pos d) ..].
Qed.

Lemma to_uint_leading p d' : Pos.to_uint p <> Decimal.D0 d'.
Proof.
  intros E.
  pose proof (Unsigned.to_of (Pos.to_uint p)) as T.
  rewrite Unsigned.of_to in T. cbn [N.to_uint] in T.
  rewrite E in T at 1. unfold Decimal.unorm in T.
  destruct (Decimal.nzhead (Pos.to_uint p)) eqn:Z.
  - apply (Unsigned.to_uint_nonzero p). rewrite E. exact T.
  - symmetry in T. inversion T; subst.
    exact (nzhead_nonzero _ _ Z).
  - discriminate. - discriminate. - discriminate. - discriminate.
  - discriminate. - discriminate. - discriminate. - discriminate.
  - discriminate.
Qed.

(** The head of a text a number may end at. *)
Lemma number_end_head r :
  number_end r = true ->
  match r with
  | [] => True
  | c :: _ =>
      Json.is_digit c = false /\ (c =? 46) = false /\ (c =? 101) = false /\
      (c =? 69) = false /\ (c =? 43) = false /\ (c =? 45) = false
  end.
Proof.
  destruct r as [|c r]; [exact (fun _ => I)|]. unfold number_end.
  rewrite !andb_true_iff, !negb_true_iff. tauto.
Qed.

Lemma number_end_digit r :
  number_end r = true ->
  match r with [] => true | c :: _ => negb (Json.is_digit c) end = true.
Proof.
  intros R. apply number_end_head in R. destruct r as [|c r]; [reflexivity|].
  destruct R as [-> _]. reflexivity.
Qed.

Lemma skip_digits_end r : number_end r = true -> Json.skip_digits r = r.
Proof.
  intros R. apply number_end_head in R. destruct r as [|c r]; [reflexivity|].
  destruct R as [D _]. cbn [Json.skip_digits]. rewrite D. reflexivity.
Qed.

Lemma skip_digits_app t r :
  number_end r = true -> Json.skip_digits (t ++ r) = Json.skip_digits t ++ r.
Proof.
  intros R. induction t as [|c t IH]; cbn [app Json.skip_digits].
  - apply skip_digits_end. exact R.
  - destruct (Json.is_digit c); [exact IH | reflexivity].
Qed.

Lemma scan_digits_app t r acc :
  number_end r = true ->
  Json.scan_digits acc (t ++ r)
  = (fst (Json.scan_digits acc t), snd (Json.scan_digits acc t) ++ r).
Proof.
  intros R. revert acc. induction t as [|c t IH]; intros acc;
    cbn [app Json.scan_digits].
  - pose proof (number_end_head r R) as H. destruct r as [|c r]; [reflexivity|].
    destruct H as [D _]. cbn [Json.scan_digits]. rewrite D. reflexivity.
  - destruct (Json.is_digit c); [apply IH | reflexivity].
Qed.

Lemma scan_natural_app t r n rest :
  number_end r = true ->
  Json.scan_natural t = Some (n, rest) ->
  Json.scan_natural (t ++ r) = Some (n, rest ++ r).
Proof.
  intros R. destruct t as [|c t]; [discriminate|].
  unfold Json.scan_natural. cbn [app].
  destruct (c =? 48).
  - intros E. inversion E; subst. reflexivity.
  - destruct (Json.is_digit c); [|discriminate].
    intros E.
    assert (E1 : Json.scan_digits 0 (c :: t) = (n, rest)) by congruence.
    change (c :: t ++ r) with ((c :: t) ++ r).
    rewrite scan_digits_app by exact R. rewrite E1. reflexivity.
Qed.

Lemma scan_fraction_app t r :
  number_end r = true ->
  Json.scan_fraction (t ++ r)
  = match Json.scan_fraction t with
    | Some rest => Some (rest ++ r)
    | None => None
    end.
Proof.
  intros R. pose proof (number_end_head r R) as H.
  destruct t as [|c [|d t]]; cbn [app Json.scan_fraction].
  - destruct r as [|c [|d r]]; try reflexivity. cbn [Json.scan_fraction].
    destruct H as (_ & -> & _). reflexivity.
  - destruct r as [|d r]; [reflexivity|].
    destruct H as (-> & _). rewrite andb_false_r. reflexivity.
  - destruct ((c =? 46) && Json.is_digit d); [|reflexivity].
    rewrite skip_digits_app by exact R. reflexivity.
Qed.

Lemma scan_exponent_app t r :
  number_end r = true ->
  Json.scan_exponent (t ++ r)
  = match Json.scan_exponent t with
    | Some rest => Some (rest ++ r)
    | None => None
    end.
Proof.
  intros R. pose proof (number_end_head r R) as H.
  destruct t as [|c [|d t]]; cbn [app Json.scan_exponent].
  - destruct r as [|c [|d r]]; try reflexivity. cbn [Json.scan_exponent].
    destruct H as (_ & _ & -> & -> & _). reflexivity.
  - destruct r as [|d r]; [reflexivity|].
    destruct H as (-> & _ & _ & _ & -> & ->).
    destruct ((c =? 101) || (c =? 69)); reflexivity.
  - destruct ((c =? 101) || (c =? 69)); [|reflexivity].
    destruct (Json.is_digit d).
    + rewrite skip_digits_app by exact R. reflexivity.
    + destruct ((d =? 43) || (d =? 45)); [|reflexivity].
      destruct t as [|x t]; cbn [app].
      * destruct r as [|x r]; [reflexivity|].
        destruct H as (-> & _). reflexivity.
      * destruct (Json.is_digit x); [|reflexivity].
        rewrite skip_digits_app by exact R. reflexivity.
Qed.

(** A match is the same match before a text a number may end at. *)
Lemma match_number_app t r m :
  number_end r = true ->
  Json.match_number t = Some m ->
  Json.match_number (t ++ r)
  = Some (Json.mkMatch (Json.negative m) (Json.magnitude m)
            (Json.int_digits m) (Json.is_float m) (Json.after m ++ r)).
Proof.
  intros R. unfold Json.match_number.
  set (signed := Json.split_sign t).
  assert (S : Json.split_sign (t ++ r) = (fst signed, snd signed ++ r)
              \/ t = []).
  { destruct t as [|c t]; [right; reflexivity|]. left. subst signed.
    cbn [app Json.split_sign]. destruct (c =? 45); reflexivity. }
  destruct S as [S | ->]; [|discriminate].
  rewrite S. cbn [fst snd].
  destruct (Json.scan_natural (snd signed)) as [[n rest]|] eqn:E;
    [|discriminate].
  rewrite (scan_natural_app _ r n rest R E).
  rewrite (scan_fraction_app rest r R).
  intros M. inversion M; subst m; clear M. cbn [Json.negative Json.magnitude
    Json.int_digits Json.is_float Json.after].
  assert (L : (List.length (snd signed ++ r) - List.length (rest ++ r)
               = List.length (snd signed) - List.length rest)%nat).
  { rewrite !length_app. lia. }
  rewrite L.
  destruct (Json.scan_fraction rest) as [r1|].
  - rewrite (scan_exponent_app r1 r R).
    destruct (Json.scan_exponent r1); reflexivity.
  - rewrite (scan_exponent_app rest r R).
    destruct (Json.scan_exponent rest); reflexivity.
Qed.

Lemma scan_natural_pos p :
  Json.scan_natural (Str.uint_chars (Pos.to_uint p)) = Some (N.pos p, []).
Proof.
  pose proof (scan_digits_uint (Pos.to_uint p) 0 [] eq_refl) as S.
  rewrite uint_value_zero, Unsigned.of_to, List.app_nil_r in S.
  pose proof (Unsigned.to_uint_nonnil p) as NN.
  pose proof (to_uint_leading p) as NZ.
  destruct (Pos.to_uint p) eqn:U;
    [congruence | exfalso; exact (NZ _ eq_refl) | ..];
    cbn [Str.uint_chars] in *; unfold Json.scan_natural;
    match goal with
    | |- context [if ?c =? 48 then _ else _] =>
        change (c =? 48) with false; change (Json.is_digit c) with true
    end; cbv iota; rewrite S; reflexivity.
Qed.

(** The first character of an integer is the sign or a digit. *)
Lemma int_repr_head z :
  exists c rest, Str.int_repr z = c :: rest /\
                 (c = 45 \/ Json.is_digit c = true).
Proof.
  destruct z as [|p|p]; unfold Str.int_repr.
  - exists 48, []. auto.
  - pose proof (Unsigned.to_uint_nonnil p) as NN.
    destruct (Pos.to_uint p); [congruence | ..];
      cbn [Str.uint_chars]; eexists; eexists; (split; [reflexivity|]);
      right; reflexivity.
  - eexists; eexists; split; [reflexivity|]. left; reflexivity.
Qed.

(** The text of an integer matches as that integer, with its digits
    counted and no fraction or exponent. *)
Lemma match_number_int z :
  Json.match_number (Str.int_repr z)
  = Some (Json.mkMatch (Z.ltb z 0) (Z.abs_N z) (Str.digits z) false []).
Proof.
  destruct z as [|p|p]; unfold Str.int_repr, Str.digits.
  - reflexivity.
  - unfold Json.match_number.
    destruct (int_repr_head (Zpos p)) as (c & body & E & H).
    unfold Str.int_repr in E. rewrite E.
    assert (C : (c =? 45) = false).
    { destruct H as [-> | D].
      - exfalso. pose proof (scan_natural_pos p) as S. rewrite E in S.
        discriminate.
      - unfold Json.is_digit in D. apply andb_true_iff in D.
        destruct D as [D1 D2]. apply N.leb_le in D1. apply N.eqb_neq. lia. }
    cbn [Json.split_sign]. rewrite C. cbn [fst snd].
    rewrite <- E, scan_natural_pos.
    cbn [Json.scan_fraction Json.scan_exponent List.length Z.abs_N N.to_uint].
    rewrite Nat.sub_0_r. reflexivity.
  - unfold Json.match_number. cbn [Json.split_sign].
    change (45 =? 45) with true. cbn [fst snd].
    rewrite scan_natural_pos.
    cbn [Json.scan_fraction Json.scan_exponent List.length Z.abs_N N.to_uint].
    rewrite Nat.sub_0_r. reflexivity.
Qed.

Section Reading.

Variable float_of_text : pystr -> pyfloat.

(** An integer within the digit limit is read back from its text. *)
Lemma scan_number_int z r :
  number_end r = true ->
  (Str.digits z <= Json.int_max_str_digits)%nat ->
  Json.scan_number float_of_text (Str.int_repr z ++ r) = Some (PInt z, r).
Proof.
  intros R L. unfold Json.scan_number.
  rewrite (match_number_app _ r _ R (match_number_int z)).
  cbn [Json.is_float Json.int_digits Json.negative Json.magnitude Json.after
       app].
  destruct (Nat.ltb_spec Json.int_max_str_digits (Str.digits z)); [lia|].
  f_equal. f_equal. f_equal.
  destruct z; cbn [Z.ltb Z.compare Z.abs_N Z.of_N Z.opp]; reflexivity.
Qed.

(** The literal of a float is read as the float of that literal. *)
Lemma scan_number_float t r :
  float_literal t = true -> number_end r = true ->
  Json.match_number (t ++ r) <> None /\
  Json.scan_number float_of_text (t ++ r)
  = Some (PFloat (float_of_text t), r).
Proof.
  intros F R. unfold float_literal in F.
  destruct (Json.match_number t) as [m|] eqn:M; [|discriminate].
  apply andb_true_iff in F. destruct F as [F A].
  destruct (Json.after m) as [|x a] eqn:EA; [|discriminate].
  pose proof (match_number_app t r m R M) as MA. rewrite EA in MA.
  cbn [app] in MA. split; [rewrite MA; discriminate|].
  unfold Json.scan_number. rewrite MA. cbn [Json.is_float Json.after].
  rewrite F. rewrite length_app.
  replace (List.length t + List.length r - List.length r)%nat
    with (List.length t) by lia.
  rewrite firstn_app, Nat.sub_diag, firstn_all. cbn [firstn].
  rewrite List.app_nil_r. reflexivity.
Qed.

End Reading.

(** The first character of the literal of a float is the sign or a
    digit. *)
Lemma float_literal_head t :
  float_literal t = true ->
  exists c rest, t = c :: rest /\ (c = 45 \/ Json.is_digit c = true).
Proof.
  unfold float_literal, Json.match_number, Json.split_sign.
  destruct t as [|c t]; [discriminate|]. intros F.
  exists c, t. split; [reflexivity|].
  destruct (N.eqb_spec c 45) as [->|C]; [left; reflexivity|]. right.
  cbn [fst snd] in F. unfold Json.scan_natural in F.
  destruct (N.eqb_spec c 48) as [->|Z]; [reflexivity|].
  destruct (Json.is_digit c); [reflexivity | discriminate].
Qed.

End NumberFacts.
(* ===================================================================== *)
(** * Strings in JSON text                                               *)
(* ===================================================================== *)

Section StringFacts.
Local Open Scope N_scope.

Ltac decide_tests :=
  repeat match goal with
  | |- context [N.ltb ?a ?b] => destruct (N.ltb_spec a b); try lia
  | |- context [N.leb ?a ?b] => destruct (N.leb_spec a b); try lia
  | |- context [N.eqb ?a ?b] => destruct (N.eqb_spec a b); try lia
  end.

Lemma hex_value_digit d :
  d < 16 -> Json.hex_value (Json.hex_digit d) = Some d.
Proof.
  intros D. unfold Json.hex_value, Json.hex_digit.
  destruct (N.ltb_spec d 10); decide_tests; cbn [andb]; f_equal; lia.
Qed.

Lemma hex4_control c :
  c < 256 ->
  Json.hex4 48 48 (Json.hex_digit (c / 16)) (Json.hex_digit (c mod 16))
  = Some c.
Proof.
  intros C. unfold Json.hex4.
  change (Json.hex_value 48) with (Some 0).
  rewrite !hex_value_digit
    by (zify; Z.to_euclidean_division_equations; lia).
  f_equal. zify; Z.to_euclidean_division_equations; lia.
Qed.

Lemma scanstring_plain c rest :
  c <> 34 -> c <> 92 -> 32 <= c ->
  Json.scanstring (c :: rest) = Json.push_char c (Json.scanstring rest).
Proof.
  intros. cbn [Json.scanstring]. decide_tests. reflexivity.
Qed.

Lemma scanstring_backslash e ch rest :
  e <> 117 -> Json.backslash e = Some ch ->
  Json.scanstring (92 :: e :: rest)
  = Json.push_char ch (Json.scanstring rest).
Proof.
  intros N B. cbn [Json.scanstring].
  change (92 =? 34) with false. change (92 =? 92) with true. cbv iota.
  destruct (N.eqb_spec e 117); [contradiction|]. rewrite B. reflexivity.
Qed.

Lemma scanstring_unicode h1 h2 h3 h4 uni rest :
  Json.hex4 h1 h2 h3 h4 = Some uni -> uni < 0xD800 ->
  Json.scanstring (92 :: 117 :: h1 :: h2 :: h3 :: h4 :: rest)
  = Json.push_char uni (Json.scanstring rest).
Proof.
  intros H U. cbn [Json.scanstring].
  change (92 =? 34) with false. change (92 =? 92) with true.
  change (117 =? 117) with true. cbv iota. rewrite H.
  destruct (N.leb_spec 0xD800 uni); [lia|]. reflexivity.
Qed.

Lemma scanstring_escape_char c rest :
  Json.scanstring (Json.escape_char c ++ rest)
  = Json.push_char c (Json.scanstring rest).
Proof.
  unfold Json.escape_char.
  repeat match goal with
  | |- context [if ?x =? ?y then _ else _] =>
      destruct (N.eqb_spec x y);
        [subst; apply scanstring_backslash; [discriminate | reflexivity]|]
  end.
  destruct (N.ltb_spec c 32).
  - cbn [app]. apply scanstring_unicode; [apply hex4_control|]; lia.
  - apply scanstring_plain; assumption.
Qed.

Lemma scanstring_escaped t rest :
  Json.scanstring (flat_map Json.escape_char t ++ 34 :: rest)
  = Some (t, rest).
Proof.
  induction t as [|c t IH]; cbn [flat_map app].
  - reflexivity.
  - rewrite <- app_assoc, scanstring_escape_char, IH. reflexivity.
Qed.

(** A string literal is read back as the string. *)
Lemma scanstring_basestring t rest :
  exists body,
    Json.encode_basestring t ++ rest = 34 :: body /\
    Json.scanstring body = Some (t, rest).
Proof.
  exists (flat_map Json.escape_char t ++ 34 :: rest). split.
  - unfold Json.encode_basestring. cbn [app]. rewrite <- app_assoc.
    reflexivity.
  - apply scanstring_escaped.
Qed.

End StringFacts.

(* ===================================================================== *)
(** * The round trip through JSON text                                   *)
(* ===================================================================== *)

Lemma pyval_induction (P : pyval -> Prop) :
  P PNone -> (forall b, P (PBool b)) -> (forall n, P (PInt n)) ->
  (forall f, P (PFloat f)) -> (forall t, P (PStr t)) ->
  (forall l, Forall P l -> P (PList l)) ->
  (forall d, Forall (fun kv => P (snd kv)) d -> P (PDict d)) ->
  forall v, P v.
Proof.
  intros HN HB HI HF HS HL HD. fix IH 1. intros [|b|n|f|t|l|d].
  - exact HN.
  - apply HB.
  - apply HI.
  - apply HF.
  - apply HS.
  - apply HL. revert l. fix IHl 1. intros [|x l].
    + constructor.
    + constructor; [apply IH | apply IHl].
  - apply HD. revert d. fix IHd 1. intros [|[k x] d].
    + constructor.
    + constructor; [apply IH | apply IHd].
Qed.

Lemma float_same_eq (f g : pyfloat) : Float.same f g = true -> f = g.
Proof.
  destruct f as [|s|s|s m e], g as [|s'|s'|s' m' e']; cbn [Float.same];
    try discriminate; try reflexivity.
  - intros E. apply Bool.eqb_prop in E. congruence.
  - intros E. apply Bool.eqb_prop in E. congruence.
  - rewrite !andb_true_iff. intros [[E1 E2] E3].
    apply Bool.eqb_prop in E1. apply Pos.eqb_eq in E2. apply Z.eqb_eq in E3.
    congruence.
Qed.

Section JsonFacts.
Local Open Scope N_scope.

Variable float_repr : pyfloat -> pystr.
Variable float_of_text : pystr -> pyfloat.

Lemma skip_ws_spaces n r :
  Json.skip_ws (List.repeat 32 n ++ r) = Json.skip_ws r.
Proof. induction n; [reflexivity | exact IHn]. Qed.

Lemma skip_ws_indent level r :
  Json.skip_ws (Json.newline_indent level ++ r) = Json.skip_ws r.
Proof. unfold Json.newline_indent. cbn [app]. apply skip_ws_spaces. Qed.

Lemma skip_ws_head c r :
  Json.is_ws c = false -> Json.skip_ws (c :: r) = c :: r.
Proof. intros W. cbn [Json.skip_ws]. rewrite W. reflexivity. Qed.

(** A text that starts with the sign or a digit opens. *)
Lemma number_opens t :
  (exists c rest, t = c :: rest /\ (c = 45 \/ Json.is_digit c = true)) ->
  opens t.
Proof.
  intros (c & rest & -> & [->|D]).
  - exists 45, rest. repeat split; (reflexivity || discriminate).
  - exists c, rest. split; [reflexivity|].
    unfold Json.is_digit in D. apply andb_true_iff in D.
    destruct D as [D1 D2]. apply N.leb_le in D1, D2.
    unfold Json.is_ws.
    repeat split; try lia.
    repeat match goal with
    | |- context [N.eqb ?a ?b] => destruct (N.eqb_spec a b); try lia
    end.
Qed.

(** The text of a finite float that reads back is its literal. *)
Lemma float_reads_back_finite f :
  float_reads_back float_repr float_of_text f = true ->
  Float.is_finite f = true ->
  Json.floatstr float_repr f = float_repr f /\
  float_literal (float_repr f) = true /\
  float_of_text (float_repr f) = f.
Proof.
  unfold float_reads_back. intros R F. rewrite F in R. cbn [negb orb] in R.
  apply andb_true_iff in R. destruct R as [L S].
  split; [destruct f; try discriminate; reflexivity|].
  split; [exact L | exact (float_same_eq _ _ S)].
Qed.

(** Every text opens with a character the decoder dispatches on. *)
Lemma text_opens level v :
  readable float_repr float_of_text v = true ->
  opens (JsonText.of_value float_repr level v).
Proof.
  unfold opens.
  destruct v as [|[|]|n|f|t|[|x l]|[|[k x] d]]; cbn [JsonText.of_value];
    intros R;
    try (eexists; eexists; split; [reflexivity|];
         repeat split; (reflexivity || discriminate)).
  - apply number_opens, int_repr_head.
  - destruct f as [|[|]|s|s m e];
      try (eexists; eexists; split; [reflexivity|];
           repeat split; (reflexivity || discriminate)).
    + destruct (float_reads_back_finite (FZero s) R eq_refl) as (-> & L & _).
      apply number_opens, float_literal_head. exact L.
    + destruct (float_reads_back_finite (FFinite s m e) R eq_refl)
        as (-> & L & _).
      apply number_opens, float_literal_head. exact L.
Qed.

End JsonFacts.

Section ScanFacts.
Local Open Scope N_scope.

Variable float_repr : pyfloat -> pystr.
Variable float_of_text : pystr -> pyfloat.

Lemma opens_app t r : opens t -> opens (t ++ r).
Proof.
  intros (c & body & -> & H). exists c, (body ++ r). split; [reflexivity|].
  exact H.
Qed.

(** On the sign or a digit the decoder reads a number. *)
Lemma scan_once_number fuel room c body x :
  c = 45 \/ Json.is_digit c = true ->
  Json.scan_number float_of_text (c :: body) = Some x ->
  Json.scan_once float_of_text (S fuel) room (c :: body) = Some x.
Proof.
  intros H E.
  assert (R : 45 <= c <= 57).
  { destruct H as [->|D]; [lia|].
    unfold Json.is_digit in D. apply andb_true_iff in D.
    destruct D as [D1 D2]. apply N.leb_le in D1, D2. lia. }
  assert (M : Json.match_number (c :: body) <> None).
  { unfold Json.scan_number in E.
    destruct (Json.match_number (c :: body)); [discriminate | discriminate]. }
  cbn [Json.scan_once].
  change (lit "null") with [110; 117; 108; 108].
  change (lit "true") with [116; 114; 117; 101].
  change (lit "false") with [102; 97; 108; 115; 101].
  cbn [Str.prefixb].
  repeat match goal with
  | |- context [N.eqb ?a ?b] => destruct (N.eqb_spec a b); try lia
  end; cbn [andb];
  (destruct (Json.match_number (c :: body)); [exact E | congruence]).
Qed.

Lemma scan_once_array fuel room n t :
  opens t ->
  Json.scan_once float_of_text (S fuel) (S room)
    (91 :: Json.newline_indent n ++ t)
  = match Json.array_values float_of_text fuel room t with
    | Some (values, rest) => Some (PList values, rest)
    | None => None
    end.
Proof.
  intros (c & body & -> & _ & W & N93). cbn [Json.scan_once].
  change (91 =? 34) with false. change (91 =? 123) with false.
  change (91 =? 91) with true. cbv iota.
  rewrite skip_ws_indent, (skip_ws_head c body W).
  destruct (N.eqb_spec c 93); [contradiction|]. reflexivity.
Qed.

Lemma scan_once_object fuel room n body :
  Json.scan_once float_of_text (S fuel) (S room)
    (123 :: Json.newline_indent n ++ 34 :: body)
  = match Json.object_pairs float_of_text fuel room body with
    | Some (pairs, rest) => Some (PDict (Json.dict_of_pairs pairs), rest)
    | None => None
    end.
Proof.
  cbn [Json.scan_once].
  change (123 =? 34) with false. change (123 =? 123) with true. cbv iota.
  rewrite skip_ws_indent, (skip_ws_head 34 body eq_refl).
  reflexivity.
Qed.

(** What follows an item, a comma or the closing line, ends a number. *)
Lemma number_end_items enc level n l rest :
  number_end (JsonText.list_items enc level false l
              ++ Json.newline_indent n ++ rest) = true.
Proof. destruct l; reflexivity. Qed.

Lemma number_end_pairs enc level n d rest :
  number_end (JsonText.dict_items enc level false d
              ++ Json.newline_indent n ++ rest) = true.
Proof. destruct d as [|[k x] d]; reflexivity. Qed.

Lemma skip_ws_text level v r :
  readable float_repr float_of_text v = true ->
  Json.skip_ws (JsonText.of_value float_repr level v ++ r)
  = JsonText.of_value float_repr level v ++ r.
Proof.
  intros R. destruct (text_opens float_repr float_of_text level v R)
    as (c & body & E & _ & Wc & _).
  rewrite E. apply skip_ws_head. exact Wc.
Qed.

Lemma array_values_items level room n rest l :
  Forall (reads_back float_repr float_of_text) l ->
  forall x fuel,
    reads_back float_repr float_of_text x ->
    forallb (readable float_repr float_of_text) (x :: l) = true ->
    forallb (nests_within room) (x :: l) = true ->
    (fold_right (fun y k => S (size y + k)) O (x :: l) <= fuel)%nat ->
    Json.array_values float_of_text fuel room
      (JsonText.of_value float_repr level x
       ++ JsonText.list_items (JsonText.of_value float_repr level) level false l
       ++ Json.newline_indent n ++ 93 :: rest)
    = Some (x :: l, rest).
Proof.
  induction 1 as [|y l Hy Hl IH]; intros x fuel Hx W D F;
    cbn [forallb fold_right] in W, D, F; apply andb_true_iff in W, D;
    destruct W as [Wx Wl], D as [Dx Dl];
    (destruct fuel as [|fuel]; [lia|]);
    cbn [Json.array_values].
  - rewrite (Hx level fuel room) by (assumption || reflexivity || lia).
    cbn [JsonText.list_items app]. rewrite skip_ws_indent.
    reflexivity.
  - rewrite (Hx level fuel room)
      by (assumption || apply number_end_items || lia).
    cbn [JsonText.list_items app].
    rewrite (skip_ws_head 44) by reflexivity.
    change (44 =? 93) with false. change (44 =? 44) with true. cbv iota.
    rewrite <- !app_assoc, skip_ws_indent.
    assert (Wy : readable float_repr float_of_text y = true).
    { cbn [forallb] in Wl. apply andb_true_iff in Wl. apply Wl. }
    rewrite (skip_ws_text level y _ Wy).
    rewrite (IH y fuel Hy Wl Dl) by (cbn [fold_right]; lia).
    reflexivity.
Qed.

Lemma object_pairs_items level room n rest d :
  Forall (fun kv => reads_back float_repr float_of_text (snd kv)) d ->
  forall k x fuel,
    reads_back float_repr float_of_text x ->
    forallb (fun kv => let '(_, y) := kv in
                       readable float_repr float_of_text y) ((k, x) :: d)
    = true ->
    forallb (fun kv => let '(_, y) := kv in nests_within room y)
      ((k, x) :: d) = true ->
    (fold_right (fun kv m => let '(_, y) := kv in S (size y + m)) O
       ((k, x) :: d) <= fuel)%nat ->
    Json.object_pairs float_of_text fuel room
      (flat_map Json.escape_char k ++ 34 :: 58 :: 32
       :: JsonText.of_value float_repr level x
       ++ JsonText.dict_items (JsonText.of_value float_repr level) level false d
       ++ Json.newline_indent n ++ 125 :: rest)
    = Some ((k, x) :: d, rest).
Proof.
  induction 1 as [|[k' y] d Hy Hd IH]; intros k x fuel Hx W D F;
    cbn [forallb fold_right] in W, D, F; apply andb_true_iff in W, D;
    destruct W as [Wx Wd], D as [Dx Dd];
    (destruct fuel as [|fuel]; [lia|]);
    cbn [Json.object_pairs]; rewrite scanstring_escaped;
    rewrite (skip_ws_head 58) by reflexivity;
    change (58 =? 58) with true; cbv iota;
    cbn [Json.skip_ws]; change (Json.is_ws 32) with true; cbv iota;
    rewrite (skip_ws_text level x _ Wx).
  - rewrite (Hx level fuel room) by (assumption || reflexivity || lia).
    cbn [JsonText.dict_items app]. rewrite skip_ws_indent.
    reflexivity.
  - rewrite (Hx level fuel room)
      by (assumption || apply number_end_pairs || lia).
    cbn [JsonText.dict_items app].
    rewrite (skip_ws_head 44) by reflexivity.
    change (44 =? 125) with false. change (44 =? 44) with true. cbv iota.
    rewrite <- !app_assoc, skip_ws_indent.
    unfold Json.encode_basestring. cbn [app].
    rewrite (skip_ws_head 34) by reflexivity.
    change (34 =? 34) with true. cbv iota.
    rewrite <- !app_assoc. cbn [app].
    rewrite (IH k' y fuel Hy Wd Dd) by (cbn [fold_right]; lia).
    reflexivity.
Qed.

End ScanFacts.

Section RoundTrip.
Local Open Scope N_scope.

Variable float_repr : pyfloat -> pystr.
Variable float_of_text : pystr -> pyfloat.

Lemma dict_set_fresh (d : pydict) (k : pystr) (v : pyval) :
  existsb (Str.eqb k) (Dict.keys d) = false ->
  Dict.set d k v = d ++ [(k, v)].
Proof.
  induction d as [|[k' v'] d IH]; cbn [Dict.set Dict.keys List.map existsb fst app].
  - reflexivity.
  - intros E. apply orb_false_iff in E. destruct E as [E1 E2].
    assert (E1' : Str.eqb k' k = false).
    { apply str_eqb_neq. apply str_eqb_neq in E1. congruence. }
    rewrite E1'. f_equal. apply IH. exact E2.
Qed.

Lemma existsb_app_false (k : pystr) (a b : list pystr) :
  existsb (Str.eqb k) (a ++ b) = false <->
  existsb (Str.eqb k) a = false /\ existsb (Str.eqb k) b = false.
Proof. rewrite existsb_app. apply orb_false_iff. Qed.

Lemma fold_set_distinct (d acc : pydict) :
  distinct (Dict.keys (acc ++ d)) = true ->
  fold_left (fun a kv => Dict.set a (fst kv) (snd kv)) d acc = acc ++ d.
Proof.
  revert acc; induction d as [|[k v] d IH]; intros acc D; cbn [fold_left].
  - rewrite List.app_nil_r. reflexivity.
  - cbn [fst snd]. rewrite dict_set_fresh.
    + rewrite IH; rewrite <- app_assoc; [reflexivity | exact D].
    + clear IH. induction acc as [|[k' v'] acc IHacc].
      * reflexivity.
      * cbn [app Dict.keys List.map fst distinct] in D.
        apply andb_true_iff in D. destruct D as [D1 D2].
        apply negb_true_iff in D1.
        unfold Dict.keys in D1. rewrite map_app in D1.
        apply existsb_app_false in D1. destruct D1 as [_ D1].
        cbn [List.map fst existsb] in D1.
        apply orb_false_iff in D1. destruct D1 as [D1 _].
        cbn [Dict.keys List.map fst existsb].
        assert (E : Str.eqb k k' = false).
        { apply str_eqb_neq. apply str_eqb_neq in D1. congruence. }
        rewrite E. apply IHacc. exact D2.
Qed.

Lemma dict_of_pairs_distinct (d : pydict) :
  distinct (Dict.keys d) = true -> Json.dict_of_pairs d = d.
Proof. intros D. unfold Json.dict_of_pairs. apply (fold_set_distinct d []). exact D. Qed.

Lemma text_list level x l rest :
  JsonText.of_value float_repr level (PList (x :: l)) ++ rest
  = 91 :: Json.newline_indent (S level)
    ++ (JsonText.of_value float_repr (S level) x
        ++ JsonText.list_items (JsonText.of_value float_repr (S level))
             (S level) false l
        ++ Json.newline_indent level ++ 93 :: rest).
Proof.
  cbn [JsonText.of_value JsonText.list_items app].
  rewrite <- !app_assoc. reflexivity.
Qed.

Lemma text_dict level k x d rest :
  JsonText.of_value float_repr level (PDict ((k, x) :: d)) ++ rest
  = 123 :: Json.newline_indent (S level)
    ++ 34 :: (flat_map Json.escape_char k ++ 34 :: 58 :: 32
              :: JsonText.of_value float_repr (S level) x
              ++ JsonText.dict_items (JsonText.of_value float_repr (S level))
                   (S level) false d
              ++ Json.newline_indent level ++ 125 :: rest).
Proof.
  cbn [JsonText.of_value JsonText.dict_items app].
  unfold Json.encode_basestring.
  cbn [app]. repeat (rewrite <- app_assoc; cbn [app]). reflexivity.
Qed.

(** Every value is read back from its text. *)
Lemma scan_once_text : forall v, reads_back float_repr float_of_text v.
Proof.
  apply pyval_induction; unfold reads_back.
  - intros level [|fuel] room rest _ _ _ F; [cbn in F; lia | reflexivity].
  - intros [|] level [|fuel] room rest _ _ _ F;
      (cbn in F; lia) || reflexivity.
  - intros n level [|fuel] room rest L _ R F; [cbn in F; lia|].
    cbn [JsonText.of_value]. cbn [readable] in L. apply Nat.leb_le in L.
    pose proof (scan_number_int float_of_text n rest R L) as E.
    destruct (int_repr_head n) as (c & body & H & C).
    rewrite H in E |- *. cbn [app] in E |- *.
    exact (scan_once_number float_of_text fuel room c _ _ C E).
  - intros f level [|fuel] room rest L D R F; [cbn in F; lia|].
    cbn [JsonText.of_value]. cbn [readable] in L.
    assert (Fin : Float.is_finite f = true ->
                  Json.scan_once float_of_text (S fuel) room
                    (Json.floatstr float_repr f ++ rest)
                  = Some (PFloat f, rest)).
    { intros Fi.
      destruct (float_reads_back_finite float_repr float_of_text f L Fi)
        as (-> & Lit & Back).
      destruct (scan_number_float float_of_text _ rest Lit R) as [_ E].
      rewrite Back in E.
      destruct (float_literal_head _ Lit) as (c & body & H & C).
      rewrite H in E |- *. cbn [app] in E |- *.
      exact (scan_once_number float_of_text fuel room c _ _ C E). }
    destruct f as [|[|]|s|s m e]; try (apply Fin; reflexivity);
      (destruct room as [|room]; [discriminate D | reflexivity]).
  - intros t level [|fuel] room rest _ _ _ F; [cbn in F; lia|].
    cbn [JsonText.of_value].
    destruct (scanstring_basestring t rest) as (body & E & S).
    rewrite E. cbn [Json.scan_once]. change (34 =? 34) with true. cbv iota.
    rewrite S. reflexivity.
  - intros l IH level [|fuel] [|room] rest W D _ F;
      try (cbn in F; lia); try discriminate D.
    destruct l as [|x l]; [reflexivity|].
    inversion IH as [|? ? Hx Hl]; subst.
    rewrite text_list.
    rewrite scan_once_array.
    + rewrite (array_values_items float_repr float_of_text (S level) room
                 level rest l Hl x fuel Hx).
      * reflexivity.
      * exact W.
      * exact D.
      * apply le_S_n. exact F.
    + apply opens_app, (text_opens float_repr float_of_text).
      cbn [readable forallb] in W. apply andb_true_iff in W. apply W.
  - intros d IH level [|fuel] [|room] rest W D _ F;
      try (cbn in F; lia); try discriminate D.
    destruct d as [|[k x] d]; [reflexivity|].
    inversion IH as [|? ? Hx Hd]; subst. cbn [snd] in Hx.
    cbn [readable] in W. apply andb_true_iff in W.
    destruct W as [K W].
    rewrite text_dict, scan_once_object.
    rewrite (object_pairs_items float_repr float_of_text (S level) room
               level rest d Hd k x fuel Hx).
    + rewrite dict_of_pairs_distinct by exact K. reflexivity.
    + exact W.
    + exact D.
    + apply le_S_n. exact F.
Qed.

End RoundTrip.

Section TextFacts.
Local Open Scope N_scope.

Variable float_repr : pyfloat -> pystr.
Variable float_of_text : pystr -> pyfloat.

Lemma list_items_length (enc : pyval -> pystr) level first l :
  Forall (fun v => (size v <= List.length (enc v))%nat) l ->
  (fold_right (fun y k => S (size y + k)) O l
   <= List.length (JsonText.list_items enc level first l))%nat.
Proof.
  intros H. revert first. induction H as [|y l Hy _ IH]; intros first;
    cbn [fold_right JsonText.list_items].
  - apply Nat.le_0_l.
  - specialize (IH false). rewrite !length_app.
    destruct first; cbn [List.length Json.newline_indent]; lia.
Qed.

Lemma dict_items_length (enc : pyval -> pystr) level first d :
  Forall (fun kv => (size (snd kv) <= List.length (enc (snd kv)))%nat) d ->
  (fold_right (fun kv m => let '(_, y) := kv in S (size y + m)) O d
   <= List.length (JsonText.dict_items enc level first d))%nat.
Proof.
  intros H. revert first. induction H as [|[k y] d Hy _ IH]; intros first;
    cbn [fold_right JsonText.dict_items].
  - apply Nat.le_0_l.
  - specialize (IH false). cbn [snd] in Hy. rewrite !length_app.
    destruct first; cbn [List.length Json.newline_indent]; lia.
Qed.

Lemma opens_length t : opens t -> (1 <= List.length t)%nat.
Proof. intros (c & body & -> & _). cbn [List.length]. lia. Qed.

Lemma size_le_length v :
  forall level,
    readable float_repr float_of_text v = true ->
    (size v <= List.length (JsonText.of_value float_repr level v))%nat.
Proof.
  induction v as [|b|n|f|t|l IH|d IH] using pyval_induction; intros level R;
    try (apply opens_length, (text_opens float_repr float_of_text);
         exact R).
  - destruct l as [|x l]; [cbn; lia|].
    cbn [size JsonText.of_value]. rewrite !length_app. cbn [List.length].
    apply le_n_S.
    etransitivity;
      [apply (list_items_length (JsonText.of_value float_repr (S level))
                (S level) true)|].
    + cbn [readable] in R. rewrite forallb_forall in R.
      rewrite Forall_forall in IH |- *. intros v I. apply IH; auto.
    + lia.
  - destruct d as [|[k x] d]; [cbn; lia|].
    cbn [size JsonText.of_value]. rewrite !length_app. cbn [List.length].
    apply le_n_S.
    etransitivity;
      [apply (dict_items_length (JsonText.of_value float_repr (S level))
                (S level) true)|].
    + cbn [readable] in R. apply andb_true_iff in R. destruct R as [_ R].
      rewrite forallb_forall in R.
      rewrite Forall_forall in IH |- *. intros [k0 y] I. cbn [snd].
      apply (IH _ I). exact (R _ I).
    + lia.
Qed.

(** [json.loads] gives back what [json.dump] was given, when it has room
    for the nesting. *)
Lemma loads_dumps room v :
  readable float_repr float_of_text v = true ->
  nests_within room v = true ->
  Json.loads float_of_text room (JsonText.dumps float_repr v) = Some v.
Proof.
  intros W D. unfold Json.loads, JsonText.dumps.
  destruct (text_opens float_repr float_of_text O v W)
    as (c & body & E & A & Wc & _).
  assert (B : Str.prefixb [0xFEFF] (JsonText.of_value float_repr 0 v) = false).
  { rewrite E. cbn [Str.prefixb]. destruct (N.eqb_spec 0xFEFF c); [lia|].
    reflexivity. }
  rewrite B.
  assert (S : Json.skip_ws (JsonText.of_value float_repr 0 v)
              = JsonText.of_value float_repr 0 v).
  { rewrite E. apply skip_ws_head. exact Wc. }
  rewrite S.
  rewrite <- (List.app_nil_r (JsonText.of_value float_repr 0 v)) at 2.
  rewrite (scan_once_text float_repr float_of_text v O _ room [] W D eq_refl).
  - reflexivity.
  - pose proof (size_le_length v O W). lia.
Qed.

(** Distinct keys, integers within the limit and floats that read back
    make a value readable. *)
Lemma readable_split v :
  well_formed v = true -> ints_within_limit v = true ->
  floats_read_back float_repr float_of_text v = true ->
  readable float_repr float_of_text v = true.
Proof.
  induction v as [|b|n|f|t|l IH|d IH] using pyval_induction;
    cbn [well_formed ints_within_limit floats_read_back readable];
    intros W L F; auto.
  - rewrite forallb_forall in *. rewrite Forall_forall in IH.
    intros x I. apply IH; auto.
  - apply andb_true_iff in W. destruct W as [D W]. rewrite D. cbn [andb].
    rewrite forallb_forall in *. rewrite Forall_forall in IH.
    intros [k x] I. apply (IH _ I).
    + exact (W _ I).
    + exact (L _ I).
    + exact (F _ I).
Qed.

Lemma readable_list l :
  forallb well_formed l = true -> forallb ints_within_limit l = true ->
  forallb (floats_read_back float_repr float_of_text) l = true ->
  readable float_repr float_of_text (PList l) = true.
Proof. intros W L F. apply readable_split; assumption. Qed.

Lemma scalar_ascii c : c < 128 -> Utf8.scalar c = true.
Proof.
  intros A. unfold Utf8.scalar, Utf8.is_surrogate.
  destruct (N.ltb_spec c 0x110000); [|lia].
  destruct (N.leb_spec 0xD800 c); [lia|]. reflexivity.
Qed.

























Lemma scalar_escape_char_inv c :
  forallb Utf8.scalar (Json.escape_char c) = true -> Utf8.scalar c = true.
Proof.
  unfold Json.escape_char.
  repeat match goal with
  | |- context [if ?x =? ?y then _ else _] =>
      destruct (N.eqb_spec x y); [subst; reflexivity|]
  end.
  destruct (N.ltb_spec c 32).
  - intros _. apply scalar_ascii. lia.
  - cbn [forallb]. rewrite andb_true_r. auto.
Qed.

Lemma scalar_escaped_inv t :
  forallb Utf8.scalar (flat_map Json.escape_char t) = true ->
  forallb Utf8.scalar t = true.
Proof.
  induction t as [|c t IH]; cbn [flat_map forallb]; [reflexivity|].
  rewrite forallb_app, !andb_true_iff. intros [C T].
  split; [apply scalar_escape_char_inv; exact C | apply IH; exact T].
Qed.

Lemma scalar_basestring_inv t :
  forallb Utf8.scalar (Json.encode_basestring t) = true ->
  forallb Utf8.scalar t = true.
Proof.
  unfold Json.encode_basestring. cbn [forallb].
  rewrite forallb_app, !andb_true_iff. intros [_ [E _]].
  apply scalar_escaped_inv. exact E.
Qed.

Lemma scalar_list_items_inv (enc : pyval -> pystr) level first l :
  forallb Utf8.scalar (JsonText.list_items enc level first l) = true ->
  Forall (fun v => forallb Utf8.scalar (enc v) = true) l.
Proof.
  revert first. induction l as [|x l IH]; intros first; [constructor|].
  cbn [JsonText.list_items]. rewrite !forallb_app, !andb_true_iff.
  intros [_ [X L]]. constructor; [exact X | exact (IH false L)].
Qed.

Lemma scalar_dict_items_inv (enc : pyval -> pystr) level first d :
  forallb Utf8.scalar (JsonText.dict_items enc level first d) = true ->
  Forall (fun kv => forallb Utf8.scalar (fst kv) = true /\
                    forallb Utf8.scalar (enc (snd kv)) = true) d.
Proof.
  revert first. induction d as [|[k x] d IH]; intros first; [constructor|].
  cbn [JsonText.dict_items]. rewrite !forallb_app, !andb_true_iff.
  intros [_ [K [_ [X L]]]]. constructor; [|exact (IH false L)].
  cbn [fst snd]. split; [apply scalar_basestring_inv; exact K | exact X].
Qed.

(** A text of scalar values comes from a value with valid strings. *)
Lemma scalar_text_inv v :
  forall level,
    forallb Utf8.scalar (JsonText.of_value float_repr level v) = true ->
    valid_text v = true.
Proof.
  induction v as [|b|n|f|t|l IH|d IH] using pyval_induction; intros level Hs;
    try reflexivity.
  - apply scalar_basestring_inv. exact Hs.
  - destruct l as [|x l]; [reflexivity|].
    cbn [JsonText.of_value] in Hs. cbn [valid_text].
    rewrite !forallb_app, !andb_true_iff in Hs. destruct Hs as [_ [Hs _]].
    apply scalar_list_items_inv in Hs.
    apply forallb_forall. intros v I.
    rewrite Forall_forall in IH, Hs. exact (IH v I (S level) (Hs v I)).
  - destruct d as [|[k x] d]; [reflexivity|].
    cbn [JsonText.of_value] in Hs. cbn [valid_text].
    rewrite !forallb_app, !andb_true_iff in Hs. destruct Hs as [_ [Hs _]].
    apply scalar_dict_items_inv in Hs.
    apply forallb_forall. intros [k0 y] I.
    rewrite Forall_forall in IH, Hs. destruct (Hs _ I) as [K Y].
    cbn [fst snd] in K, Y. rewrite K. exact (IH _ I (S level) Y).
Qed.

End TextFacts.

(* ===================================================================== *)
(** * The chunks of the encoder and the bytes of the file                *)
(* ===================================================================== *)

Section EncoderFacts.
Local Open Scope N_scope.

Variable float_repr : pyfloat -> pystr.
Variable overflow : nat -> pyval -> option pystr.

Lemma yields_done : yields Json.done [].
Proof. split; reflexivity. Qed.

Lemma yields_yield c : yields (Json.yield c) c.
Proof. split; [reflexivity | apply List.app_nil_r]. Qed.

Lemma yields_next a b ta tb :
  yields a ta -> yields b tb -> yields (Json.and_next a b) (ta ++ tb).
Proof.
  intros [Fa Ca] [Fb Cb]. unfold yields, Json.and_next. rewrite Fa.
  cbn [Json.failure Json.chunks]. rewrite concat_app, Ca, Cb. auto.
Qed.

Lemma refused_digits : refused (Json.stop Json.digits_error).
Proof. exists Json.digits_error. split; [reflexivity | left; reflexivity]. Qed.

Lemma refused_recursion message :
  refused (Json.stop (Json.recursion_error message)).
Proof.
  exists (Json.recursion_error message).
  split; [reflexivity | right; reflexivity].
Qed.

Lemma refused_first a b : refused a -> refused (Json.and_next a b).
Proof.
  intros (e & F & K). exists e. unfold Json.and_next. rewrite F. auto.
Qed.

Lemma refused_next a b t :
  yields a t -> refused b -> refused (Json.and_next a b).
Proof.
  intros [Fa _] (e & F & K). exists e. unfold Json.and_next. rewrite Fa.
  auto.
Qed.

Lemma intstr_cases n :
  if (Str.digits n <=? Json.int_max_str_digits)%nat
  then Json.intstr n = Ok (Str.int_repr n)
  else Json.intstr n = Raise Json.digits_error.
Proof.
  unfold Json.intstr.
  destruct (Nat.leb_spec (Str.digits n) Json.int_max_str_digits);
    destruct (Nat.ltb_spec Json.int_max_str_digits (Str.digits n));
    try lia; reflexivity.
Qed.

(** A value written in one piece gives its text or the refusal; the
    others are the lists and the dicts. *)
Lemma atom_cases level v :
  match Json.atom float_repr overflow level v with
  | Some (Ok text) =>
      writable overflow level v = true /\
      text = JsonText.of_value float_repr level v
  | Some (Raise e) =>
      writable overflow level v = false /\ refused (Json.stop e)
  | None => (exists l, v = PList l) \/ (exists d, v = PDict d)
  end.
Proof.
  destruct v as [|[|]|n|f|t|l|d]; cbn [Json.atom]; auto.
  - pose proof (intstr_cases n) as H. unfold writable.
    cbn [ints_within_limit no_overflow].
    destruct (Str.digits n <=? Json.int_max_str_digits)%nat; rewrite H.
    + auto.
    + split; [reflexivity | apply refused_digits].
  - unfold writable. cbn [ints_within_limit no_overflow andb].
    destruct (overflow level (PFloat f)) as [message|]; cbn [none].
    + split; [reflexivity | apply refused_recursion].
    + auto.
  - left. exists l. reflexivity.
  - right. exists d. reflexivity.
Qed.

Lemma list_item_encoded (enc : pyval -> Json.stream) level buf v :
  encoded overflow level v (enc v) (JsonText.of_value float_repr level v) ->
  encoded overflow level v
    (match Json.atom float_repr overflow level v with
     | Some (Ok text) => Json.yield (buf ++ text)
     | Some (Raise e) => Json.stop e
     | None => Json.and_next (Json.yield buf) (enc v)
     end)
    (buf ++ JsonText.of_value float_repr level v).
Proof.
  intros E. pose proof (atom_cases level v) as A. unfold encoded in *.
  destruct (Json.atom float_repr overflow level v) as [[text|e]|].
  - destruct A as [-> ->]. apply yields_yield.
  - destruct A as [-> R]. exact R.
  - destruct (writable overflow level v).
    + apply yields_next; [apply yields_yield | exact E].
    + eapply refused_next; [apply yields_yield | exact E].
Qed.

Lemma dict_value_encoded (enc : pyval -> Json.stream) level v :
  encoded overflow level v (enc v) (JsonText.of_value float_repr level v) ->
  encoded overflow level v
    (match Json.atom float_repr overflow level v with
     | Some (Ok text) => Json.yield text
     | Some (Raise e) => Json.stop e
     | None => enc v
     end)
    (JsonText.of_value float_repr level v).
Proof.
  intros E. pose proof (atom_cases level v) as A. unfold encoded in *.
  destruct (Json.atom float_repr overflow level v) as [[text|e]|].
  - destruct A as [-> ->]. apply yields_yield.
  - destruct A as [-> R]. exact R.
  - exact E.
Qed.

Lemma list_items_encoded (enc : pyval -> Json.stream) level l :
  Forall (fun v => encoded overflow level v (enc v)
                     (JsonText.of_value float_repr level v)) l ->
  forall buf,
    if forallb (writable overflow level) l
    then yields (Json.list_items float_repr overflow enc level buf l)
           (match l with
            | [] => []
            | x :: l' =>
                buf ++ JsonText.of_value float_repr level x
                ++ JsonText.list_items (JsonText.of_value float_repr level)
                     level false l'
            end)
    else refused (Json.list_items float_repr overflow enc level buf l).
Proof.
  induction 1 as [|x l Hx _ IH]; intros buf;
    cbn [forallb Json.list_items].
  - apply yields_done.
  - specialize (IH (44 :: Json.newline_indent level)).
    pose proof (list_item_encoded enc level buf x Hx) as I.
    unfold encoded in I.
    destruct (writable overflow level x); cbn [andb].
    + destruct (forallb (writable overflow level) l).
      * rewrite app_assoc. apply yields_next; [exact I|].
        destruct l as [|y l]; [exact IH|].
        cbn [JsonText.list_items]. cbn [app] in IH |- *. exact IH.
      * eapply refused_next; [exact I | exact IH].
    + apply refused_first. exact I.
Qed.

Lemma dict_items_encoded (enc : pyval -> Json.stream) level d :
  Forall (fun kv => encoded overflow level (snd kv) (enc (snd kv))
                      (JsonText.of_value float_repr level (snd kv))) d ->
  forall first,
    if forallb (fun kv => let '(_, x) := kv in writable overflow level x) d
    then yields (Json.dict_items float_repr overflow enc level first d)
           (match d with
            | [] => []
            | (k, x) :: d' =>
                (if first then [] else 44 :: Json.newline_indent level)
                ++ Json.encode_basestring k ++ [58; 32]
                ++ JsonText.of_value float_repr level x
                ++ JsonText.dict_items (JsonText.of_value float_repr level)
                     level false d'
            end)
    else refused (Json.dict_items float_repr overflow enc level first d).
Proof.
  induction 1 as [|[k x] d Hx _ IH]; intros first;
    cbn [forallb Json.dict_items].
  - apply yields_done.
  - specialize (IH false). cbn [snd] in Hx.
    pose proof (dict_value_encoded enc level x Hx) as I.
    unfold encoded in I.
    assert (P : yields (if first then Json.done
                        else Json.yield (44 :: Json.newline_indent level))
                  (if first then [] else 44 :: Json.newline_indent level))
      by (destruct first; [apply yields_done | apply yields_yield]).
    destruct (writable overflow level x); cbn [andb].
    + destruct (forallb (fun kv => let '(_, x0) := kv in
                                   writable overflow level x0) d).
      * apply yields_next; [exact P|].
        apply yields_next; [apply yields_yield|].
        apply yields_next; [apply yields_yield|].
        apply yields_next; [exact I|].
        destruct d as [|[k' y] d]; [exact IH|].
        cbn [JsonText.dict_items]. cbn [app] in IH |- *. exact IH.
      * eapply refused_next; [exact P|].
        eapply refused_next; [apply yields_yield|].
        eapply refused_next; [apply yields_yield|].
        eapply refused_next; [exact I | exact IH].
    + eapply refused_next; [exact P|].
      eapply refused_next; [apply yields_yield|].
      eapply refused_next; [apply yields_yield|].
      apply refused_first. exact I.
Qed.

Lemma atom_encoded level v :
  Json.atom float_repr overflow level v <> None ->
  encoded overflow level v
    (match Json.atom float_repr overflow level v with
     | Some (Ok text) => Json.yield text
     | Some (Raise e) => Json.stop e
     | None => Json.done
     end)
    (JsonText.of_value float_repr level v).
Proof.
  intros N. pose proof (atom_cases level v) as A. unfold encoded.
  destruct (Json.atom float_repr overflow level v) as [[text|e]|];
    [| |congruence].
  - destruct A as [-> ->]. apply yields_yield.
  - destruct A as [-> R]. exact R.
Qed.

(** A list is within the limits when the recursion limit is not reached
    on coming to it and its items are within the limits, one level
    deeper; a dict likewise. *)
Lemma writable_list level l :
  writable overflow level (PList l)
  = none (overflow level (PList l))
    && forallb (writable overflow (S level)) l.
Proof.
  unfold writable. cbn [ints_within_limit no_overflow].
  destruct (none (overflow level (PList l))); cbn [andb].
  - induction l as [|x l IH]; [reflexivity|]. cbn [forallb].
    rewrite <- IH.
    destruct (ints_within_limit x), (no_overflow overflow (S level) x),
      (forallb ints_within_limit l); reflexivity.
  - apply andb_false_r.
Qed.

Lemma writable_dict level d :
  writable overflow level (PDict d)
  = none (overflow level (PDict d))
    && forallb (fun kv => let '(_, x) := kv in writable overflow (S level) x)
         d.
Proof.
  unfold writable. cbn [ints_within_limit no_overflow].
  destruct (none (overflow level (PDict d))); cbn [andb].
  - induction d as [|[k x] d IH]; [reflexivity|]. cbn [forallb].
    rewrite <- IH.
    destruct (ints_within_limit x), (no_overflow overflow (S level) x),
      (forallb (fun kv => let '(_, y) := kv in ints_within_limit y) d);
      reflexivity.
  - apply andb_false_r.
Qed.

(** The chunks of a value are its text, unless a limit is in the way. *)
Lemma iterencode_encoded v :
  forall level,
    encoded overflow level v (Json.iterencode float_repr overflow level v)
      (JsonText.of_value float_repr level v).
Proof.
  induction v as [|b|n|f|t|l IH|d IH] using pyval_induction; intros level.
  - apply (atom_encoded level PNone). discriminate.
  - apply (atom_encoded level (PBool b)). destruct b; discriminate.
  - apply (atom_encoded level (PInt n)). discriminate.
  - apply (atom_encoded level (PFloat f)). discriminate.
  - apply (atom_encoded level (PStr t)). discriminate.
  - unfold encoded. rewrite writable_list. cbn [Json.iterencode].
    destruct (overflow level (PList l)) as [message|]; cbn [none andb];
      [apply refused_recursion|].
    destruct l as [|x l]; [apply yields_yield|].
    assert (H : Forall (fun v => encoded overflow (S level) v
                          (Json.iterencode float_repr overflow (S level) v)
                          (JsonText.of_value float_repr (S level) v))
                  (x :: l)).
    { eapply Forall_impl; [|exact IH]. intros v Hv. apply Hv. }
    pose proof (list_items_encoded _ (S level) (x :: l) H
                  (91 :: Json.newline_indent (S level))) as L.
    destruct (forallb (writable overflow (S level)) (x :: l)).
    + cbn [JsonText.of_value JsonText.list_items].
      replace ([91] ++ (Json.newline_indent (S level)
                 ++ JsonText.of_value float_repr (S level) x
                 ++ JsonText.list_items (JsonText.of_value float_repr (S level))
                      (S level) false l)
               ++ Json.newline_indent level ++ [93])
        with (((91 :: Json.newline_indent (S level))
               ++ JsonText.of_value float_repr (S level) x
               ++ JsonText.list_items (JsonText.of_value float_repr (S level))
                    (S level) false l)
              ++ Json.newline_indent level ++ [93])
        by (cbn [app]; rewrite <- !app_assoc; reflexivity).
      apply yields_next; [exact L|].
      apply yields_next; apply yields_yield.
    + apply refused_first. exact L.
  - unfold encoded. rewrite writable_dict. cbn [Json.iterencode].
    destruct (overflow level (PDict d)) as [message|]; cbn [none andb];
      [apply refused_recursion|].
    destruct d as [|[k x] d]; [apply yields_yield|].
    assert (H : Forall (fun kv => encoded overflow (S level) (snd kv)
                          (Json.iterencode float_repr overflow (S level)
                             (snd kv))
                          (JsonText.of_value float_repr (S level) (snd kv)))
                  ((k, x) :: d)).
    { eapply Forall_impl; [|exact IH]. intros v Hv. apply Hv. }
    pose proof (dict_items_encoded _ (S level) ((k, x) :: d) H true) as L.
    destruct (forallb (fun kv => let '(_, x0) := kv in
                                 writable overflow (S level) x0)
                ((k, x) :: d)).
    + cbn [JsonText.of_value JsonText.dict_items].
      replace ([123] ++ (Json.newline_indent (S level)
                 ++ Json.encode_basestring k ++ [58; 32]
                 ++ JsonText.of_value float_repr (S level) x
                 ++ JsonText.dict_items (JsonText.of_value float_repr (S level))
                      (S level) false d)
               ++ Json.newline_indent level ++ [125])
        with ([123] ++ Json.newline_indent (S level)
              ++ ([] ++ Json.encode_basestring k ++ [58; 32]
                  ++ JsonText.of_value float_repr (S level) x
                  ++ JsonText.dict_items (JsonText.of_value float_repr (S level))
                       (S level) false d)
              ++ Json.newline_indent level ++ [125])
        by (cbn [app]; rewrite <- !app_assoc; reflexivity).
      apply yields_next; [apply yields_yield|].
      apply yields_next; [apply yields_yield|].
      apply yields_next; [exact L|].
      apply yields_next; apply yields_yield.
    + eapply refused_next; [apply yields_yield|].
      eapply refused_next; [apply yields_yield|].
      apply refused_first. exact L.
Qed.

End EncoderFacts.

Section FileFacts.

Variable float_repr : pyfloat -> pystr.
Variable float_of_text : pystr -> pyfloat.
Variable overflow : nat -> pyval -> option pystr.

Lemma utf8_encode_app a b :
  Utf8.encode (a ++ b)
  = match Utf8.encode a, Utf8.encode b with
    | Some x, Some y => Some (x ++ y)
    | _, _ => None
    end.
Proof.
  induction a as [|c a IH]; cbn [app Utf8.encode].
  - destruct (Utf8.encode b); reflexivity.
  - rewrite IH. destruct (Utf8.encode_char c) as [bc|]; [|reflexivity].
    destruct (Utf8.encode a) as [x|]; [|reflexivity].
    destruct (Utf8.encode b) as [y|]; [|reflexivity].
    rewrite app_assoc. reflexivity.
Qed.

(** Writing the chunks writes the bytes of their text, or stops at a
    chunk the codec refuses. *)
Lemma write_chunks_cases cs :
  match Utf8.encode (List.concat cs) with
  | Some bytes => TextFile.write_chunks cs = (bytes, None)
  | None =>
      exists bytes e,
        TextFile.write_chunks cs = (bytes, Some e) /\
        exn_kind e = UnicodeEncodeError
  end.
Proof.
  induction cs as [|c cs IH]; cbn [List.concat TextFile.write_chunks].
  - reflexivity.
  - rewrite utf8_encode_app.
    destruct (Utf8.encode c) as [x|].
    + destruct (Utf8.encode (List.concat cs)) as [y|].
      * rewrite IH. reflexivity.
      * destruct IH as (bytes & e & -> & K).
        exists (x ++ bytes), e. split; [reflexivity | exact K].
    + eexists; eexists. split; reflexivity.
Qed.

(** [json.dump] writes the bytes of the text, or raises
    [UnicodeEncodeError], the [ValueError] of the digit limit or
    [RecursionError]. *)
Lemma json_dump_cases v :
  if writable overflow 0 v then
    match Utf8.encode (JsonText.dumps float_repr v) with
    | Some bytes => TextFile.json_dump float_repr overflow v = (bytes, None)
    | None =>
        exists bytes e,
          TextFile.json_dump float_repr overflow v = (bytes, Some e) /\
          exn_kind e = UnicodeEncodeError
    end
  else
    exists bytes e,
      TextFile.json_dump float_repr overflow v = (bytes, Some e) /\
      (exn_kind e = ValueError \/ exn_kind e = RecursionError
       \/ exn_kind e = UnicodeEncodeError).
Proof.
  pose proof (iterencode_encoded float_repr overflow v O) as E.
  unfold encoded in E.
  unfold TextFile.json_dump, JsonText.dumps.
  pose proof (write_chunks_cases
                (Json.chunks (Json.iterencode float_repr overflow 0 v))) as W.
  destruct (writable overflow 0 v).
  - destruct E as [F C]. rewrite C in W. rewrite F.
    destruct (Utf8.encode (JsonText.of_value float_repr 0 v)) as [bytes|].
    + rewrite W. reflexivity.
    + destruct W as (bytes & e & -> & K). exists bytes, e. auto.
  - destruct E as (e & E & K). rewrite E.
    destruct (Utf8.encode
                (List.concat
                   (Json.chunks (Json.iterencode float_repr overflow 0 v))))
      as [bytes|].
    + rewrite W. exists bytes, e. split; [reflexivity|].
      destruct K as [->|K]; [left; reflexivity | right; left; exact K].
    + destruct W as (bytes & e' & -> & K'). exists bytes, e'. auto.
Qed.


(** What was written whole had valid strings and was within the
    limits. *)
Lemma json_dump_ok_inv v bytes :
  TextFile.json_dump float_repr overflow v = (bytes, None) ->
  writable overflow 0 v = true /\ valid_text v = true /\
  Utf8.decode bytes = Some (JsonText.dumps float_repr v).
Proof.
  intros D. pose proof (json_dump_cases v) as C.
  destruct (writable overflow 0 v).
  - destruct (Utf8.encode (JsonText.dumps float_repr v)) as [b|] eqn:E.
    + rewrite C in D. inversion D; subst b. split; [reflexivity|]. split.
      * apply (scalar_text_inv float_repr v O).
        apply utf8_encode_scalar. exists bytes. exact E.
      * exact (utf8_decode_encode _ _ E).
    + destruct C as (b & e & C & _). rewrite C in D. discriminate.
  - destruct C as (b & e & C & _). rewrite C in D. discriminate.
Qed.


End FileFacts.

(* ===================================================================== *)
(** * Equality of values                                                 *)
(* ===================================================================== *)




Lemma py_eq_nan : py_eq (PFloat FNan) (PFloat FNan) = false.
Proof. reflexivity. Qed.

(* ===================================================================== *)
(** * Persistence                                                        *)
(* ===================================================================== *)

Lemma fs_read_write (fs : filesystem) (file : file_id) (bytes : list N) :
  fs_read (fs_write fs file bytes) file = Some bytes.
Proof.
  induction fs as [|[f old] fs IH]; cbn [fs_write fs_read].
  - rewrite Nat.eqb_refl. reflexivity.
  - destruct (Nat.eqb f file) eqn:E; cbn [fs_read]; rewrite E; auto.
Qed.

Lemma fs_read_write_other (fs : filesystem) (file other : file_id)
    (bytes : list N) :
  other <> file -> fs_read (fs_write fs file bytes) other = fs_read fs other.
Proof.
  intros D. induction fs as [|[f old] fs IH]; cbn [fs_write fs_read].
  - assert (E : Nat.eqb file other = false) by (apply Nat.eqb_neq; congruence).
    rewrite E. reflexivity.
  - destruct (Nat.eqb f file) eqn:E; cbn [fs_read].
    + apply Nat.eqb_eq in E. subst f.
      assert (E' : Nat.eqb file other = false)
        by (apply Nat.eqb_neq; congruence).
      rewrite E'. reflexivity.
    + destruct (Nat.eqb f other); auto.
Qed.



Section PersistenceFacts.

Variable float_repr : pyfloat -> pystr.
Variable float_of_text : pystr -> pyfloat.
Variable overflow : nat -> pyval -> option pystr.
Variable locate : pystr -> pyresult file_id.

Lemma save_emails_cases mail_list filename timestamp fs :
  save_emails_to_json float_repr overflow locate mail_list filename timestamp
    fs
  = match py_open locate (chosen_name filename timestamp) with
    | Raise e => (Raise e, fs)
    | Ok f =>
        (match snd (TextFile.json_dump float_repr overflow (PList mail_list))
         with
         | Some e => Raise e
         | None => Ok (chosen_name filename timestamp)
         end,
         fs_write fs f
           (fst (TextFile.json_dump float_repr overflow (PList mail_list))))
    end.
Proof. reflexivity. Qed.

Lemma writable_messages mail_list :
  writable overflow 0 (PList mail_list)
  = forallb ints_within_limit mail_list
    && no_overflow overflow 0 (PList mail_list).
Proof. reflexivity. Qed.

(** A save that returns wrote the whole text, to the file its name
    denotes, and met no limit. *)
Lemma save_emails_ok_inv mail_list filename timestamp fs name fs' :
  save_emails_to_json float_repr overflow locate mail_list filename timestamp
    fs
  = (Ok name, fs') ->
  name = chosen_name filename timestamp /\
  exists file bytes,
    py_open locate name = Ok file /\
    fs' = fs_write fs file bytes /\
    forallb ints_within_limit mail_list = true /\
    no_overflow overflow 0 (PList mail_list) = true /\
    forallb valid_text mail_list = true /\
    Utf8.decode bytes = Some (JsonText.dumps float_repr (PList mail_list)).
Proof.
  rewrite save_emails_cases.
  destruct (py_open locate (chosen_name filename timestamp)) as [file|e] eqn:O;
    [|discriminate].
  destruct (TextFile.json_dump float_repr overflow (PList mail_list))
    as [bytes r] eqn:D.
  cbn [fst snd]. destruct r as [e|]; [discriminate|].
  intros E. inversion E; subst. split; [reflexivity|].
  destruct (json_dump_ok_inv float_repr overflow _ _ D) as (L & V & U).
  rewrite writable_messages in L. apply andb_true_iff in L.
  destruct L as [L R].
  exists file, bytes. auto 7.
Qed.


(** The file reads back as the value whose text it holds, where there is
    room for its nesting. *)
Lemma load_after_write room fs name file bytes v :
  py_open locate name = Ok file ->
  Utf8.decode bytes = Some (JsonText.dumps float_repr v) ->
  readable float_repr float_of_text v = true ->
  nests_within room v = true ->
  load_json float_of_text locate room (fs_write fs file bytes) name = Some v.
Proof.
  intros O D R N. unfold load_json. rewrite O, fs_read_write, D.
  apply loads_dumps; assumption.
Qed.

(** A save that returned can be read back. *)
Lemma load_after_save room mail_list filename timestamp fs name fs' :
  save_emails_to_json float_repr overflow locate mail_list filename timestamp
    fs
  = (Ok name, fs') ->
  forallb well_formed mail_list = true ->
  forallb (floats_read_back float_repr float_of_text) mail_list = true ->
  nests_within room (PList mail_list) = true ->
  load_json float_of_text locate room fs' name = Some (PList mail_list).
Proof.
  intros S W F N.
  destruct (save_emails_ok_inv _ _ _ _ _ _ S)
    as (_ & file & bytes & O & -> & L & _ & _ & U).
  apply (load_after_write room fs name file bytes (PList mail_list) O U);
    [|exact N].
  apply readable_list; assumption.
Qed.



(** X18.  [save_emails_to_json] touches at most the file its name
    denotes.  When [open] refuses the name, its exception escapes and no
    file changes.  When [open] accepts it, that file exists afterwards,
    whether [json.dump] returned or raised, and every other file keeps
    its bytes.  A name that is returned is the given one, or
    [emails_<timestamp>.json]. *)
Theorem save_touches_one_file mail_list filename timestamp fs :
  let name := chosen_name filename timestamp in
  let out := save_emails_to_json float_repr overflow locate mail_list filename
               timestamp fs in
  (forall e, py_open locate name = Raise e -> out = (Raise e, fs)) /\
  (forall file,
     py_open locate name = Ok file ->
     fs_read (snd out) file <> None /\
     (forall other, other <> file ->
                    fs_read (snd out) other = fs_read fs other)) /\
  (forall returned, fst out = Ok returned -> returned = name).
Proof.
  cbv zeta. rewrite save_emails_cases. split; [|split].
  - intros e O. rewrite O. reflexivity.
  - intros file O. rewrite O. cbn [snd]. split.
    + rewrite fs_read_write. discriminate.
    + intros other D. apply fs_read_write_other. exact D.
  - intros returned.
    destruct (py_open locate (chosen_name filename timestamp)); cbn [fst];
      [|discriminate].
    destruct (snd (TextFile.json_dump float_repr overflow (PList mail_list)));
      [discriminate|].
    intros E. inversion E. reflexivity.
Qed.


(** X20.  Two saves under default names made from different timestamps
    use different names; when both return and the two names denote
    different files, both files read back as what was saved, where the
    reader has room for the nesting. *)
Theorem saves_at_different_times_keep_both
    ml1 ml2 t1 t2 fs name1 fs1 name2 fs2 file1 file2 room :
  t1 <> t2 ->
  save_emails_to_json float_repr overflow locate ml1 None t1 fs
  = (Ok name1, fs1) ->
  save_emails_to_json float_repr overflow locate ml2 None t2 fs1
  = (Ok name2, fs2) ->
  py_open locate name1 = Ok file1 ->
  py_open locate name2 = Ok file2 ->
  file1 <> file2 ->
  forallb well_formed ml1 = true ->
  forallb (floats_read_back float_repr float_of_text) ml1 = true ->
  nests_within room (PList ml1) = true ->
  forallb well_formed ml2 = true ->
  forallb (floats_read_back float_repr float_of_text) ml2 = true ->
  nests_within room (PList ml2) = true ->
  name1 <> name2 /\
  load_json float_of_text locate room fs2 name1 = Some (PList ml1) /\
  load_json float_of_text locate room fs2 name2 = Some (PList ml2).
Proof.
  intros T S1 S2 O1 O2 D W1 F1 R1 W2 F2 R2.
  pose proof (load_after_save room _ _ _ _ _ _ S1 W1 F1 R1) as L1.
  pose proof (load_after_save room _ _ _ _ _ _ S2 W2 F2 R2) as L2.
  destruct (save_emails_ok_inv _ _ _ _ _ _ S1) as (N1 & _).
  destruct (save_emails_ok_inv _ _ _ _ _ _ S2)
    as (N2 & file & bytes & O & -> & _).
  split; [|split; [|exact L2]].
  - rewrite N1, N2. cbn [chosen_name]. intros E.
    apply app_inv_head in E. apply app_inv_tail in E. auto.
  - assert (file = file2) by congruence. subst file.
    unfold load_json in L1 |- *. rewrite O1 in L1 |- *.
    rewrite fs_read_write_other by exact D. exact L1.
Qed.

(** X21.  The end of [test_mail_functions] writes a file only for a found
    message and only when [save_to_file] is set.  What it does then is
    what [save_emails_to_json] does with the one-element list of the
    message and the default name: when that returns, the file
    [emails_<timestamp>.json] reads back as that list, where the reader
    has room for its nesting; when it raises, the exception escapes. *)
Theorem saved_file_holds_latest_message m timestamp fs room :
  let saved := save_emails_to_json float_repr overflow locate [m] None
                 timestamp fs in
  let out := save_outcome float_repr overflow locate true (Latest [m])
               timestamp fs in
  snd out = snd saved /\
  (forall name, fst saved = Ok name ->
                fst out = Ok (Some name) /\
                name = lit "emails_" ++ timestamp ++ lit ".json" /\
                (well_formed m = true ->
                 floats_read_back float_repr float_of_text m = true ->
                 nests_within room (PList [m]) = true ->
                 load_json float_of_text locate room (snd out) name
                 = Some (PList [m]))) /\
  (forall e, fst saved = Raise e -> fst out = Raise e) /\
  (forall o, save_outcome float_repr overflow locate false o timestamp fs
             = (Ok None, fs)) /\
  (forall b o, (forall l, o <> Latest l) ->
               save_outcome float_repr overflow locate b o timestamp fs
               = (Ok None, fs)).
Proof.
  cbv zeta. unfold save_outcome.
  destruct (save_emails_to_json float_repr overflow locate [m] None timestamp
              fs) as [[name|e] fs'] eqn:S; cbn [fst snd].
  - split; [reflexivity|]. split; [|split; [discriminate|split]].
    + intros name' E. inversion E; subst name'. split; [reflexivity|].
      destruct (save_emails_ok_inv _ _ _ _ _ _ S) as (N & _).
      split; [exact N|]. intros W F R.
      apply (load_after_save room _ _ _ _ _ _ S); [| |exact R];
        cbn [forallb]; rewrite ?W, ?F; reflexivity.
    + intros [| | |l]; reflexivity.
    + intros b [| | |l] H; try reflexivity. exfalso. eapply H; reflexivity.
  - split; [reflexivity|]. split; [discriminate|]. split; [|split].
    + intros e' E. inversion E. reflexivity.
    + intros [| | |l]; reflexivity.
    + intros b [| | |l] H; try reflexivity. exfalso. eapply H; reflexivity.
Qed.


End PersistenceFacts.


(** The module's [SUBJECT] goes to the file as its UTF-8 bytes, three
    for each character, not as [\uXXXX] escapes. *)
Example subject_bytes_in_file :
  TextFile.json_dump sample_repr (limit_at 3) (PStr SUBJECT)
  = ([34; 233; 170; 140; 232; 175; 129; 230; 130; 168; 231; 154; 132;
      231; 148; 181; 229; 173; 144; 233; 130; 174; 231; 174; 177; 229;
      156; 176; 229; 157; 128; 34]%N, None).
Proof. reflexivity. Qed.

(** The message [{"subject": "\ud800"}] leaves a file that ends after the
    key: the chunks before the string were written. *)
Example surrogate_leaves_truncated_file :
  save_emails_to_json sample_repr (limit_at 3) sample_locate
    [surrogate_message] (Some (lit "out.json")) sample_time []
  = (Raise (mkExn UnicodeEncodeError
              (lit "'utf-8' codec can't encode character '\ud800' in position 1: surrogates not allowed")),
     [(sample_file (lit "out.json"),
       lit "[" ++ [10; 32; 32]%N ++ lit "{" ++ [10; 32; 32; 32; 32; 34]%N
       ++ lit "subject" ++ [34%N] ++ lit ": ")]).
Proof. reflexivity. Qed.

(** The message [{"subject": "hi", "labels": [["a"]]}], where the
    recursion limit allows three levels, leaves a file that ends where
    the inner list of labels would start. *)
Example deep_nesting_leaves_truncated_file :
  save_emails_to_json sample_repr (limit_at 3) sample_locate
    [nested_message] (Some (lit "out.json")) sample_time []
  = (Raise (Json.recursion_error
              (lit "maximum recursion depth exceeded while calling a Python object")),
     [(sample_file (lit "out.json"),
       lit "[" ++ [10; 32; 32]%N ++ lit "{" ++ [10; 32; 32; 32; 32; 34]%N
       ++ lit "subject" ++ [34%N] ++ lit ": " ++ [34%N] ++ lit "hi"
       ++ [34%N] ++ lit "," ++ [10; 32; 32; 32; 32; 34]%N ++ lit "labels"
       ++ [34%N] ++ lit ": [" ++ [10; 32; 32; 32; 32; 32; 32]%N)]).
Proof. reflexivity. Qed.


(** X18 at a save as [out.json] into a directory that holds another
    file. *)
Lemma save_touches_one_file_witness :
  let out := save_emails_to_json sample_repr (limit_at 3) sample_locate
               [with_subject SUBJECT] (Some (lit "out.json")) sample_time
               [(O, [91; 93]%N)] in
  fs_read (snd out) (sample_file (lit "out.json")) <> None /\
  (forall other, other <> sample_file (lit "out.json") ->
                 fs_read (snd out) other = fs_read [(O, [91; 93]%N)] other).
Proof.
  exact (proj1 (proj2 (save_touches_one_file sample_repr (limit_at 3)
                         sample_locate
                         [with_subject SUBJECT] (Some (lit "out.json"))
                         sample_time [(O, [91; 93]%N)]))
           (sample_file (lit "out.json")) eq_refl).
Defined.

(** The two names [./out.json] and [out.json] are one file there: a save
    under one replaces what was saved under the other. *)
Example two_names_one_file :
  let fs1 := snd (save_emails_to_json sample_repr (limit_at 3) sample_locate
                    [with_subject (lit "first")] (Some (lit "out.json"))
                    sample_time []) in
  let fs2 := snd (save_emails_to_json sample_repr (limit_at 3) sample_locate
                    [with_subject (lit "second")] (Some (lit "./out.json"))
                    sample_time fs1) in
  load_json sample_float sample_locate sample_room fs2 (lit "out.json")
  = Some (PList [with_subject (lit "second")]).
Proof. reflexivity. Qed.


(** X20 at two timestamps a second apart. *)
Lemma saves_at_different_times_keep_both_witness :
  let later := lit "20260101_093001" in
  let fs1 := snd (save_emails_to_json sample_repr (limit_at 3) sample_locate
                    [with_subject (lit "first")] None sample_time []) in
  let fs2 := snd (save_emails_to_json sample_repr (limit_at 3) sample_locate
                    [with_subject SUBJECT] None later fs1) in
  chosen_name None sample_time <> chosen_name None later /\
  load_json sample_float sample_locate sample_room fs2
    (chosen_name None sample_time)
  = Some (PList [with_subject (lit "first")]) /\
  load_json sample_float sample_locate sample_room fs2
    (chosen_name None later)
  = Some (PList [with_subject SUBJECT]).
Proof.
  intros later fs1 fs2.
  apply (saves_at_different_times_keep_both sample_repr sample_float
           (limit_at 3) sample_locate
           [with_subject (lit "first")] [with_subject SUBJECT]
           sample_time later [] (chosen_name None sample_time) fs1
           (chosen_name None later) fs2
           (sample_file (chosen_name None sample_time))
           (sample_file (chosen_name None later)) sample_room);
    try reflexivity; discriminate.
Defined.

(** X21 at the message with the configured subject. *)
Lemma saved_file_holds_latest_message_witness :
  let out := save_outcome sample_repr (limit_at 3) sample_locate true
               (Latest [with_subject SUBJECT]) sample_time [] in
  fst out = Ok (Some (chosen_name None sample_time)) /\
  chosen_name None sample_time = lit "emails_" ++ sample_time ++ lit ".json" /\
  load_json sample_float sample_locate sample_room (snd out)
    (chosen_name None sample_time)
  = Some (PList [with_subject SUBJECT]).
Proof.
  intros out.
  destruct (proj1 (proj2 (saved_file_holds_latest_message sample_repr
                            sample_float (limit_at 3) sample_locate
                            (with_subject SUBJECT) sample_time []
                            sample_room))
              (chosen_name None sample_time) eq_refl) as (A & B & C).
  split; [exact A|]. split; [exact B|]. exact (C eq_refl eq_refl eq_refl).
Defined.


(* ===================================================================== *)
(** * Further properties of the client                                   *)
(* ===================================================================== *)

Lemma rstrip_slash_spec (t : pystr) :
  (exists n, t = Str.rstrip_slash t ++ List.repeat 47%N n) /\
  (forall p, Str.rstrip_slash t <> p ++ [47%N]).
Proof.
  induction t as [|c t [[n E] L]]; cbn [Str.rstrip_slash].
  - split; [exists O; reflexivity | intros [|x p]; discriminate].
  - destruct (Str.rstrip_slash t) as [|x r] eqn:R.
    + destruct (N.eqb_spec c 47) as [->|C].
      * split; [exists (S n); rewrite E; reflexivity|].
        intros [|x p]; discriminate.
      * split; [exists n; rewrite E; reflexivity|].
        intros [|x [|y p]] H; inversion H; congruence.
    + split; [exists n; rewrite E at 1; reflexivity|].
      intros [|y p] H; inversion H as [[Hc Hr]].
      exact (L p Hr).
Qed.

(** X1.  Whatever URL the client is built with, [None] and the empty
    string standing for the default one, its base_url is that URL without
    its trailing slashes, so it never ends in a slash, and its token is
    [None]. *)
Theorem init_strips_trailing_slashes (url : option pystr) :
  let api := __init__ url in
  token api = PNone /\
  (exists n, chosen_url url = base_url api ++ List.repeat 47%N n) /\
  (forall p, base_url api <> p ++ [47%N]) /\
  (url = None \/ url = Some [] -> chosen_url url = API_BASE_URL).
Proof.
  cbv zeta. unfold __init__. fold (chosen_url url). cbn [token base_url].
  destruct (rstrip_slash_spec (chosen_url url)) as [E L].
  repeat split; auto.
  intros [->| ->]; reflexivity.
Qed.

Section MoreTokenFacts.

Variable net : network.

Lemma get_token_cases w email password jwt :
  let rq := token_request (self w) email password jwt in
  let out := get_token net email password jwt w in
  match net (sent w) rq with
  | PostRaises e => fst out = Ok (error_result (exn_text e)) /\ self (snd out) = self w
  | PostReturns r =>
      match json_body r with
      | Raise e => fst out = Ok (error_result (exn_text e)) /\ self (snd out) = self w
      | Ok (PDict body) =>
          match Dict.get body (lit "code") with
          | Some c =>
              if eq_int c 200 then
                match Dict.get body (lit "data") with
                | None =>
                    fst out = Ok (PDict body) /\
                    self (snd out) = mkEmailAPI (base_url (self w)) PNone
                | Some (PDict inner) =>
                    fst out = Ok (PDict body) /\
                    self (snd out)
                    = mkEmailAPI (base_url (self w))
                        (match Dict.get inner (lit "token") with
                         | Some tok => tok
                         | None => PNone
                         end)
                | Some other =>
                    fst out
                    = Ok (error_result (exn_text (no_attribute other (lit "get")))) /\
                    self (snd out) = self w
                end
              else fst out = Ok (PDict body) /\ self (snd out) = self w
          | None => fst out = Ok (PDict body) /\ self (snd out) = self w
          end
      | Ok other =>
          fst out = Ok (error_result (exn_text (no_attribute other (lit "get")))) /\
          self (snd out) = self w
      end
  end.
Proof.
  cbv zeta.
  unfold get_token, bind, get_self, try_except, requests_post, lift, ret,
    set_token, token_request; simpl.
  destruct (net _ _) as [e|r]; simpl; auto.
  destruct (json_body r) as [data|e]; simpl; auto.
  destruct data as [| | | | | |body]; simpl; auto.
  destruct (Dict.get body (lit "code")) as [c|]; simpl; auto.
  destruct (eq_int c 200); simpl; auto.
  destruct (Dict.get body (lit "data")) as [[| | | | | |inner]|]; simpl; auto.
Qed.

End MoreTokenFacts.

Section MoreTokenClaims.

Variable net : network.

(** X2.  [get_token] never raises and always returns a dict: the decoded
    body of the response when that is a dict, and otherwise, or when
    anything raised, a dict with code -1. *)
Theorem get_token_returns_a_dict w email password jwt :
  exists d,
    fst (get_token net email password jwt w) = Ok (PDict d) /\
    ((exists r, net (sent w) (token_request (self w) email password jwt)
                = PostReturns r /\ json_body r = Ok (PDict d))
     \/ exists text, PDict d = error_result text).
Proof.
  pose proof (get_token_cases net w email password jwt) as H. cbv zeta in H.
  destruct (net _ _) as [e|r] eqn:N.
  { destruct H as [H _]. eexists; split; [exact H|]. right; eexists; reflexivity. }
  destruct (json_body r) as [data|e] eqn:J.
  2:{ destruct H as [H _]. eexists; split; [exact H|]. right; eexists; reflexivity. }
  destruct data as [| | | | | |body];
    try (destruct H as [H _]; eexists; split; [exact H|]; right; eexists;
         reflexivity).
  destruct (Dict.get body (lit "code")) as [c|].
  2:{ destruct H as [H _]. exists body. split; [exact H|]. left. exists r. auto. }
  destruct (eq_int c 200).
  2:{ destruct H as [H _]. exists body. split; [exact H|]. left. exists r. auto. }
  destruct (Dict.get body (lit "data")) as [[| | | | | |inner]|];
    try (destruct H as [H _]; eexists; split; [exact H|]; right; eexists;
         reflexivity);
    destruct H as [H _]; exists body; (split; [exact H|]); left; exists r; auto.
Qed.

(** X3.  A token response that cannot be used leaves the client as it was
    and comes back as code -1 with the text of the exception: a body that
    is not JSON, a body that is not a dict, and a body with code 200 whose
    "data" is not a dict, in which case the call fails although the
    service reported success. *)
Theorem get_token_unusable_body w email password jwt r :
  net (sent w) (token_request (self w) email password jwt) = PostReturns r ->
  let out := get_token net email password jwt w in
  (forall e, json_body r = Raise e ->
     fst out = Ok (error_result (exn_text e)) /\ self (snd out) = self w) /\
  (forall v, json_body r = Ok v -> (forall d, v <> PDict d) ->
     fst out = Ok (error_result (exn_text (no_attribute v (lit "get")))) /\
     self (snd out) = self w) /\
  (forall body c other,
     json_body r = Ok (PDict body) ->
     Dict.get body (lit "code") = Some c -> eq_int c 200 = true ->
     Dict.get body (lit "data") = Some other -> (forall d, other <> PDict d) ->
     fst out = Ok (error_result (exn_text (no_attribute other (lit "get")))) /\
     self (snd out) = self w).
Proof.
  intros N out. subst out.
  pose proof (get_token_cases net w email password jwt) as H. cbv zeta in H.
  rewrite N in H. repeat split.
  - rewrite H0 in H. apply H.
  - rewrite H0 in H. apply H.
  - rewrite H0 in H. destruct v; try apply H. exfalso. eapply H1; reflexivity.
  - rewrite H0 in H. destruct v; try apply H. exfalso. eapply H1; reflexivity.
  - rewrite H0, H1, H2, H3 in H. destruct other; try apply H.
    exfalso. eapply H4; reflexivity.
  - rewrite H0, H1, H2, H3 in H. destruct other; try apply H.
    exfalso. eapply H4; reflexivity.
Qed.

(** X4.  A response with code 200 that carries no token (no "data" key,
    or a "data" dict without "token") sets the token to [None], replacing
    any token the client held; every mail-list query after it is refused
    by the guard without a request. *)
Theorem get_token_without_token_clears w email password jwt r body c :
  net (sent w) (token_request (self w) email password jwt) = PostReturns r ->
  json_body r = Ok (PDict body) ->
  Dict.get body (lit "code") = Some c -> eq_int c 200 = true ->
  (Dict.get body (lit "data") = None \/
   exists inner, Dict.get body (lit "data") = Some (PDict inner) /\
                 Dict.get inner (lit "token") = None) ->
  let out := get_token net email password jwt w in
  fst out = Ok (PDict body) /\
  token (self (snd out)) = PNone /\
  forall hd sn se su co sort ty num size,
    get_mail_list net hd sn se su co sort ty num size (snd out)
    = (Ok (error_result need_token_message), snd out).
Proof.
  intros N J C E D out. subst out.
  pose proof (get_token_cases net w email password jwt) as H. cbv zeta in H.
  rewrite N, J, C, E in H.
  assert (G : fst (get_token net email password jwt w) = Ok (PDict body) /\
              token (self (snd (get_token net email password jwt w))) = PNone).
  { destruct D as [D | (inner & D & K)]; rewrite D in H.
    - destruct H as [H1 H2]. rewrite H2. auto.
    - destruct H as [H1 H2]. rewrite H2, K. auto. }
  destruct G as [G1 G2]. repeat split; auto.
  intros. apply get_mail_list_guard. rewrite G2. reflexivity.
Qed.

(** X5.  After a successful acquisition of a non-empty token T, a
    mail-list query attempts exactly one more POST: it calls
    [requests.post] once, for the emailList endpoint of the same base URL,
    and passes T as the Authorization header.  Whether the library then
    transmits the request, or refuses the header, is the network's
    answer. *)
Theorem query_after_acquire_carries_token
    w email password jwt r body c inner T hd sn se su co sort ty num size :
  net (sent w) (token_request (self w) email password jwt) = PostReturns r ->
  json_body r = Ok (PDict body) ->
  Dict.get body (lit "code") = Some c -> eq_int c 200 = true ->
  Dict.get body (lit "data") = Some (PDict inner) ->
  Dict.get inner (lit "token") = Some (PStr T) -> T <> [] ->
  exists rq,
    sent (snd (bind (get_token net email password jwt)
                 (fun _ => get_mail_list net hd sn se su co sort ty num size)
                 w))
    = sent w ++ [token_request (self w) email password jwt; rq] /\
    req_url rq = base_url (self w) ++ lit "/api/public/emailList" /\
    req_headers rq = [(lit "Authorization", PStr T)].
Proof.
  intros N J C E D K NE.
  pose proof (get_token_accepted net w email password jwt r body c inner
                N J C E D) as G.
  rewrite K in G. unfold bind at 1. rewrite G.
  rewrite get_mail_list_world by (destruct T; [congruence | reflexivity]).
  cbn [sent self]. eexists. split.
  - rewrite <- app_assoc. reflexivity.
  - split; reflexivity.
Qed.

(** X24.  On every path, [get_token] attempts exactly one POST: to the
    genToken endpoint of the base URL, with the JWT secret as the
    Authorization header and the e-mail address and password in the JSON
    body and nowhere else; base_url is not changed. *)
Theorem get_token_sends_one_request w email password jwt :
  let out := get_token net email password jwt w in
  exists rq,
    sent (snd out) = sent w ++ [rq] /\
    req_url rq = base_url (self w) ++ lit "/api/public/genToken" /\
    req_headers rq = [(lit "Authorization", PStr jwt)] /\
    req_json rq
    = PDict [(lit "email", PStr email); (lit "password", PStr password)] /\
    base_url (self (snd out)) = base_url (self w).
Proof.
  cbv zeta. destruct (get_token_world net w email password jwt) as [S B].
  eexists. split; [exact S|]. repeat split. exact B.
Qed.

End MoreTokenClaims.

Section MoreQueryFacts.

Variable net : network.

Lemma get_mail_list_cases w hd sn se su co sort ty num size :
  truthy (token (self w)) = true ->
  fst (get_mail_list net hd sn se su co sort ty num size w)
  = match net (sent w)
            (mail_list_request (self w) hd sn se su co sort ty num size) with
    | PostRaises e =>
        if is_request_exception e then Ok (error_result (exn_text e))
        else Raise e
    | PostReturns r =>
        match raise_for_status r with
        | Raise e =>
            if is_request_exception e then Ok (error_result (exn_text e))
            else Raise e
        | Ok _ =>
            match json_body r with
            | Ok v => Ok v
            | Raise e =>
                if is_request_exception e then Ok (error_result (exn_text e))
                else Raise e
            end
        end
    end.
Proof.
  intros T.
  unfold get_mail_list, bind, get_self, try_except, requests_post, lift, ret.
  rewrite T; simpl. unfold mail_list_request.
  destruct (net _ _) as [e|r]; simpl.
  - destruct (is_request_exception e); reflexivity.
  - destruct (raise_for_status r) as [[]|e]; simpl.
    + destruct (json_body r) as [v|e]; simpl;
        [|destruct (is_request_exception e)]; reflexivity.
    + destruct (is_request_exception e); reflexivity.
Qed.

Lemma raise_for_status_cases r :
  raise_for_status r
  = if (400 <=? status_code r) && (status_code r <? 600) then
      Raise (mkExn RequestException
               (http_error_text
                  (if status_code r <? 500 then lit " Client Error: "
                   else lit " Server Error: ") r))
    else Ok tt.
Proof.
  unfold raise_for_status, http_error_text.
  destruct (Z.leb_spec 400 (status_code r));
    destruct (Z.ltb_spec (status_code r) 500);
    destruct (Z.leb_spec 500 (status_code r));
    destruct (Z.ltb_spec (status_code r) 600); cbn [andb]; try lia;
    reflexivity.
Qed.

End MoreQueryFacts.

Section MoreQueryClaims.

Variable net : network.

(** X6.  A mail-list response with a 4xx or 5xx transport status comes
    back as code -1 with a message that starts with the status, then
    "Client Error" below 500 and "Server Error" from 500 on; its body is
    not read. *)
Theorem get_mail_list_http_error
    w hd sn se su co sort ty num size r :
  truthy (token (self w)) = true ->
  net (sent w) (mail_list_request (self w) hd sn se su co sort ty num size)
  = PostReturns r ->
  400 <= status_code r < 600 ->
  fst (get_mail_list net hd sn se su co sort ty num size w)
  = Ok (error_result
          (Str.int_repr (status_code r)
           ++ (if status_code r <? 500 then lit " Client Error: "
               else lit " Server Error: ")
           ++ reason r ++ lit " for url: " ++ resp_url r)).
Proof.
  intros T N S. rewrite get_mail_list_cases by assumption. rewrite N.
  rewrite raise_for_status_cases.
  destruct (Z.leb_spec 400 (status_code r)); [|lia].
  destruct (Z.ltb_spec (status_code r) 600); [|lia].
  reflexivity.
Qed.

(** X7.  With any other transport status the decoded body is returned as
    it is, whatever its embedded code and whether it is a dict or not:
    [get_mail_list] does not look inside it. *)
Theorem get_mail_list_returns_body_unchecked
    w hd sn se su co sort ty num size r v :
  truthy (token (self w)) = true ->
  net (sent w) (mail_list_request (self w) hd sn se su co sort ty num size)
  = PostReturns r ->
  status_code r < 400 \/ 600 <= status_code r ->
  json_body r = Ok v ->
  get_mail_list net hd sn se su co sort ty num size w
  = (Ok v,
     mkWorld (self w)
       (sent w ++ [mail_list_request (self w) hd sn se su co sort ty num size])).
Proof.
  intros T N S J.
  rewrite (surjective_pairing (get_mail_list net hd sn se su co sort ty num size w)).
  rewrite get_mail_list_world, get_mail_list_cases by assumption.
  rewrite N, raise_for_status_cases, J.
  destruct (Z.leb_spec 400 (status_code r));
    destruct (Z.ltb_spec (status_code r) 600); cbn [andb]; try lia;
    reflexivity.
Qed.

(** X8.  Of the exceptions of the POST and of [response.json()],
    [get_mail_list] turns a [RequestException] into code -1 with its text
    and lets every other one escape to the caller, unlike [get_token],
    which catches them all. *)
Theorem get_mail_list_catches_only_request_exceptions
    w hd sn se su co sort ty num size e :
  truthy (token (self w)) = true ->
  let rq := mail_list_request (self w) hd sn se su co sort ty num size in
  net (sent w) rq = PostRaises e \/
  (exists r, net (sent w) rq = PostReturns r /\
             (status_code r < 400 \/ 600 <= status_code r) /\
             json_body r = Raise e) ->
  fst (get_mail_list net hd sn se su co sort ty num size w)
  = match exn_kind e with
    | RequestException => Ok (error_result (exn_text e))
    | _ => Raise e
    end.
Proof.
  intros T rq H. subst rq. rewrite get_mail_list_cases by assumption.
  unfold is_request_exception.
  destruct H as [N | (r & N & S & J)]; rewrite N.
  - destruct (exn_kind e); reflexivity.
  - rewrite raise_for_status_cases, J.
    destruct (Z.leb_spec 400 (status_code r));
      destruct (Z.ltb_spec (status_code r) 600); cbn [andb]; try lia;
      destruct (exn_kind e); reflexivity.
Qed.

End MoreQueryClaims.

(* ===================================================================== *)
(** * Further properties of the payload and of the result handling       *)
(* ===================================================================== *)

(** X9.  The keys of the payload are the five required ones, in the order
    of the source, followed by the optional ones that were given, in the
    order sendName, sendEmail, subject, content; no key occurs twice. *)
Theorem payload_keys_in_order hd sn se su co sort ty num size :
  let p := mail_list_payload hd sn se su co sort ty num size in
  Dict.keys p
  = [lit "toEmail"; lit "timeSort"; lit "type"; lit "num"; lit "size"]
    ++ (if given sn then [lit "sendName"] else [])
    ++ (if given se then [lit "sendEmail"] else [])
    ++ (if given su then [lit "subject"] else [])
    ++ (if given co then [lit "content"] else []) /\
  distinct (Dict.keys p) = true.
Proof.
  destruct sn as [[|? ?]|], se as [[|? ?]|], su as [[|? ?]|],
    co as [[|? ?]|]; split; reflexivity.
Qed.

Lemma kept_by_nil_inv (P : pyval -> Prop) l :
  kept_by P l [] -> Forall (fun m => ~ P m) l.
Proof.
  intros K. remember [] as k eqn:E.
  induction K; [constructor | discriminate | constructor; auto].
Qed.

Lemma kept_by_cons_inv (P : pyval -> Prop) l m k :
  kept_by P l (m :: k) ->
  exists pre post,
    l = pre ++ m :: post /\ Forall (fun x => ~ P x) pre /\ P m /\
    kept_by P post k.
Proof.
  intros K. remember (m :: k) as mk eqn:E. revert m k E.
  induction K as [|x l k' Px K IH|x l k' Px K IH]; intros m k E.
  - discriminate.
  - inversion E; subst. exists [], l. repeat split; auto.
  - destruct (IH m k E) as (pre & post & -> & F & Pm & K').
    exists (x :: pre), post. repeat split; auto.
Qed.

Lemma kept_by_all (P : pyval -> Prop) l k : kept_by P l k -> Forall P k.
Proof. induction 1; auto. Qed.

Lemma kept_by_same (P : pyval -> Prop) k : Forall P k -> kept_by P k k.
Proof. induction 1; constructor; auto. Qed.

Lemma kept_by_unique (P : pyval -> Prop) l k1 k2 :
  kept_by P l k1 -> kept_by P l k2 -> k1 = k2.
Proof.
  intros K1. revert k2.
  induction K1; intros k2 K2; inversion K2; subst; auto;
    try contradiction; f_equal; auto.
Qed.

Lemma kept_by_length (P : pyval -> Prop) l k :
  kept_by P l k -> (List.length k <= List.length l)%nat.
Proof. induction 1; cbn [List.length]; lia. Qed.

Lemma kept_by_forallb (P : pyval -> Prop) (f : pyval -> bool) l k :
  kept_by P l k -> forallb f l = true -> forallb f k = true.
Proof.
  induction 1; cbn [forallb]; auto; rewrite !andb_true_iff; tauto.
Qed.

Section MoreWorkflowFacts.

Variable lower : pystr -> pystr.

Lemma handle_after_filter use_local target r msgs kept :
  (exists c, Dict.get r (lit "code") = Some c /\ eq_int c 200 = true) ->
  extract_mail_list (PDict r) = Ok (PList msgs) ->
  local_filter lower use_local target (PList msgs) = Ok (PList kept) ->
  handle_mail_result lower use_local target (PDict r)
  = Ok (match kept with [] => NotFound | m :: _ => Latest [m] end).
Proof.
  intros (c & C & E) X F. unfold handle_mail_result.
  cbn [py_get and_then]. rewrite C, E, X. cbn [and_then]. rewrite F.
  cbn [and_then]. destruct kept; reflexivity.
Qed.

(** The comprehension stops at the first message that makes the test
    raise. *)
Lemma comprehension_raises keep pre bad post e :
  Forall (fun m => exists b, keep m = Ok b) pre ->
  keep bad = Raise e ->
  comprehension keep (pre ++ bad :: post) = Raise e.
Proof.
  intros H B. induction H as [|m pre [b Hm] _ IH]; cbn [app comprehension].
  - rewrite B. reflexivity.
  - rewrite Hm. cbn [and_then]. rewrite IH. reflexivity.
Qed.

(** A message that is not a dict, or whose subject is not a string, makes
    the test raise [AttributeError]. *)
Lemma subject_matches_odd target bad :
  well_formed_message bad = false ->
  exists e, subject_matches lower target bad = Raise e /\
            exn_kind e = AttributeError.
Proof.
  unfold subject_matches, well_formed_message.
  destruct bad as [| | | | | |d]; cbn [py_get and_then];
    try (intros _; eexists; split; reflexivity).
  destruct (Dict.get d (lit "subject")) as [[| | | | | |]|]; try discriminate;
    intros _; eexists; split; reflexivity.
Qed.

(** The first such message makes the filter raise. *)
Lemma local_filter_raises_at target pre bad post :
  target <> [] ->
  forallb well_formed_message pre = true ->
  well_formed_message bad = false ->
  exists e, local_filter lower true target (PList (pre ++ bad :: post))
            = Raise e /\
            exn_kind e = AttributeError.
Proof.
  intros T W B.
  destruct (subject_matches_odd target bad B) as (e & R & K).
  exists e. split; [|exact K].
  unfold local_filter. destruct target as [|c target]; [congruence|].
  assert (NE : truthy (PList (pre ++ bad :: post)) = true)
    by (destruct pre; reflexivity).
  rewrite NE. cbn [truthy andb py_iter and_then].
  rewrite (comprehension_raises (subject_matches lower (c :: target))
             pre bad post e); [reflexivity | | exact R].
  rewrite forallb_forall in W. apply Forall_forall. intros m I.
  rewrite (subject_matches_well_formed lower (c :: target) m (W m I)).
  eexists; reflexivity.
Qed.

(** A sequence with an element that fails a test splits at the first
    one. *)
Lemma forallb_false_split (f : pyval -> bool) (l : list pyval) :
  forallb f l = false ->
  exists pre bad post,
    l = pre ++ bad :: post /\ forallb f pre = true /\ f bad = false.
Proof.
  induction l as [|x l IH]; cbn [forallb]; [discriminate|].
  destruct (f x) eqn:X; cbn [andb].
  - intros F. destruct (IH F) as (pre & bad & post & -> & P & B).
    exists (x :: pre), bad, post. cbn [forallb]. rewrite X, P. auto.
  - intros _. exists [], x, l. auto.
Qed.

End MoreWorkflowFacts.

Section MoreWorkflowClaims.

Variable lower : pystr -> pystr.

(** X10.  In a response with code 200, a missing "data" key and a "data"
    dict without "list" both read as no message, whatever the filter
    settings; a "data" that is neither a list nor a dict, such as null,
    makes the handling raise AttributeError. *)
Theorem handle_missing_or_odd_data use_local target r c :
  Dict.get r (lit "code") = Some c -> eq_int c 200 = true ->
  (Dict.get r (lit "data") = None ->
   handle_mail_result lower use_local target (PDict r) = Ok NotFound) /\
  (forall inner,
     Dict.get r (lit "data") = Some (PDict inner) ->
     Dict.get inner (lit "list") = None ->
     handle_mail_result lower use_local target (PDict r) = Ok NotFound) /\
  (forall v,
     Dict.get r (lit "data") = Some v -> is_list v = false ->
     (forall d, v <> PDict d) ->
     handle_mail_result lower use_local target (PDict r)
     = Raise (no_attribute v (lit "get"))).
Proof.
  intros C E. unfold handle_mail_result, extract_mail_list.
  cbn [py_get and_then]. rewrite C, E. repeat split.
  - intros D. rewrite D. cbn [is_list and_then]. unfold local_filter.
    cbn [truthy]. rewrite !andb_false_r. reflexivity.
  - intros inner D L. rewrite D. cbn [is_list py_get and_then]. rewrite L.
    cbn [and_then]. unfold local_filter. cbn [truthy].
    rewrite !andb_false_r. reflexivity.
  - intros v D NL ND. rewrite D. cbn [and_then]. rewrite NL.
    destruct v; try reflexivity; try discriminate.
    exfalso. eapply ND; reflexivity.
Qed.

(** X11.  A result whose code is not 200, or that has no code, is
    reported as a failed query with its "message" ([None] when it has
    none); its "data" is never looked at. *)
Theorem handle_failed_query use_local target r :
  (forall c, Dict.get r (lit "code") = Some c -> eq_int c 200 = false) ->
  handle_mail_result lower use_local target (PDict r)
  = Ok (QueryFailed (match Dict.get r (lit "message") with
                     | Some m => m
                     | None => PNone
                     end)).
Proof.
  intros C. unfold handle_mail_result. cbn [py_get and_then].
  destruct (Dict.get r (lit "code")) as [c|] eqn:G.
  - rewrite (C c eq_refl). reflexivity.
  - reflexivity.
Qed.

(** X12.  With the local filter on and a non-empty target, the handling
    of a successful response does one of three things.  When every
    message is a dict whose subject, if present, is a string, it reports
    no mail exactly when no message matches, and otherwise selects the
    first message that matches: every message before it fails the test.
    When some message is not like that, be it after a message that
    matches, it raises [AttributeError] and selects nothing. *)
Theorem handle_selects_first_match target r c msgs :
  target <> [] ->
  Dict.get r (lit "code") = Some c -> eq_int c 200 = true ->
  extract_mail_list (PDict r) = Ok (PList msgs) ->
  (forallb well_formed_message msgs = true /\
   ((Forall (fun m => ~ matches lower target m) msgs /\
     handle_mail_result lower true target (PDict r) = Ok NotFound) \/
    (exists pre m post,
       msgs = pre ++ m :: post /\
       Forall (fun x => ~ matches lower target x) pre /\
       matches lower target m /\
       handle_mail_result lower true target (PDict r) = Ok (Latest [m])))) \/
  (exists pre bad post e,
     msgs = pre ++ bad :: post /\
     forallb well_formed_message pre = true /\
     well_formed_message bad = false /\
     handle_mail_result lower true target (PDict r) = Raise e /\
     exn_kind e = AttributeError).
Proof.
  intros T C E X.
  destruct (forallb well_formed_message msgs) eqn:W.
  - left. split; [reflexivity|].
    destruct (local_filter_well_formed lower target msgs T W)
      as (kept & F & K).
    pose proof (handle_after_filter lower true target r msgs kept
                  (ex_intro _ c (conj C E)) X F) as H.
    destruct kept as [|m k].
    + left. split; [exact (kept_by_nil_inv _ _ K) | exact H].
    + right.
      destruct (kept_by_cons_inv _ _ _ _ K) as (pre & post & L & N & Pm & _).
      exists pre, m, post. auto.
  - right.
    destruct (forallb_false_split _ _ W) as (pre & bad & post & -> & P & B).
    destruct (local_filter_raises_at lower target pre bad post T P B)
      as (e & R & K).
    exists pre, bad, post, e. repeat split; auto.
    unfold handle_mail_result. cbn [py_get and_then]. rewrite C, E, X.
    cbn [and_then]. rewrite R. reflexivity.
Qed.

(** X13.  With the local filter off, or with an empty target, the first
    message of a successful response is selected whatever its subject,
    and whatever the messages are. *)
Theorem handle_without_filter_takes_first use_local target r c x rest :
  use_local = false \/ target = [] ->
  Dict.get r (lit "code") = Some c -> eq_int c 200 = true ->
  extract_mail_list (PDict r) = Ok (PList (x :: rest)) ->
  handle_mail_result lower use_local target (PDict r) = Ok (Latest [x]).
Proof.
  intros O C E X.
  apply (handle_after_filter lower use_local target r (x :: rest) (x :: rest)
           (ex_intro _ c (conj C E)) X).
  unfold local_filter. destruct O as [-> | ->].
  - reflexivity.
  - cbn [truthy]. rewrite andb_false_r. reflexivity.
Qed.

(** X14.  With the local filter on, the first message that is not a dict,
    or whose subject is present but not a string (null, a number), makes
    the filter raise AttributeError; no filtered sequence is produced. *)
Theorem local_filter_raises_on_odd_message target pre bad post :
  target <> [] ->
  forallb well_formed_message pre = true ->
  well_formed_message bad = false ->
  exists e,
    local_filter lower true target (PList (pre ++ bad :: post)) = Raise e /\
    exn_kind e = AttributeError /\
    (forall d v, bad = PDict d -> Dict.get d (lit "subject") = Some v ->
                 e = no_attribute v (lit "lower")) /\
    ((forall d, bad <> PDict d) -> e = no_attribute bad (lit "get")).
Proof.
  intros T W B.
  assert (R : exists e, subject_matches lower target bad = Raise e /\
              exn_kind e = AttributeError /\
              (forall d v, bad = PDict d ->
                 Dict.get d (lit "subject") = Some v ->
                 e = no_attribute v (lit "lower")) /\
              ((forall d, bad <> PDict d) -> e = no_attribute bad (lit "get"))).
  { unfold subject_matches, well_formed_message in *.
    destruct bad as [| | | | | |d]; cbn [py_get and_then];
      try (eexists; split; [reflexivity|]; split; [reflexivity|]; split;
           [intros d v E; discriminate | intros _; reflexivity]).
    destruct (Dict.get d (lit "subject")) as [[| | | | | |]|] eqn:G;
      try discriminate;
      (eexists; split; [reflexivity|]; split; [reflexivity|]; split;
       [intros d' v E S; inversion E; subst; rewrite G in S; inversion S;
        reflexivity
       | intros ND; exfalso; eapply ND; reflexivity]). }
  destruct R as (e & R & K & P1 & P2). exists e. repeat split; auto.
  unfold local_filter. destruct target as [|c target]; [congruence|].
  assert (NE : truthy (PList (pre ++ bad :: post)) = true)
    by (destruct pre; reflexivity).
  rewrite NE. cbn [truthy andb py_iter and_then].
  rewrite (comprehension_raises (subject_matches lower (c :: target))
             pre bad post e); [reflexivity | | exact R].
  rewrite forallb_forall in W. apply Forall_forall. intros m I.
  rewrite (subject_matches_well_formed lower (c :: target) m (W m I)).
  eexists; reflexivity.
Qed.

(** X15.  Filtering never lengthens the sequence, every kept message
    matches, and filtering the result again changes nothing. *)
Theorem local_filter_is_idempotent target msgs :
  target <> [] ->
  forallb well_formed_message msgs = true ->
  exists kept,
    local_filter lower true target (PList msgs) = Ok (PList kept) /\
    (List.length kept <= List.length msgs)%nat /\
    Forall (matches lower target) kept /\
    local_filter lower true target (PList kept) = Ok (PList kept).
Proof.
  intros T W.
  destruct (local_filter_well_formed lower target msgs T W) as (kept & F & K).
  exists kept. split; [exact F|]. split; [exact (kept_by_length _ _ _ K)|].
  split; [exact (kept_by_all _ _ _ K)|].
  pose proof (kept_by_forallb _ _ _ _ K W) as Wk.
  destruct (local_filter_well_formed lower target kept T Wk)
    as (kept' & F' & K').
  rewrite F'. f_equal. f_equal.
  exact (kept_by_unique _ _ _ _ K' (kept_by_same _ _ (kept_by_all _ _ _ K))).
Qed.

End MoreWorkflowClaims.

(* ===================================================================== *)
(** * Further properties of the workflow                                 *)
(* ===================================================================== *)

Section MoreScriptClaims.

Variable lower : pystr -> pystr.
Variable net : network.

(** X16.  When the result of [get_token] has a code other than 200, be it
    the service's refusal or a caught exception, [test_mail_functions]
    stops with that result's message: the token request is the only
    request made, no mail-list query follows. *)
Theorem workflow_stops_on_token_failure w d :
  fst (get_token net EMAIL PASSWORD JWT_SECRET w) = Ok (PDict d) ->
  (forall c, Dict.get d (lit "code") = Some c -> eq_int c 200 = false) ->
  test_mail_functions lower net w
  = (Ok (TokenFailed (match Dict.get d (lit "message") with
                      | Some m => m
                      | None => PNone
                      end)),
     snd (get_token net EMAIL PASSWORD JWT_SECRET w)) /\
  sent (snd (test_mail_functions lower net w))
  = sent w ++ [token_request (self w) EMAIL PASSWORD JWT_SECRET].
Proof.
  intros R C.
  pose proof (proj1 (get_token_world net w EMAIL PASSWORD JWT_SECRET)) as S.
  cbv zeta in S.
  assert (E : test_mail_functions lower net w
              = (Ok (TokenFailed (match Dict.get d (lit "message") with
                                  | Some m => m
                                  | None => PNone
                                  end)),
                 snd (get_token net EMAIL PASSWORD JWT_SECRET w))).
  { unfold test_mail_functions. unfold bind at 1.
    destruct (get_token net EMAIL PASSWORD JWT_SECRET w) as [res w1].
    cbn [fst snd] in *. subst res.
    unfold bind, lift, ret. cbn [py_get].
    destruct (Dict.get d (lit "code")) as [c|] eqn:G.
    - rewrite (C c eq_refl). reflexivity.
    - reflexivity. }
  split; [exact E|]. rewrite E. exact S.
Qed.

Lemma workflow_requests w :
  let w1 := snd (get_token net EMAIL PASSWORD JWT_SECRET w) in
  exists extra,
    sent (snd (test_mail_functions lower net w)) = sent w1 ++ extra /\
    (extra = [] \/
     extra = [mail_list_request (self w1) EMAIL None (Some SEND_EMAIL)
                None None (lit "desc") 0 1 20]).
Proof.
  assert (Z : forall w0 : world,
             exists extra, sent w0 = sent w0 ++ extra /\
               (extra = [] \/
                extra = [mail_list_request (self w0) EMAIL None
                           (Some SEND_EMAIL) None None (lit "desc") 0 1 20])).
  { intros w0. exists []. rewrite List.app_nil_r. auto. }
  cbv zeta. unfold test_mail_functions. unfold bind at 1.
  destruct (get_token net EMAIL PASSWORD JWT_SECRET w) as [res w1].
  cbn [snd].
  destruct res as [v|e]; [|apply Z].
  unfold bind at 1. unfold lift at 1.
  destruct (py_get v (lit "code") PNone) as [code|e]; [|apply Z].
  destruct (negb (eq_int code 200)).
  { unfold bind, lift, ret.
    destruct (py_get v (lit "message") PNone); apply Z. }
  change (LOCAL_FILTER && truthy (PStr SUBJECT))%bool with true. cbv iota.
  change (match TO_EMAIL with [] => EMAIL | _ :: _ => TO_EMAIL end) with EMAIL.
  change (nonempty SEND_EMAIL) with (Some SEND_EMAIL).
  unfold bind at 1.
  destruct (get_mail_list net EMAIL None (Some SEND_EMAIL) None None
              (lit "desc") 0 1 20 w1) as [res2 w2] eqn:G.
  assert (W2 : snd (get_mail_list net EMAIL None (Some SEND_EMAIL) None None
                      (lit "desc") 0 1 20 w1) = w2) by (rewrite G; reflexivity).
  assert (A : sent (snd (match res2 with
                         | Ok a => lift (handle_mail_result lower LOCAL_FILTER
                                           SUBJECT a) w2
                         | Raise e => (Raise e, w2)
                         end)) = sent w2)
    by (destruct res2; reflexivity).
  rewrite A. clear A.
  destruct (truthy (token (self w1))) eqn:T.
  - rewrite get_mail_list_world in W2 by assumption. subst w2.
    eexists. split; [reflexivity|]. right. reflexivity.
  - rewrite get_mail_list_guard in W2 by assumption. cbn [snd] in W2.
    subst w2. apply Z.
Qed.

(** X17.  [test_mail_functions] makes the token request and at most one
    more request.  That second request goes to the emailList endpoint of
    the same base URL with the payload of the local-filter mode: the
    sender filter and size 20, and no subject key, the subject being
    matched locally. *)
Theorem workflow_sends_at_most_two_requests w :
  let rq1 := token_request (self w) EMAIL PASSWORD JWT_SECRET in
  let after := sent (snd (test_mail_functions lower net w)) in
  after = sent w ++ [rq1] \/
  exists rq2,
    after = sent w ++ [rq1; rq2] /\
    req_url rq2 = base_url (self w) ++ lit "/api/public/emailList" /\
    req_json rq2
    = PDict [(lit "toEmail", PStr EMAIL); (lit "timeSort", PStr (lit "desc"));
             (lit "type", PInt 0); (lit "num", PInt 1); (lit "size", PInt 20);
             (lit "sendEmail", PStr SEND_EMAIL)].
Proof.
  cbv zeta.
  destruct (get_token_world net w EMAIL PASSWORD JWT_SECRET) as [S B].
  cbv zeta in S, B.
  destruct (workflow_requests w) as (extra & A & [-> | ->]); rewrite A, S.
  - left. apply List.app_nil_r.
  - right. eexists. rewrite <- app_assoc. split; [reflexivity|].
    cbn [req_url req_json mail_list_request]. rewrite B.
    split; reflexivity.
Qed.

End MoreScriptClaims.

(** X23.  [main] prints the password with its first four characters and
    the JWT secret with its first eight, a star for each further
    character: the length always shows, and a secret no longer than that
    is printed whole. *)
Theorem main_masks_secrets
    api_url email password jwt_secret to_email send_email subject :
  In (password_label ++ masked 4 password)
     (main_report api_url email password jwt_secret to_email send_email
        subject) /\
  In (secret_label ++ masked 8 jwt_secret)
     (main_report api_url email password jwt_secret to_email send_email
        subject) /\
  (forall shown secret,
      (List.length secret <= shown)%nat -> masked shown secret = secret) /\
  (forall shown secret,
      (shown <= List.length secret)%nat ->
      List.length (masked shown secret) = List.length secret /\
      List.firstn shown (masked shown secret) = List.firstn shown secret /\
      List.skipn shown (masked shown secret)
      = List.repeat 42%N (List.length secret - shown)).
Proof.
  split; [|split; [|split]].
  - unfold main_report. cbn [In app]. tauto.
  - unfold main_report. cbn [In app]. tauto.
  - intros shown secret L. unfold masked.
    rewrite firstn_all2 by exact L.
    replace (List.length secret - shown)%nat with O by lia.
    apply List.app_nil_r.
  - intros shown secret L. unfold masked.
    assert (F : List.length (List.firstn shown secret) = shown)
      by (apply firstn_length_le; exact L).
    repeat split.
    + rewrite length_app, F, repeat_length. lia.
    + rewrite firstn_app, F, Nat.sub_diag. cbn [List.firstn].
      rewrite List.app_nil_r, firstn_firstn, Nat.min_id. reflexivity.
    + rewrite skipn_app, F, Nat.sub_diag. cbn [List.skipn].
      rewrite skipn_all2 by (rewrite F; lia). reflexivity.
Qed.

(* ===================================================================== *)
(** * The further properties at sample inputs                            *)
(* ===================================================================== *)

(** X3 at a body with code 200 and [data: null]. *)
Lemma get_token_unusable_body_witness :
  let net := net_reply (reply_with 200
                          (Ok (PDict [(lit "code", PInt 200);
                                      (lit "data", PNone)]))) in
  let out := get_token net EMAIL PASSWORD JWT_SECRET ready_world in
  fst out = Ok (error_result (exn_text (no_attribute PNone (lit "get")))) /\
  self (snd out) = self ready_world.
Proof.
  intros net out.
  apply (proj2 (proj2 (get_token_unusable_body net ready_world EMAIL PASSWORD
                         JWT_SECRET _ eq_refl))
           [(lit "code", PInt 200); (lit "data", PNone)] (PInt 200) PNone);
    try reflexivity.
  intros d; discriminate.
Defined.

(** X4 at a client that holds a token and a body that is only
    [{"code": 200}]. *)
Lemma get_token_without_token_clears_witness :
  let net := net_reply (reply_with 200 (Ok (PDict [(lit "code", PInt 200)]))) in
  let out := get_token net EMAIL PASSWORD JWT_SECRET ready_world in
  token (self ready_world) = PStr (lit "T") /\
  fst out = Ok (PDict [(lit "code", PInt 200)]) /\
  token (self (snd out)) = PNone /\
  forall hd sn se su co sort ty num size,
    get_mail_list net hd sn se su co sort ty num size (snd out)
    = (Ok (error_result need_token_message), snd out).
Proof.
  intros net out. split; [reflexivity|].
  apply (get_token_without_token_clears net ready_world EMAIL PASSWORD
           JWT_SECRET _ [(lit "code", PInt 200)] (PInt 200) eq_refl eq_refl
           eq_refl eq_refl).
  left. reflexivity.
Defined.

(** X5 at the service that issues "T". *)
Lemma query_after_acquire_carries_token_witness :
  exists rq,
    sent (snd (bind (get_token net_issuing EMAIL PASSWORD JWT_SECRET)
                 (fun _ => get_mail_list net_issuing EMAIL None
                             (Some SEND_EMAIL) None None (lit "desc") 0 1 20)
                 fresh_world))
    = sent fresh_world
      ++ [token_request (self fresh_world) EMAIL PASSWORD JWT_SECRET; rq] /\
    req_url rq = base_url (self fresh_world) ++ lit "/api/public/emailList" /\
    req_headers rq = [(lit "Authorization", PStr (lit "T"))].
Proof.
  apply (query_after_acquire_carries_token net_issuing fresh_world EMAIL
           PASSWORD JWT_SECRET _ issuing_body (PInt 200)
           [(lit "token", PStr (lit "T"))] (lit "T") EMAIL None
           (Some SEND_EMAIL) None None (lit "desc") 0 1 20
           eq_refl eq_refl eq_refl eq_refl eq_refl eq_refl).
  discriminate.
Defined.

(** X6 at a 404. *)
Lemma get_mail_list_http_error_witness :
  fst (get_mail_list (net_reply (reply_with 404 (Ok PNone))) EMAIL None None
         None None (lit "desc") 0 1 20 ready_world)
  = Ok (error_result (lit "404 Client Error: status for url: ")).
Proof.
  apply (get_mail_list_http_error (net_reply (reply_with 404 (Ok PNone)))
           ready_world EMAIL None None None None (lit "desc") 0 1 20
           (reply_with 404 (Ok PNone)) eq_refl eq_refl).
  simpl. lia.
Defined.

(** X7 at a transport status of 200 and an embedded code of 401. *)
Lemma get_mail_list_returns_body_unchecked_witness :
  fst (get_mail_list (net_reply (reply_with 200 (Ok (PDict rejecting_body))))
         EMAIL None None None None (lit "desc") 0 1 20 ready_world)
  = Ok (PDict rejecting_body).
Proof.
  exact (f_equal fst
           (get_mail_list_returns_body_unchecked
              (net_reply (reply_with 200 (Ok (PDict rejecting_body))))
              ready_world EMAIL None None None None (lit "desc") 0 1 20
              (reply_with 200 (Ok (PDict rejecting_body)))
              (PDict rejecting_body) eq_refl eq_refl
              (or_introl (eq_refl : (200 ?= 400) = Lt)) eq_refl)).
Defined.

(** X8 at a body that is not JSON, with an exception that is not a
    [RequestException]. *)
Lemma get_mail_list_catches_only_request_exceptions_witness :
  let e := mkExn OtherException (lit "Expecting value") in
  fst (get_mail_list (net_reply (reply_with 200 (Raise e))) EMAIL None None
         None None (lit "desc") 0 1 20 ready_world)
  = Raise e.
Proof.
  intros e.
  apply (get_mail_list_catches_only_request_exceptions
           (net_reply (reply_with 200 (Raise e))) ready_world EMAIL None None
           None None (lit "desc") 0 1 20 e eq_refl).
  right. exists (reply_with 200 (Raise e)).
  split; [reflexivity|]. split; [left; reflexivity | reflexivity].
Defined.

(** X10 at [{"code": 200, "data": null}]. *)
Lemma handle_missing_or_odd_data_witness :
  handle_mail_result ascii_lower true SUBJECT
    (PDict [(lit "code", PInt 200); (lit "data", PNone)])
  = Raise (no_attribute PNone (lit "get")).
Proof.
  apply (proj2 (proj2 (handle_missing_or_odd_data ascii_lower true SUBJECT
                         [(lit "code", PInt 200); (lit "data", PNone)]
                         (PInt 200) eq_refl eq_refl)) PNone);
    try reflexivity.
  intros d; discriminate.
Defined.

(** X11 at code 401 with "bad credentials". *)
Lemma handle_failed_query_witness :
  handle_mail_result ascii_lower true SUBJECT (PDict rejecting_body)
  = Ok (QueryFailed (PStr (lit "bad credentials"))).
Proof.
  apply (handle_failed_query ascii_lower true SUBJECT rejecting_body).
  intros c G. inversion G. reflexivity.
Defined.

(** X12 at a message that matches followed by one whose subject is
    null. *)
Lemma handle_selects_first_match_witness :
  let target := lit "verify" in
  let msgs := [with_subject (lit "Verify"); null_subject_message] in
  let r := [(lit "code", PInt 200); (lit "data", PList msgs)] in
  (forallb well_formed_message msgs = true /\
   ((Forall (fun m => ~ matches ascii_lower target m) msgs /\
     handle_mail_result ascii_lower true target (PDict r) = Ok NotFound) \/
    (exists pre m post,
       msgs = pre ++ m :: post /\
       Forall (fun x => ~ matches ascii_lower target x) pre /\
       matches ascii_lower target m /\
       handle_mail_result ascii_lower true target (PDict r)
       = Ok (Latest [m])))) \/
  (exists pre bad post e,
     msgs = pre ++ bad :: post /\
     forallb well_formed_message pre = true /\
     well_formed_message bad = false /\
     handle_mail_result ascii_lower true target (PDict r) = Raise e /\
     exn_kind e = AttributeError).
Proof.
  intros target msgs r.
  apply (handle_selects_first_match ascii_lower target r (PInt 200) msgs);
    try reflexivity.
  discriminate.
Defined.

(** The handling on the sample messages, and on that sequence. *)
Example handle_sample_messages :
  handle_mail_result ascii_lower true (lit "verify your email")
    (PDict sample_result)
  = Ok (Latest [with_subject (lit "Verify Your Email")]) /\
  handle_mail_result ascii_lower true (lit "verify")
    (PDict [(lit "code", PInt 200);
            (lit "data", PList [with_subject (lit "Verify");
                                null_subject_message])])
  = Raise (no_attribute PNone (lit "lower")).
Proof. split; reflexivity. Qed.

(** X13 at the sample messages with the filter off. *)
Lemma handle_without_filter_takes_first_witness :
  handle_mail_result ascii_lower false (lit "unrelated") (PDict sample_result)
  = Ok (Latest [with_subject (lit "Verify Your Email")]).
Proof.
  apply (handle_without_filter_takes_first ascii_lower false (lit "unrelated")
           sample_result (PInt 200) _ _ (or_introl eq_refl) eq_refl eq_refl
           eq_refl).
Defined.

(** X14 at a message whose subject is null, after a good one. *)
Lemma local_filter_raises_on_odd_message_witness :
  exists e,
    local_filter ascii_lower true (lit "verify")
      (PList ([with_subject (lit "Verify Your Email")]
              ++ PDict [(lit "subject", PNone)] :: []))
    = Raise e /\
    exn_kind e = AttributeError /\
    (forall d v, PDict [(lit "subject", PNone)] = PDict d ->
                 Dict.get d (lit "subject") = Some v ->
                 e = no_attribute v (lit "lower")) /\
    ((forall d, PDict [(lit "subject", PNone)] <> PDict d) ->
     e = no_attribute (PDict [(lit "subject", PNone)]) (lit "get")).
Proof.
  apply (local_filter_raises_on_odd_message ascii_lower (lit "verify")
           [with_subject (lit "Verify Your Email")]
           (PDict [(lit "subject", PNone)]) []); try reflexivity.
  discriminate.
Defined.

(** X15 at the sample messages. *)
Lemma local_filter_is_idempotent_witness :
  exists kept,
    local_filter ascii_lower true (lit "verify your email")
      (PList sample_messages) = Ok (PList kept) /\
    (List.length kept <= List.length sample_messages)%nat /\
    Forall (matches ascii_lower (lit "verify your email")) kept /\
    local_filter ascii_lower true (lit "verify your email") (PList kept)
    = Ok (PList kept).
Proof.
  apply (local_filter_is_idempotent ascii_lower (lit "verify your email")
           sample_messages); [discriminate | reflexivity].
Defined.

(** X16 at the service that rejects the credentials. *)
Lemma workflow_stops_on_token_failure_witness :
  test_mail_functions ascii_lower net_rejecting fresh_world
  = (Ok (TokenFailed (PStr (lit "bad credentials"))),
     snd (get_token net_rejecting EMAIL PASSWORD JWT_SECRET fresh_world)) /\
  sent (snd (test_mail_functions ascii_lower net_rejecting fresh_world))
  = sent fresh_world
    ++ [token_request (self fresh_world) EMAIL PASSWORD JWT_SECRET].
Proof.
  apply (workflow_stops_on_token_failure ascii_lower net_rejecting fresh_world
           rejecting_body eq_refl).
  intros c G. inversion G. reflexivity.
Defined.

(** The whole workflow at a service that issues a token and answers the
    query with two messages, the second with the configured subject. *)
Example workflow_finds_configured_subject :
  let out := test_mail_functions ascii_lower (net_query sample_reply)
               fresh_world in
  fst out = Ok (Latest [with_subject SUBJECT]) /\
  List.length (sent (snd out)) = 2%nat.
Proof. split; reflexivity. Qed.

